(** * GeminiImage plugin: session, cache and gateway state machine

    A shallow embedding of [plugins/GeminiImg/gemini_image.py].

    Conventions of the embedding.
    - A Python [str] is a [string] holding its UTF-8 bytes; [bytes] is a
      list of bytes.  [len] and slicing of a [str], which count code points,
      are parameters of the handlers that use them.
    - [time.time()] is an integer number of seconds, passed in by the caller
      of each function that reads the clock.
    - A Python function that can raise returns a [py A]: either
      [Return a] or [Raise e].  An [except Exception] clause catches the
      classes that derive from [Exception] and lets the others pass.
    - Whether a file can be written is a parameter of the handlers; a
      write that raises ends the [try] block of its handler.
    - The list objects held by [self.conversations] live in a small object
      store and are handled through references, as in Python: a local
      variable bound to [self.conversations[key]] is an alias of the stored
      list, [extend]/[append] mutate the shared object, and a slice
      [l[-10:]] builds a new object. *)

From stdpp Require Import gmap strings list pretty.
From Stdlib Require Import ZArith Ascii.
From Stdlib.Strings Require Import Byte.

Open Scope Z_scope.

Definition bytes := list Byte.byte.

(** ** Python string primitives used by the plugin *)

Module PyStr.

(** [bool(s)] for a string. *)
Definition truthy (s : string) : bool :=
  match s with
  | EmptyString => false
  | String _ _ => true
  end.

(** The characters on which [str.split()] cuts are those of
    [str.isspace()].  [space_len s] is the number of bytes of the
    whitespace character that starts [s], and 0 when [s] starts
    otherwise: U+0009..U+000D, U+001C..U+0020 on one byte; U+0085 and
    U+00A0 on two; U+1680, U+2000..U+200A, U+2028, U+2029, U+202F, U+205F
    and U+3000 on three. *)
Definition space_len (s : string) : nat :=
  match s with
  | EmptyString => 0%nat
  | String a r =>
      let a := N_of_ascii a in
      if ((9 <=? a) && (a <=? 13) || (28 <=? a) && (a <=? 32))%N then 1%nat
      else
        match r with
        | EmptyString => 0%nat
        | String b r' =>
            let b := N_of_ascii b in
            if ((a =? 194) && ((b =? 133) || (b =? 160)))%N then 2%nat
            else
              match r' with
              | EmptyString => 0%nat
              | String c _ =>
                  let c := N_of_ascii c in
                  if ((a =? 225) && (b =? 154) && (c =? 128)
                      || (a =? 226) && (b =? 128)
                         && ((128 <=? c) && (c <=? 138)
                             || (c =? 168) || (c =? 169) || (c =? 175))
                      || (a =? 226) && (b =? 129) && (c =? 159)
                      || (a =? 227) && (b =? 128) && (c =? 128))%N
                  then 3%nat
                  else 0%nat
              end
        end
  end.

Definition flush (cur : string) : list string :=
  if truthy cur then [cur] else [].

(** [s.split()]: the maximal runs of non-whitespace characters, in order.
    [cur] is the word being read and [skip] the number of bytes still to
    pass of the whitespace character being read. *)
Fixpoint split_from (skip : nat) (cur s : string) : list string :=
  match s with
  | EmptyString => flush cur
  | String c s' =>
      match skip with
      | S k => split_from k cur s'
      | O =>
          match space_len s with
          | O => split_from 0 (cur +:+ String c "") s'
          | S k => flush cur ++ split_from k "" s'
          end
      end
  end.

Definition split (s : string) : list string := split_from 0 "" s.

(** No whitespace character starts anywhere in [s]. *)
Fixpoint no_space (s : string) : bool :=
  match s with
  | EmptyString => true
  | String _ s' => Nat.eqb (space_len s) 0 && no_space s'
  end.

(** [needle in hay] for two strings. *)
Fixpoint contains (needle hay : string) : bool :=
  String.prefix needle hay ||
  match hay with
  | EmptyString => false
  | String _ hay' => contains needle hay'
  end.

(** [s.startswith((p1, p2, ...))]. *)
Definition startswith_any (ps : list string) (s : string) : bool :=
  existsb (fun p => String.prefix p s) ps.

(** [s.replace(a, "_")] for a one-character [a]. *)
Fixpoint replace_char (a : ascii) (s : string) : string :=
  match s with
  | EmptyString => EmptyString
  | String c s' =>
      String (if Ascii.eqb c a then "_"%char else c) (replace_char a s')
  end.

(** [s[:n]] on ASCII text, where a character is a byte. *)
Definition take (n : nat) (s : string) : string := String.substring 0 n s.

Definition join_path (dir name : string) : string := dir +:+ "/" +:+ name.

End PyStr.

(** ** Exceptions *)

(** The classes of [requests.exceptions] that [requests.post] raises, the
    other classes that derive from [Exception], and [KeyboardInterrupt]
    for the classes that do not ([KeyboardInterrupt], [SystemExit],
    [GeneratorExit]). *)
Inductive exn_class :=
| SSLError | ProxyError | ConnectionError | ConnectTimeout
| ReadTimeout | Timeout | OtherException | KeyboardInterrupt.

#[global] Instance exn_class_eq_dec : EqDecision exn_class.
Proof. solve_decision. Defined.

(** An exception object: its class and [str(e)]. *)
Record exn := Exn { exn_cls : exn_class; exn_str : string }.

(** [isinstance(e, requests.exceptions.ConnectionError)]: [SSLError],
    [ProxyError] and [ConnectTimeout] derive from it. *)
Definition is_ConnectionError (c : exn_class) : bool :=
  match c with
  | SSLError | ProxyError | ConnectionError | ConnectTimeout => true
  | _ => false
  end.

(** [isinstance(e, requests.exceptions.Timeout)]. *)
Definition is_Timeout (c : exn_class) : bool :=
  match c with
  | ConnectTimeout | ReadTimeout | Timeout => true
  | _ => false
  end.

(** [isinstance(e, Exception)]. *)
Definition is_Exception (c : exn_class) : bool :=
  match c with
  | KeyboardInterrupt => false
  | _ => true
  end.

(** A transport failure: a timeout, a connection error or a TLS error. *)
Definition is_transport (c : exn_class) : bool :=
  is_ConnectionError c || is_Timeout c.

Inductive py (A : Type) : Type :=
| Return (a : A)
| Raise (e : exn).
Arguments Return {A} a.
Arguments Raise {A} e.

#[global] Instance py_ret : MRet py := fun A a => Return a.
#[global] Instance py_bind : MBind py := fun A B f m =>
  match m with
  | Return a => f a
  | Raise e => Raise e
  end.

(** [try: body  except Exception as e: handler e]: an exception that
    does not derive from [Exception] is not caught. *)
Definition try_except {A} (body : py A) (handler : exn -> py A) : py A :=
  match body with
  | Return a => Return a
  | Raise e => if is_Exception (exn_cls e) then handler e else Raise e
  end.

(** ** Generation Gateway *)

(** One element of [content["parts"]] in the API response.  [text] is the
    value under the key ["text"] when present; [inlineData] is [None] when
    the key is missing, [Some None] for a dictionary without ["data"] and
    [Some (Some d)] for data that base64-decodes to [d]. *)
Record Part := {
  text : option string;
  inlineData : option (option bytes)
}.

Record Candidate := {
  finishReason : string;
  parts : list Part
}.

Record ApiResult := { candidates : list Candidate }.

(** What [requests.post] returned: the status code and what
    [response.json()] gives (it raises on a body that is not JSON). *)
Record Response := {
  status_code : Z;
  json : py ApiResult
}.

Definition text_part (t : string) : Part :=
  {| text := Some t; inlineData := None |}.
Definition image_part (d : bytes) : Part :=
  {| text := None; inlineData := Some (Some d) |}.

(** [if x] for an optional string and for optional bytes. *)
Definition truthy_text (t : option string) : bool :=
  match t with
  | Some s => PyStr.truthy s
  | None => false
  end.

Definition truthy_bytes (b : option bytes) : bool :=
  match b with
  | Some (_ :: _) => true
  | _ => false
  end.

Definition is_not_None {A} (x : option A) : bool :=
  match x with
  | Some _ => true
  | None => false
  end.

(** The loop [for part in parts:] shared by [_generate_image] and
    [_edit_image]; the two lists grow together. *)
Fixpoint parse_loop (ps : list Part)
    (text_responses : list (option string))
    (image_datas : list (option bytes))
  : list (option string) * list (option bytes) :=
  match ps with
  | [] => (text_responses, image_datas)
  | part :: rest =>
      if truthy_text (text part) then
        parse_loop rest (text_responses ++ [text part]) (image_datas ++ [None])
      else
        match inlineData part with
        | Some (Some img_data) =>
            parse_loop rest (text_responses ++ [None])
                       (image_datas ++ [Some img_data])
        | _ => parse_loop rest text_responses image_datas
        end
  end.

(** [not image_datas or all(img is None for img in image_datas)]. *)
Definition no_image (image_datas : list (option bytes)) : bool :=
  forallb (fun img => negb (is_not_None img)) image_datas.

(** [text_responses and any(text is not None for text in text_responses)]. *)
Definition some_text (text_responses : list (option string)) : bool :=
  existsb is_not_None text_responses.

(** The body of [if response.status_code == 200:] in [_generate_image]. *)
Definition generate_result (result : ApiResult)
  : list (option bytes) * list (option string) :=
  match candidates result with
  | [] => ([], [])
  | c :: _ =>
      let '(text_responses, image_datas) := parse_loop (parts c) [] [] in
      if no_image image_datas then
        if some_text text_responses then
          ([], List.filter truthy_text text_responses)
        else ([], [])
      else
        let valid_images := List.filter truthy_bytes image_datas in
        let valid_texts := List.filter truthy_text text_responses in
        let max_length := Nat.max (length valid_images) (length valid_texts) in
        (valid_images ++ replicate (max_length - length valid_images) None,
         valid_texts ++ replicate (max_length - length valid_texts) None)
  end.

Definition generate_except (e : exn)
  : py (list (option bytes) * list (option string)) :=
  if bool_decide (exn_cls e = SSLError) then
    Return ([], [Some ("图片生成失败: SSL连接错误，请检查网络或代理设置: " +:+ exn_str e)])
  else if is_ConnectionError (exn_cls e) then
    Return ([], [Some ("图片生成失败: 连接错误，请检查网络或代理设置: " +:+ exn_str e)])
  else if is_Timeout (exn_cls e) then
    Return ([], [Some ("图片生成失败: API调用超时，请稍后再试: " +:+ exn_str e)])
  else
    Return ([], [Some ("图片生成失败: " +:+ exn_str e)]).

(** [_generate_image].  The request is built before the [try] and cannot
    raise (a history image that cannot be read is skipped), so the result is
    a function of [post], the outcome of [requests.post]. *)
Definition _generate_image (post : py Response)
  : py (list (option bytes) * list (option string)) :=
  try_except
    (response ← post;
     if status_code response =? 200 then
       result ← json response;
       mret (generate_result result)
     else mret ([], []))
    generate_except.

(** [next((x for x in l if x), None)]. *)
Definition first_valid {A} (ok : option A -> bool) (l : list (option A))
  : option A :=
  match List.filter ok l with
  | x :: _ => x
  | [] => None
  end.

(** The argument [image_data_input: Union[bytes, List[bytes]]]. *)
Inductive image_input :=
| OneImage (b : bytes)
| ManyImages (l : list bytes).

Definition input_list (i : image_input) : list bytes :=
  match i with
  | OneImage b => [b]
  | ManyImages l => l
  end.

Section Edit.

(** [json.dumps(result)]. *)
Variable json_dumps : ApiResult -> string.

(** The body of [if response.status_code == 200:] in [_edit_image]. *)
Definition edit_result (result : ApiResult) : option bytes * option string :=
  match candidates result with
  | [] => (None, None)
  | c :: _ =>
      if bool_decide (finishReason c = "IMAGE_SAFETY") then
        (None, Some (json_dumps result))
      else
        let '(text_responses, image_datas) := parse_loop (parts c) [] [] in
        if no_image image_datas then
          if some_text text_responses then
            (None, first_valid truthy_text text_responses)
          else (None, None)
        else
          (first_valid truthy_bytes image_datas,
           first_valid truthy_text text_responses)
  end.

Definition edit_except (e : exn) : py (option bytes * option string) :=
  if bool_decide (exn_cls e = SSLError) then
    Return (None, Some ("图片编辑失败: SSL连接错误，请检查网络或代理设置: " +:+ exn_str e))
  else if is_ConnectionError (exn_cls e) then
    Return (None, Some ("图片编辑失败: 连接错误，请检查网络或代理设置: " +:+ exn_str e))
  else if is_Timeout (exn_cls e) then
    Return (None, Some ("图片编辑失败: API调用超时，请稍后再试: " +:+ exn_str e))
  else
    Return (None, Some ("图片编辑失败: " +:+ exn_str e)).

(** [_edit_image]; as for [_generate_image], [post] is the outcome of
    [requests.post], which is only reached with a non-empty input. *)
Definition _edit_image (image_data_input : image_input) (post : py Response)
  : py (option bytes * option string) :=
  match input_list image_data_input with
  | [] => Return (None, None)
  | _ :: _ =>
      try_except
        (response ← post;
         if status_code response =? 200 then
           result ← json response;
           mret (edit_result result)
         else mret (None, None))
        edit_except
  end.

End Edit.

(** ** Python dictionaries that are iterated: insertion order is kept *)

Module Dict.
Section Dict.

Context {V : Type}.

Definition dict := list (string * V).

(** [d.get(k)]. *)
Fixpoint get (d : dict) (k : string) : option V :=
  match d with
  | [] => None
  | (k', v) :: d' => if String.eqb k' k then Some v else get d' k
  end.

(** [d[k] = v]: an existing key keeps its place, a new key goes last. *)
Fixpoint set (d : dict) (k : string) (v : V) : dict :=
  match d with
  | [] => [(k, v)]
  | (k', v') :: d' =>
      if String.eqb k' k then (k, v) :: d' else (k', v') :: set d' k v
  end.

(** [del d[k]] for a key of [d]. *)
Fixpoint del (d : dict) (k : string) : dict :=
  match d with
  | [] => []
  | (k', v') :: d' =>
      if String.eqb k' k then d' else (k', v') :: del d' k
  end.

Definition keys (d : dict) : list string := map fst d.

End Dict.
Arguments dict V : clear implicits.
End Dict.

(** ** Data model *)

Inductive Role := user | model.

(** An element of a turn's ["parts"]: [{"text": t}] or [{"image_url": p}]. *)
Inductive TurnPart :=
| PartText (t : string)
| PartImageUrl (image_url : string).

Record Turn := {
  role : Role;
  turn_parts : list TurnPart
}.

(** A value of [self.last_images]: one path (edit) or a list (generate). *)
Inductive LastImage :=
| OnePath (p : string)
| PathList (ps : list string).

(** A value of [self.image_cache]. *)
Record CacheEntry := {
  content : list bytes;
  timestamp : Z
}.

(** The attributes of the message object that the plugin reads; [None] is
    an attribute that is missing (or [None]). *)
Record Msg := {
  actual_user_id : option string;
  from_user_id : option string;
  sender_id : option string;
  sender_wxid : option string;
  self_display_name : option string
}.

Record Context := {
  session_id : string;
  isgroup : bool;
  msg : option Msg          (* [context.kwargs['msg']] when present *)
}.

Definition ref := nat.

(** The plugin object: the attributes set in [__init__] that the handlers
    read or write.  [objects] holds the list objects that
    [conversations] refers to. *)
Record GeminiImage := {
  conversations : gmap string ref;
  objects : gmap ref (list Turn);
  conversation_timestamps : gmap string Z;
  last_images : gmap string LastImage;
  image_cache : Dict.dict CacheEntry;
  current_context : option Context;
  auto_edit : bool
}.

Definition conversation_expiry : Z := 600.
Definition image_cache_timeout : Z := 300.

(** The plugin after [__init__]. *)
Definition init : GeminiImage := {|
  conversations := ∅;
  objects := ∅;
  conversation_timestamps := ∅;
  last_images := ∅;
  image_cache := [];
  current_context := None;
  auto_edit := false
|}.

Definition with_conversations (f : gmap string ref -> gmap string ref)
    (self : GeminiImage) : GeminiImage :=
  {| conversations := f (conversations self);
     objects := objects self;
     conversation_timestamps := conversation_timestamps self;
     last_images := last_images self;
     image_cache := image_cache self;
     current_context := current_context self;
     auto_edit := auto_edit self |}.

Definition with_objects (f : gmap ref (list Turn) -> gmap ref (list Turn))
    (self : GeminiImage) : GeminiImage :=
  {| conversations := conversations self;
     objects := f (objects self);
     conversation_timestamps := conversation_timestamps self;
     last_images := last_images self;
     image_cache := image_cache self;
     current_context := current_context self;
     auto_edit := auto_edit self |}.

Definition with_conversation_timestamps (f : gmap string Z -> gmap string Z)
    (self : GeminiImage) : GeminiImage :=
  {| conversations := conversations self;
     objects := objects self;
     conversation_timestamps := f (conversation_timestamps self);
     last_images := last_images self;
     image_cache := image_cache self;
     current_context := current_context self;
     auto_edit := auto_edit self |}.

Definition with_last_images
    (f : gmap string LastImage -> gmap string LastImage)
    (self : GeminiImage) : GeminiImage :=
  {| conversations := conversations self;
     objects := objects self;
     conversation_timestamps := conversation_timestamps self;
     last_images := f (last_images self);
     image_cache := image_cache self;
     current_context := current_context self;
     auto_edit := auto_edit self |}.

Definition with_image_cache
    (f : Dict.dict CacheEntry -> Dict.dict CacheEntry)
    (self : GeminiImage) : GeminiImage :=
  {| conversations := conversations self;
     objects := objects self;
     conversation_timestamps := conversation_timestamps self;
     last_images := last_images self;
     image_cache := f (image_cache self);
     current_context := current_context self;
     auto_edit := auto_edit self |}.

(** *** List objects and aliasing *)

(** Allocation of a new list object, at a reference that is not in use. *)
Definition new_list (l : list Turn) (self : GeminiImage) : GeminiImage * ref :=
  let r := fresh (dom (objects self)) in
  (with_objects (insert r l) self, r).

(** The contents of the list object behind a reference. *)
Definition deref (self : GeminiImage) (r : ref) : list Turn :=
  default [] (objects self !! r).

(** [self.conversations[key]] on the [defaultdict(list)]: a missing key is
    bound to a new empty list; the result is the stored object itself. *)
Definition conversations_getitem (key : string) (self : GeminiImage)
  : GeminiImage * ref :=
  match conversations self !! key with
  | Some r => (self, r)
  | None =>
      let '(self, r) := new_list [] self in
      (with_conversations (insert key r) self, r)
  end.

(** [l.extend(items)]: mutation of the object [l] refers to. *)
Definition list_extend (l : ref) (items : list Turn) (self : GeminiImage)
  : GeminiImage :=
  with_objects (insert l (deref self l ++ items)) self.

(** [l[-n:]]: a new list object. *)
Definition last_n {A} (n : nat) (l : list A) : list A :=
  drop (length l - n) l.

Definition list_slice_last (n : nat) (l : ref) (self : GeminiImage)
  : GeminiImage * ref :=
  new_list (last_n n (deref self l)) self.

(** The history stored for a key: what a later [self.conversations[key]]
    reads; [None] when the key is not in the dictionary. *)
Definition history (self : GeminiImage) (key : string) : option (list Turn) :=
  r ← conversations self !! key; Some (deref self r).

(** The turns stored for a key, a missing key having none. *)
Definition turns (self : GeminiImage) (key : string) : list Turn :=
  default [] (history self key).

(** ** Identity Resolver *)

(** [hasattr(msg, a) and msg.a]: the attribute when present and non-empty. *)
Definition attr (a : option string) : option string :=
  match a with
  | Some s => if PyStr.truthy s then Some s else None
  | None => None
  end.

(** The [if / elif / elif] over [sender_id], [sender_wxid] and
    [self_display_name]; [sender] is kept when none of them is set. *)
Definition other_sender (m : Msg) (sender : option string) : option string :=
  match attr (sender_id m), attr (sender_wxid m), attr (self_display_name m) with
  | Some s, _, _ => Some s
  | None, Some s, _ => Some s
  | None, None, Some s => Some s
  | None, None, None => sender
  end.

(** [actual_user_id], else [from_user_id]. *)
Definition first_sender (m : Msg) : option string :=
  match attr (actual_user_id m) with
  | Some s => Some s
  | None => attr (from_user_id m)
  end.

Section Identity.

(** Python's [hash] on strings. *)
Variable hash : string -> Z.

(** The local variable [sender_id] of [_handle_image_message] when the
    cache key is built. *)
Definition resolve_sender (context : Context) : string :=
  let sender :=
    match msg context with
    | Some m =>
        let sender := first_sender m in
        if isgroup context && bool_decide (sender = Some (session_id context))
        then other_sender m sender
        else sender
    | None => None
    end in
  match sender with
  | Some s => s
  | None => "user_" +:+ pretty (hash (session_id context) `mod` 10000)
  end.

(** [cache_key] of [_handle_image_message]. *)
Definition cache_key (context : Context) : string :=
  let sender := resolve_sender context in
  if isgroup context then session_id context +:+ "_" +:+ sender
  else sender.

(** [_handle_image_message].  [image_datas] is what the handler read from
    the message (the empty list when it found nothing) and [decodable]
    tells whether [Image.open] accepts a buffer. *)
Definition _handle_image_message (decodable : bytes -> bool)
    (context : Context) (image_datas : list bytes) (now : Z)
    (self : GeminiImage) : GeminiImage :=
  let key := cache_key context in
  match image_datas with
  | [] => self
  | _ :: _ =>
      if forallb (fun image_data => (100 <? length image_data)%nat) image_datas
      then
        if forallb decodable image_datas then
          with_image_cache
            (fun c => Dict.set c key {| content := image_datas; timestamp := now |})
            self
        else self
      else self
  end.

End Identity.

(** ** Image Inbox Cache *)

(** [cache_data and time.time() - cache_data["timestamp"] <= self.image_cache_timeout]. *)
Definition cache_fresh (cache_data : option CacheEntry) (now : Z) : bool :=
  match cache_data with
  | Some e => bool_decide (now - timestamp e <= image_cache_timeout)
  | None => false
  end.

(** What the [if isinstance(content, list) ...] chain returns for an entry:
    the first buffer, or [None] for an empty list. *)
Definition first_content (cache_data : option CacheEntry) : option bytes :=
  match cache_data with
  | Some e => head (content e)
  | None => None
  end.

(** [s.endswith(suffix)]. *)
Definition endswith (suffix s : string) : bool :=
  let n := String.length s in
  let m := String.length suffix in
  (m <=? n)%nat && String.eqb (String.substring (n - m) m s) suffix.

(** [s.split(sep)] for a one-character separator: empty pieces are kept. *)
Fixpoint split_on (sep : ascii) (cur s : string) : list string :=
  match s with
  | EmptyString => [cur]
  | String c s' =>
      if Ascii.eqb c sep then cur :: split_on sep "" s'
      else split_on sep (cur +:+ String c "") s'
  end.

(** A loop that returns from the function at the first key whose entry is
    fresh; [None] means that the loop ran to its end. *)
Fixpoint first_fresh (cache : Dict.dict CacheEntry) (now : Z)
    (wanted : string -> bool) (ks : list string) : option (option bytes) :=
  match ks with
  | [] => None
  | k :: ks' =>
      if wanted k && cache_fresh (Dict.get cache k) now
      then Some (first_content (Dict.get cache k))
      else first_fresh cache now wanted ks'
  end.

(** The group-chat lookup of [_get_recent_image]: the key
    [{session_id}_{sender_id}] of the context in [self.current_context]. *)
Definition group_key (context : Context) : option string :=
  if isgroup context then
    match msg context with
    | Some m =>
        let sender := first_sender m in
        let sender :=
          if bool_decide (sender = Some (session_id context))
          then other_sender m sender else sender in
        match sender with
        | Some s => Some (session_id context +:+ "_" +:+ s)
        | None => None
        end
    | None => None
    end
  else None.

(** [_get_recent_image]. *)
Definition _get_recent_image (self : GeminiImage) (conversation_key : string)
    (now : Z) : option bytes :=
  let cache := image_cache self in
  if cache_fresh (Dict.get cache conversation_key) now then
    first_content (Dict.get cache conversation_key)
  else
    match first_fresh cache now (fun _ => true)
            (match current_context self with
             | Some context =>
                 match group_key context with
                 | Some k => [k]
                 | None => []
                 end
             | None => []
             end) with
    | Some r => r
    | None =>
        match first_fresh cache now
                (fun k => String.prefix (conversation_key +:+ "_") k
                          || endswith ("_" +:+ conversation_key) k)
                (Dict.keys cache) with
        | Some r => r
        | None =>
            if PyStr.contains "_" conversation_key then
              match first_fresh cache now (fun _ => true)
                      (split_on "_" "" conversation_key) with
              | Some r => r
              | None => None
              end
            else None
        end
    end.

(** [_cleanup_image_cache]. *)
Definition _cleanup_image_cache (now : Z) (self : GeminiImage) : GeminiImage :=
  let expired_keys :=
    map fst
      (List.filter
         (fun kv => bool_decide (now - timestamp (snd kv) > image_cache_timeout))
         (image_cache self)) in
  with_image_cache (fun c => foldl Dict.del c expired_keys) self.

(** ** Conversation Store: expiry *)

(** [_cleanup_expired_conversations]. *)
Definition _cleanup_expired_conversations (now : Z) (self : GeminiImage)
  : GeminiImage :=
  let expired_keys :=
    map fst
      (List.filter
         (fun kt => bool_decide (now - snd kt > conversation_expiry))
         (map_to_list (conversation_timestamps self))) in
  foldl
    (fun self key =>
       with_last_images (delete key)
         (with_conversation_timestamps (delete key)
            (with_conversations (delete key) self)))
    self expired_keys.

(** ** Retention Sweeper *)

(** An entry of [os.listdir(self.save_dir)]: its name, whether it is a
    directory, and [os.path.getmtime]. *)
Record DirEntry := {
  filename : string;
  is_dir : bool;
  mtime : Z
}.

(** [file_path in last_image]: membership in a list, and containment as a
    substring in a single path. *)
Definition path_in (file_path : string) (last_image : LastImage) : bool :=
  match last_image with
  | OnePath p => PyStr.contains file_path p
  | PathList ps => bool_decide (file_path ∈ ps)
  end.

(** The loop over [self.last_images.values()] that sets [in_use]. *)
Definition in_use (file_path : string) (last_images : gmap string LastImage)
  : bool :=
  existsb (fun kv => path_in file_path (snd kv)) (map_to_list last_images).

(** Whether [_cleanup_temp_files] calls [os.remove] on an entry. *)
Definition removes (save_dir : string) (last_images : gmap string LastImage)
    (now max_age_hours : Z) (e : DirEntry) : bool :=
  let file_path := PyStr.join_path save_dir (filename e) in
  if is_dir e then false
  else if PyStr.startswith_any ["gemini_"; "edited_"; "temp_"] (filename e) then
    let file_age := now - mtime e in
    if bool_decide (file_age > max_age_hours * 3600) then
      negb (in_use file_path last_images)
    else false
  else false.

(** [_cleanup_temp_files] on the listing of an existing [save_dir]: the
    entries left in the directory afterwards. *)
Definition _cleanup_temp_files (save_dir : string) (self : GeminiImage)
    (now max_age_hours : Z) (listing : list DirEntry) : list DirEntry :=
  List.filter
    (fun e => negb (removes save_dir (last_images self) now max_age_hours e))
    listing.

(** ** Command handlers of [on_handle_context] *)

(** What the command router makes of an inbound message, once the command
    prefix is cut off and the prompt stripped.  A command with an empty
    prompt, or received while no API key is configured, is answered with a
    usage message and is [Ignored], as is a message that is neither text
    nor image. *)
Inductive Event :=
| ImageMessage (image_datas : list bytes)
| ExitCommand
| GenerateCommand (prompt : string)
| EditCommand (prompt : string)
| OtherText (content : string)
| Ignored.

Definition dquote : string := String (ascii_of_nat 34) "".

Section Handlers.

(** [self.save_dir], [self.exit_commands], [json.dumps], [hash]. *)
Variable save_dir : string.
Variable exit_commands : list string.
Variable json_dumps : ApiResult -> string.
Variable hash : string -> Z.
(** [uuid k] is [uuid.uuid4().hex[:8]] at the [k]-th file that a handler
    saves. *)
Variable uuid : nat -> string.
(** [len(s)] and [s[:n]] on a [str]. *)
Variable len : string -> nat.
Variable str_take : nat -> string -> string.
(** Whether [Image.open] accepts a buffer. *)
Variable decodable : bytes -> bool.
(** Whether [open(path, "wb")] and the write succeed.  It is asked for the
    files whose name carries a caption, which can hold a character that
    [open] refuses; the temporary copies of inbox images, named with digits
    only in the directory that [__init__] created, are taken to be
    written. *)
Variable writable : string -> bool.

(** The two list comprehensions that turn a caption into a file-name
    part. *)
Definition sanitize (text : string) : string :=
  PyStr.replace_char "*"
    (PyStr.replace_char ":"
       (PyStr.replace_char "\"
          (PyStr.replace_char "/" text))).

Definition shorten (text : string) : string :=
  if (30 <? len text)%nat then str_take 30 text +:+ "..." else text.

(** [os.path.join(self.save_dir, f"{op}_{int(time.time())}_{uuid}{tail}.png")]. *)
Definition image_file (op : string) (now : Z) (k : nat) (tail : string)
  : string :=
  PyStr.join_path save_dir
    (op +:+ "_" +:+ pretty now +:+ "_" +:+ uuid k +:+ tail +:+ ".png").

(** [clean_texts] of the generate command. *)
Definition clean_texts_of (text_responses : list (option string))
  : list string :=
  if some_text text_responses then
    match List.filter truthy_text text_responses with
    | [] => ["generated_image"]
    | valid_responses =>
        map (fun t => shorten (sanitize (default "" t))) valid_responses
    end
  else ["generated_image"].

(** The loop [for i, image_data in enumerate(image_datas):] that saves the
    images and collects [image_paths]; [None] when a write raises. *)
Fixpoint save_images (clean_texts : list string) (now : Z) (i : nat)
    (image_datas : list (option bytes)) (image_paths : list string)
  : option (list string) :=
  match image_datas with
  | [] => Some image_paths
  | None :: rest => save_images clean_texts now (S i) rest image_paths
  | Some _ :: rest =>
      let clean_text := default ("image_" +:+ pretty i) (clean_texts !! i) in
      let image_path :=
        image_file "gemini" now (length image_paths) ("_" +:+ clean_text) in
      if writable image_path then
        save_images clean_texts now (S i) rest (image_paths ++ [image_path])
      else None
  end.

Definition user_messages_of (prompt : string) : list Turn :=
  map (fun prompt => {| role := user; turn_parts := [PartText prompt] |})
      (PyStr.split prompt).

Definition text_or (fallback : string) (t : option string) : string :=
  match t with
  | Some s => if PyStr.truthy s then s else fallback
  | None => fallback
  end.

Definition assistant_messages_of (image_paths : list string)
    (text_responses : list (option string)) : list Turn :=
  imap
    (fun i image_path =>
       {| role := model;
          turn_parts :=
            [PartText (text_or "我已生成了图片" (mjoin (text_responses !! i)));
             PartImageUrl image_path] |})
    image_paths.

(** [if len(conversation_history) > 10:
       conversation_history = conversation_history[-10:]]:
    the local name is bound to a new list; the result is the plugin and
    the new value of the local name. *)
Definition limit_history (conversation_history : ref) (self : GeminiImage)
  : GeminiImage * ref :=
  if (10 <? length (deref self conversation_history))%nat
  then list_slice_last 10 conversation_history self
  else (self, conversation_history).

(** The generate command: the [try] block under
    [for cmd in self.commands:].  The result is the plugin as the block
    leaves it: at its end, at the [except Exception] clause that catches a
    failed write, or when an exception that does not derive from
    [Exception] passes through.  The replies sent are not part of the
    plugin object; of the files, only whether each write succeeds
    matters. *)
Definition generate_command (conversation_key prompt : string)
    (post : py Response) (now : Z) (self : GeminiImage) : GeminiImage :=
  let '(self, conversation_history) :=
    conversations_getitem conversation_key self in
  match _generate_image post with
  | Raise _ => self                     (* not an [Exception]: passes *)
  | Return ([], _) => self
  | Return (image_datas, text_responses) =>
      let clean_texts := clean_texts_of text_responses in
      match save_images clean_texts now 0 image_datas [] with
      | None => self                    (* a write raised *)
      | Some [] => self
      | Some image_paths =>
          let self :=
            with_last_images (insert conversation_key (PathList image_paths))
                             self in
          let self :=
            list_extend conversation_history (user_messages_of prompt) self in
          let self :=
            list_extend conversation_history
              (assistant_messages_of image_paths text_responses) self in
          let '(self, conversation_history) :=
            limit_history conversation_history self in
          with_conversation_timestamps (insert conversation_key now) self
      end
  end.

(** The two turns that an edit appends, the time stamp and the last
    image: the body of [if result_image:] after the file is saved. *)
Definition record_edit (conversation_key prompt : string)
    (conversation_history : ref) (image_path new_image_path : string)
    (text_response : option string) (now : Z) (self : GeminiImage)
  : GeminiImage :=
  let self :=
    with_last_images (insert conversation_key (OnePath new_image_path)) self in
  let user_message :=
    {| role := user;
       turn_parts := [PartText prompt; PartImageUrl image_path] |} in
  let self := list_extend conversation_history [user_message] self in
  let assistant_message :=
    {| role := model;
       turn_parts := [PartText (text_or "我已编辑了图片" text_response);
                      PartImageUrl new_image_path] |} in
  let self := list_extend conversation_history [assistant_message] self in
  let '(self, conversation_history) :=
    limit_history conversation_history self in
  with_conversation_timestamps (insert conversation_key now) self.

(** [reply_text] of the edit command: the text of the answer, followed,
    for a history of at most two turns, by a hint that quotes
    [self.exit_commands[0]]; [None] when that read raises. *)
Definition edit_reply_text (text_response : option string)
    (new_session : bool) : option string :=
  let reply_text := text_or "图片编辑成功！" text_response in
  if new_session then
    match exit_commands with
    | [] => None
    | exit_command :: _ =>
        Some (reply_text +:+
              "（已开始图像对话，可以继续发送命令修改图片。需要结束时请发送"
              +:+ dquote +:+ exit_command +:+ dquote +:+ "）")
    end
  else Some reply_text.

(** The edit command: the [try] block under
    [for cmd in self.edit_commands:].  Without an image in the inbox cache
    the handler looks at [self.last_images], replies when there is none,
    and returns.  As for the generate command, the result is the plugin as
    the block leaves it, also when [self.exit_commands[0]] or the write of
    the edited file raises. *)
Definition edit_command (conversation_key prompt : string)
    (post : py Response) (now : Z) (self : GeminiImage) : GeminiImage :=
  match _get_recent_image self conversation_key now with
  | Some ((_ :: _) as image_data) =>
      let image_path := image_file "temp" now 0 "" in
      let self :=
        with_last_images (insert conversation_key (OnePath image_path)) self in
      let '(self, conversation_history) :=
        conversations_getitem conversation_key self in
      match _edit_image json_dumps (OneImage image_data) post with
      | Raise _ => self
      | Return (result_image, text_response) =>
          if truthy_bytes result_image then
            let new_session :=
              (length (deref self conversation_history) <=? 2)%nat in
            match edit_reply_text text_response new_session with
            | None => self            (* [self.exit_commands[0]] raised *)
            | Some reply_text =>
                let clean_text := shorten (sanitize reply_text) in
                let edited_image_path :=
                  image_file "edited" now 1 ("_" +:+ clean_text) in
                if writable edited_image_path then
                  record_edit conversation_key prompt conversation_history
                    image_path edited_image_path text_response now self
                else self             (* the write raised *)
            end
          else self
      end
  | _ => self
  end.

(** [last_image_path] once a list has been narrowed to its first path
    that exists on [disk]. *)
Definition last_image_path_of (disk : gmap string bytes)
    (last_image : option LastImage) : option string :=
  match last_image with
  | Some (OnePath p) => Some p
  | Some (PathList ps) =>
      head (List.filter (fun path => bool_decide (is_Some (disk !! path))) ps)
  | None => None
  end.

(** The implicit continuation: the block under
    [if self.auto_edit and conversation_key in self.conversations:].
    [disk] maps the paths that exist to the contents of their files.  The
    result is the plugin as the block leaves it, also when the write of
    the new file raises. *)
Definition continue_command (conversation_key content : string)
    (post : py Response) (now : Z) (disk : gmap string bytes)
    (self : GeminiImage) : GeminiImage :=
  match last_image_path_of disk (last_images self !! conversation_key) with
  | None => self
  | Some last_image_path =>
      match (if PyStr.truthy last_image_path
             then disk !! last_image_path else None) with
      | None => self
      | Some image_data =>
          let '(self, conversation_history) :=
            conversations_getitem conversation_key self in
          match _edit_image json_dumps (OneImage image_data) post with
          | Raise _ => self
          | Return (result_image, text_response) =>
              if truthy_bytes result_image then
                let reply_text := text_or "图片修改成功！" text_response in
                let clean_text := shorten (sanitize reply_text) in
                let new_image_path :=
                  image_file "gemini" now 0 ("_" +:+ clean_text) in
                if writable new_image_path then
                  record_edit conversation_key content conversation_history
                    last_image_path new_image_path text_response now self
                else self             (* the write raised *)
              else self
          end
      end
  end.

(** The exit command. *)
Definition exit_command (conversation_key : string) (self : GeminiImage)
  : GeminiImage :=
  match conversations self !! conversation_key with
  | Some _ =>
      with_last_images (delete conversation_key)
        (with_conversation_timestamps (delete conversation_key)
           (with_conversations (delete conversation_key) self))
  | None => self
  end.

(** [on_handle_context] for an enabled plugin.  The nightly call of
    [_cleanup_temp_files] only touches the directory and is modelled on
    its own. *)
Definition on_handle_context (context : Context) (event : Event)
    (post : py Response) (now : Z) (disk : gmap string bytes)
    (self : GeminiImage) : GeminiImage :=
  let self := _cleanup_expired_conversations now self in
  let self := _cleanup_image_cache now self in
  let conversation_key := session_id context in
  match event with
  | ImageMessage image_datas =>
      _handle_image_message hash decodable context image_datas now self
  | ExitCommand => exit_command conversation_key self
  | GenerateCommand prompt =>
      generate_command conversation_key prompt post now self
  | EditCommand prompt => edit_command conversation_key prompt post now self
  | OtherText content =>
      if auto_edit self
         && bool_decide (is_Some (conversations self !! conversation_key))
      then continue_command conversation_key content post now disk self
      else self
  | Ignored => self
  end.

End Handlers.

(** ** Translation of the API's messages *)

(** [_translate_gemini_message]. *)
Definition _translate_gemini_message (text : string) : string :=
  if negb (PyStr.truthy text) then ""
  else if PyStr.contains "finishReason" text
          && PyStr.contains "IMAGE_SAFETY" text then
    "抱歉，您的请求可能违反了内容安全政策，无法生成或编辑图片。请尝试修改您的描述，提供更为安全、合规的内容。"
  else if PyStr.contains "finishReason" text then
    "抱歉，图片处理失败，请尝试其他描述或稍后再试。"
  else if PyStr.contains "I'm unable to create this image" text then
    if PyStr.contains "sexually suggestive" text then
      "抱歉，我无法创建这张图片。我不能生成带有性暗示或促进有害刻板印象的内容。请提供其他描述。"
    else if PyStr.contains "harmful" text || PyStr.contains "dangerous" text then
      "抱歉，我无法创建这张图片。我不能生成可能有害或危险的内容。请提供其他描述。"
    else if PyStr.contains "violent" text then
      "抱歉，我无法创建这张图片。我不能生成暴力或血腥的内容。请提供其他描述。"
    else
      "抱歉，我无法创建这张图片。请尝试修改您的描述，提供其他内容。"
  else if PyStr.contains "cannot generate" text
          || PyStr.contains "can't generate" text then
    "抱歉，我无法生成符合您描述的图片。请尝试其他描述。"
  else if PyStr.contains "against our content policy" text then
    "抱歉，您的请求违反了内容政策，无法生成相关图片。请提供其他描述。"
  else text.

(** The phrases that [_translate_gemini_message] looks for. *)
Definition trigger_phrases : list string :=
  ["finishReason"; "I'm unable to create this image"; "cannot generate";
   "can't generate"; "against our content policy"].

(** ** Request construction *)

(** An element of a turn's ["parts"] in the request body. *)
Inductive RequestPart :=
| ReqText (t : string)
| ReqInlineData (mimeType data : string).

(** An element of ["contents"]; the turn built without a history has no
    ["role"]. *)
Record RequestTurn := {
  req_role : option string;
  req_parts : list RequestPart
}.

Definition role_name (r : Role) : string :=
  match r with
  | user => "user"
  | model => "model"
  end.

Section Request.

(** [base64.b64encode(d).decode("utf-8")], and the files that [open] can
    read. *)
Variable b64encode : bytes → string.
Variable disk : gmap string bytes.

(** One pass of [for part in msg["parts"]:]: a text is copied, an image is
    read and inlined, an image that cannot be read is skipped. *)
Definition process_part (part : TurnPart) : list RequestPart :=
  match part with
  | PartText t => [ReqText t]
  | PartImageUrl image_url =>
      match disk !! image_url with
      | Some image_data => [ReqInlineData "image/png" (b64encode image_data)]
      | None => []
      end
  end.

(** [processed_history]. *)
Definition processed_history (conversation_history : list Turn)
  : list RequestTurn :=
  map (fun msg =>
         {| req_role := Some (role_name (role msg));
            req_parts := flat_map process_part (turn_parts msg) |})
      conversation_history.

(** [data["contents"]] of [_generate_image]. *)
Definition generate_contents (prompt : string) (conversation_history : list Turn)
  : list RequestTurn :=
  match conversation_history with
  | [] => [{| req_role := None; req_parts := [ReqText prompt] |}]
  | _ :: _ =>
      processed_history conversation_history
      ++ [{| req_role := Some "user"; req_parts := [ReqText prompt] |}]
  end.

(** [data["contents"]] of [_edit_image] for the image [image_datas[0]]. *)
Definition edit_contents (prompt : string) (image : bytes)
    (conversation_history : list Turn) : list RequestTurn :=
  let parts :=
    [ReqText prompt; ReqInlineData "image/png" (b64encode image)] in
  match conversation_history with
  | [] => [{| req_role := None; req_parts := parts |}]
  | _ :: _ =>
      processed_history conversation_history
      ++ [{| req_role := Some "user"; req_parts := parts |}]
  end.

End Request.

(** The texts of a turn and of a request turn, in order. *)
Definition turn_texts (ps : list TurnPart) : list string :=
  omap (fun p => match p with PartText t => Some t | _ => None end) ps.

Definition request_texts (ps : list RequestPart) : list string :=
  omap (fun p => match p with ReqText t => Some t | _ => None end) ps.

(** The image paths that a turn names. *)
Definition turn_images (ps : list TurnPart) : list string :=
  omap (fun p => match p with PartImageUrl u => Some u | _ => None end) ps.

(** The characters that [sanitize] replaces. *)
Definition unsafe_char (c : ascii) : bool :=
  Ascii.eqb c "/" || Ascii.eqb c "\" || Ascii.eqb c ":" || Ascii.eqb c "*".

Fixpoint string_forall (P : ascii → bool) (s : string) : bool :=
  match s with
  | EmptyString => true
  | String c s' => P c && string_forall P s'
  end.

(** ** Reading of the response parts, as the interface describes it *)

(** The text of a part that counts as a text part, and the image bytes of a
    part that counts as an image part. *)
Definition part_text (p : Part) : option string :=
  if truthy_text (text p) then text p else None.

Definition part_image (p : Part) : option bytes :=
  if truthy_text (text p) then None else mjoin (inlineData p).

Definition texts_in_order (ps : list Part) : list string := omap part_text ps.
Definition images_in_order (ps : list Part) : list bytes := omap part_image ps.

Definition nonempty_bytes (b : bytes) : bool :=
  match b with
  | [] => false
  | _ :: _ => true
  end.

(** [l] followed by [None] up to length [n]. *)
Definition pad {A} (n : nat) (l : list A) : list (option A) :=
  map Some l ++ replicate (n - length l) None.

(** A response with status 200 whose body has [c] as first candidate. *)
Definition ok_response (c : Candidate) (rest : list Candidate) : py Response :=
  Return {| status_code := 200; json := Return {| candidates := c :: rest |} |}.

(** The two columns that [parse_loop] appends. *)
Definition text_column (ps : list Part) : list (option string) :=
  flat_map
    (fun p =>
       if truthy_text (text p) then [text p]
       else match inlineData p with
            | Some (Some _) => [None]
            | _ => []
            end) ps.

Definition image_column (ps : list Part) : list (option bytes) :=
  flat_map
    (fun p =>
       if truthy_text (text p) then [None]
       else match inlineData p with
            | Some (Some d) => [Some d]
            | _ => []
            end) ps.

(** A path is referenced by the last image of some key: the single path, or in the list. *)
Definition referenced (file_path : string)
    (last_images : gmap string LastImage) : Prop :=
  ∃ key,
    last_images !! key = Some (OnePath file_path)
    ∨ ∃ ps, last_images !! key = Some (PathList ps) ∧ file_path ∈ ps.

(** ** An invariant of the three stores *)

(** Every key that has a time stamp has a history and a last image. *)
Definition stamped_keys_complete (self : GeminiImage) : Prop :=
  ∀ k, is_Some (conversation_timestamps self !! k) →
       is_Some (conversations self !! k) ∧ is_Some (last_images self !! k).

(** What a generate, edit or continuation command may do to the three
    dictionaries: histories and last images are only added or replaced,
    and a time stamp is written for [key] alone, once [key] has a history
    and a last image. *)
Definition command_effect (key : string) (now : Z) (self s' : GeminiImage)
  : Prop :=
  (∀ k, is_Some (conversations self !! k) → is_Some (conversations s' !! k))
  ∧ (∀ k, is_Some (last_images self !! k) → is_Some (last_images s' !! k))
  ∧ (conversation_timestamps s' = conversation_timestamps self
     ∨ (conversation_timestamps s' = <[key := now]> (conversation_timestamps self)
        ∧ is_Some (conversations s' !! key)
        ∧ is_Some (last_images s' !! key))).

(** ** The fallback chain of the inbox lookup *)

(** The keys that a lookup of [conversation_key] tries, in order, once the
    entry of [conversation_key] itself is missing or stale: the group key
    of the current context, the cached keys that start with
    [conversation_key_] or end with [_conversation_key], and the parts of
    a [conversation_key] that holds an underscore. *)
Definition fallback_keys (self : GeminiImage) (conversation_key : string)
  : list string :=
  match current_context self with
  | Some context =>
      match group_key context with
      | Some k => [k]
      | None => []
      end
  | None => []
  end
  ++ List.filter
       (fun k => String.prefix (conversation_key +:+ "_") k
                 || endswith ("_" +:+ conversation_key) k)
       (Dict.keys (image_cache self))
  ++ (if PyStr.contains "_" conversation_key
      then split_on "_" "" conversation_key else []).

(** The first key of the fallback chain whose entry is fresh. *)
Definition first_fresh_fallback (self : GeminiImage)
    (conversation_key : string) (now : Z) : option string :=
  List.find (fun k => cache_fresh (Dict.get (image_cache self) k) now)
            (fallback_keys self conversation_key).

(** ** Exceptions of the request *)

(** The exception that the request raises inside the [try] block of the
    gateway: the one of [requests.post], or the one of [response.json()]
    after a status 200. *)
Definition request_exception (post : py Response) : option exn :=
  match post with
  | Raise e => Some e
  | Return response =>
      if status_code response =? 200 then
        match json response with
        | Raise e => Some e
        | Return _ => None
        end
      else None
  end.

(** ** Commands that record their result *)

Section Touch.

Variable save_dir : string.
Variable exit_commands : list string.
Variable json_dumps : ApiResult -> string.
Variable uuid : nat -> string.
Variable len : string -> nat.
Variable str_take : nat -> string -> string.
Variable writable : string -> bool.

(** A successful touch of [key] at time [now]: the state left by a generate
    command that saved at least one image, every write having succeeded,
    or by an edit command that found an image in the inbox cache, obtained
    an edited image, built its reply text and wrote the edited file. *)
Inductive successful_touch (key prompt : string) (post : py Response)
    (now : Z) (self : GeminiImage) : GeminiImage -> Prop :=
| touch_generate (image_datas : list (option bytes))
    (text_responses : list (option string)) (image_paths : list string) :
    _generate_image post = Return (image_datas, text_responses) ->
    save_images save_dir uuid writable
      (clean_texts_of len str_take text_responses) now 0 image_datas []
    = Some image_paths ->
    image_paths <> [] ->
    successful_touch key prompt post now self
      (generate_command save_dir uuid len str_take writable key prompt post
         now self)
| touch_edit (image_data : bytes) (result_image : option bytes)
    (text_response : option string) (reply_text : string) :
    _get_recent_image self key now = Some image_data ->
    image_data <> [] ->
    _edit_image json_dumps (OneImage image_data) post
    = Return (result_image, text_response) ->
    truthy_bytes result_image = true ->
    edit_reply_text exit_commands text_response
      (length (turns self key) <=? 2)%nat
    = Some reply_text ->
    writable (image_file save_dir uuid "edited" now 1
                ("_" +:+ shorten len str_take (sanitize reply_text)))
    = true ->
    successful_touch key prompt post now self
      (edit_command save_dir exit_commands json_dumps uuid len str_take
         writable key prompt post now self).

End Touch.

(** ** Texts given by their words *)

(** The whitespace characters of [str.isspace()], each as its UTF-8
    bytes. *)
Definition utf8 (codes : list N) : string :=
  foldr (fun code s => String (ascii_of_N code) s) EmptyString codes.

Definition whitespace : list string :=
  map utf8
    [ [9]; [10]; [11]; [12]; [13]; [28]; [29]; [30]; [31]; [32];
      [194; 133]; [194; 160]; [225; 154; 128];
      [226; 128; 128]; [226; 128; 129]; [226; 128; 130]; [226; 128; 131];
      [226; 128; 132]; [226; 128; 133]; [226; 128; 134]; [226; 128; 135];
      [226; 128; 136]; [226; 128; 137]; [226; 128; 138];
      [226; 128; 168]; [226; 128; 169]; [226; 128; 175];
      [226; 129; 159]; [227; 128; 128] ]%N.

Definition is_whitespace (c : string) : bool :=
  existsb (String.eqb c) whitespace.

(** No whitespace character occurs in [w]. *)
Definition spaceless (w : string) : bool :=
  forallb (fun c => negb (PyStr.contains c w)) whitespace.

(** A word: a non-empty string in which no whitespace character occurs. *)
Definition is_word (w : string) : bool := PyStr.truthy w && spaceless w.

(** [s.join(l)] with [s] empty. *)
Definition join (l : list string) : string := foldr String.append "" l.

(** A text given by its words: each word comes after a run of whitespace
    characters, and a last run ends the text. *)
Definition spaced_text (items : list (list string * string))
    (trail : list string) : string :=
  join (map (fun item => join item.1 +:+ item.2) items) +:+ join trail.

(** The runs hold whitespace characters only, every run between two words
    holds at least one, and the words are words. *)
Definition well_spaced (items : list (list string * string))
    (trail : list string) : bool :=
  forallb (fun item => forallb is_whitespace item.1 && is_word item.2) items
  && forallb (fun item => PyStr.truthy (join item.1)) (tail items)
  && forallb is_whitespace trail.

(** The first byte of a whitespace character. *)
Definition start_byte (a : ascii) : bool :=
  let a := N_of_ascii a in
  ((9 <=? a) && (a <=? 13) || (28 <=? a) && (a <=? 32)
   || (a =? 194) || (a =? 225) || (a =? 226) || (a =? 227))%N.

(** [rest] is empty or starts with the first byte of a whitespace
    character. *)
Definition at_boundary (rest : string) : bool :=
  match rest with
  | EmptyString => true
  | String p _ => start_byte p
  end.

(** ** Sample inputs *)

Module Sample.

Definition png : bytes := ["137"; "P"; "N"; "G"]%byte.

(** A buffer of 101 bytes, above the size floor of the inbox cache. *)
Definition photo : bytes := replicate 101 "255"%byte.

Definition save_dir : string := "temp".
Definition exit_commands : list string := ["$end"].
Definition json_dumps (_ : ApiResult) : string := "{}".
Definition hash (_ : string) : Z := 42.
Definition uuid (k : nat) : string := "0000000" +:+ pretty k.
Definition decodable (_ : bytes) : bool := true.
Definition writable (_ : string) : bool := true.

Definition one_image : py Response :=
  ok_response {| finishReason := "STOP"; parts := [image_part png] |} [].

Definition text_image_text : py Response :=
  ok_response
    {| finishReason := "STOP";
       parts := [text_part "A"; image_part png; text_part "B"] |} [].

Definition timeout : py Response :=
  Raise (Exn ReadTimeout "Read timed out.").

(** A direct chat with user [u]. *)
Definition direct : Context :=
  {| session_id := "u"; isgroup := false;
     msg := Some {| actual_user_id := None; from_user_id := Some "u";
                    sender_id := None; sender_wxid := None;
                    self_display_name := None |} |}.

(** A group chat [g] whose message names the group as its sender. *)
Definition group_quirk : Context :=
  {| session_id := "g"; isgroup := true;
     msg := Some {| actual_user_id := Some "g"; from_user_id := Some "g";
                    sender_id := None; sender_wxid := None;
                    self_display_name := None |} |}.

Definition handle : Context → Event → py Response → Z → GeminiImage → GeminiImage :=
  fun context event post now =>
    on_handle_context save_dir exit_commands json_dumps hash uuid
      String.length PyStr.take decodable writable context event post now ∅.

End Sample.

(** * Properties *)

(** ** Strings *)

Lemma append_nil_l (b : string) : "" +:+ b = b.
Proof. reflexivity. Qed.

Lemma append_cons (x : ascii) (a b : string) :
  String x a +:+ b = String x (a +:+ b).
Proof. reflexivity. Qed.

Lemma append_nil_r (a : string) : a +:+ "" = a.
Proof.
  induction a as [|x a IH]; [done |]. by rewrite append_cons, IH.
Qed.

Lemma append_assoc (a b c : string) : (a +:+ b) +:+ c = a +:+ (b +:+ c).
Proof.
  induction a as [|x a IH]; [done |]. by rewrite !append_cons, IH.
Qed.

Lemma split_from_one_word (s : string) :
  ∀ cur, PyStr.no_space s = true →
         PyStr.split_from 0 cur s = PyStr.flush (cur +:+ s).
Proof.
  induction s as [|c s IH]; intros cur Hs.
  - simpl. by rewrite append_nil_r.
  - cbn [PyStr.no_space] in Hs. apply andb_prop in Hs as [H0 Hs].
    apply Nat.eqb_eq in H0.
    cbn [PyStr.split_from]. rewrite H0, (IH _ Hs), append_assoc, append_cons, append_nil_l. done.
Qed.

Lemma split_one_word (s : string) :
  PyStr.no_space s = true → s ≠ "" → PyStr.split s = [s].
Proof.
  intros Hs Hne. unfold PyStr.split. rewrite split_from_one_word by done.
  rewrite append_nil_l. destruct s; [done | reflexivity].
Qed.

Lemma prefix_append (a b : string) : String.prefix a (a +:+ b) = true.
Proof.
  induction a as [|c a IH]; [by destruct b |].
  rewrite append_cons. simpl. by destruct (Ascii.ascii_dec c c).
Qed.

(** ** [str.split()] on a text given by its words *)

Ltac bool_to_prop :=
  repeat match goal with
  | H : _ && _ = true |- _ => apply andb_prop in H as [? ?]
  | H : _ || _ = true |- _ => apply orb_prop in H as [?|?]
  | H : _ && _ = false |- _ => apply andb_false_iff in H as [?|?]
  | H : _ || _ = false |- _ => apply orb_false_elim in H as [? ?]
  | H : (_ =? _)%N = true |- _ => apply N.eqb_eq in H
  | H : (_ =? _)%N = false |- _ => apply N.eqb_neq in H
  | H : (_ <=? _)%N = true |- _ => apply N.leb_le in H
  | H : (_ <=? _)%N = false |- _ => apply N.leb_gt in H
  end.

Lemma is_whitespace_cases (c : string) :
  is_whitespace c = true → In c whitespace.
Proof.
  unfold is_whitespace. intros H. apply existsb_exists in H as (x & Hin & Hx).
  apply String.eqb_eq in Hx. by subst.
Qed.

Lemma whitespace_space_len (c : string) :
  is_whitespace c = true →
  ∃ a c', c = String a c' ∧ start_byte a = true
          ∧ ∀ rest, PyStr.space_len (c +:+ rest) = String.length c.
Proof.
  intros H. apply is_whitespace_cases in H.
  repeat (destruct H as [<- | H]; [eexists _, _; split_and!; [reflexivity | reflexivity | intros rest; reflexivity] |]).
  destruct H.
Qed.

Ltac case_if E :=
  match goal with
  | |- context [if ?c then _ else _] => destruct c eqn:E
  end.

Ltac pin_bytes :=
  repeat match goal with
  | H : N_of_ascii ?a = _ |- _ =>
      apply (f_equal ascii_of_N) in H; rewrite ascii_N_embedding in H;
      subst a
  end.

Lemma space_len_whitespace (s : string) :
  PyStr.space_len s ≠ 0%nat →
  ∃ c rest, is_whitespace c = true ∧ s = c +:+ rest.
Proof.
  destruct s as [|a r]; [done |]. unfold PyStr.space_len.
  case_if E1.
  { intros _. exists (String a ""), r.
    assert (N_of_ascii a = 9 ∨ N_of_ascii a = 10 ∨ N_of_ascii a = 11
            ∨ N_of_ascii a = 12 ∨ N_of_ascii a = 13 ∨ N_of_ascii a = 28
            ∨ N_of_ascii a = 29 ∨ N_of_ascii a = 30 ∨ N_of_ascii a = 31
            ∨ N_of_ascii a = 32)%N as H by (bool_to_prop; lia).
    clear E1.
    repeat (destruct H as [H | H]; [pin_bytes; split; reflexivity |]).
    pin_bytes; split; reflexivity. }
  destruct r as [|b r]; [intros; congruence |].
  case_if E2.
  { intros _. exists (String a (String b "")), r.
    assert (N_of_ascii a = 194 ∧ (N_of_ascii b = 133 ∨ N_of_ascii b = 160))%N
      as [Ha [Hb | Hb]] by (bool_to_prop; lia);
      clear E1 E2; pin_bytes; (split; reflexivity). }
  destruct r as [|c r]; [intros; congruence |].
  case_if E3; [|intros; congruence].
  intros _. exists (String a (String b (String c ""))), r.
  assert (N_of_ascii a = 225 ∧ N_of_ascii b = 154 ∧ N_of_ascii c = 128
          ∨ N_of_ascii a = 226 ∧ N_of_ascii b = 128
            ∧ (N_of_ascii c = 128 ∨ N_of_ascii c = 129 ∨ N_of_ascii c = 130
               ∨ N_of_ascii c = 131 ∨ N_of_ascii c = 132 ∨ N_of_ascii c = 133
               ∨ N_of_ascii c = 134 ∨ N_of_ascii c = 135 ∨ N_of_ascii c = 136
               ∨ N_of_ascii c = 137 ∨ N_of_ascii c = 138 ∨ N_of_ascii c = 168
               ∨ N_of_ascii c = 169 ∨ N_of_ascii c = 175)
          ∨ N_of_ascii a = 226 ∧ N_of_ascii b = 129 ∧ N_of_ascii c = 159
          ∨ N_of_ascii a = 227 ∧ N_of_ascii b = 128 ∧ N_of_ascii c = 128)%N
    as H by (bool_to_prop; lia).
  clear E1 E2 E3.
  destruct H as [(Ha & Hb & Hc) | [(Ha & Hb & Hc) | [(Ha & Hb & Hc) | (Ha & Hb & Hc)]]];
    [| repeat (destruct Hc as [Hc | Hc]; [pin_bytes; split; reflexivity |]) | |];
    pin_bytes; (split; reflexivity).
Qed.

Lemma spaceless_cons (a : ascii) (w : string) :
  spaceless (String a w) = true →
  PyStr.space_len (String a w) = 0%nat ∧ spaceless w = true.
Proof.
  unfold spaceless. rewrite !forallb_forall. intros H. split.
  - destruct (PyStr.space_len (String a w)) eqn:E; [done |].
    destruct (space_len_whitespace (String a w)) as (c & rest & Hc & Hs);
      [by rewrite E |].
    destruct c as [|x c]; [done |].
    apply is_whitespace_cases, H in Hc. rewrite Hs in Hc.
    rewrite append_cons in Hc. cbn [PyStr.contains] in Hc.
    rewrite <- append_cons, prefix_append in Hc. done.
  - intros c Hc. apply H in Hc. cbn [PyStr.contains] in Hc.
    by destruct (String.prefix c (String a w)), (PyStr.contains c w).
Qed.

Lemma spaceless_no_space (w : string) :
  spaceless w = true → PyStr.no_space w = true.
Proof.
  induction w as [|a w IH]; [done |]. intros H.
  apply spaceless_cons in H as [H0 Hw]. cbn [PyStr.no_space].
  by rewrite H0, (IH Hw).
Qed.

Lemma space_len_boundary (u rest : string) :
  u ≠ "" → PyStr.space_len u = 0%nat → at_boundary rest = true →
  PyStr.space_len (u +:+ rest) = 0%nat.
Proof.
  intros Hu H0 Hb.
  destruct u as [|a [|b [|c u]]]; [done | | |].
  - rewrite append_cons, append_nil_l. unfold PyStr.space_len in *.
    case_if E1; [done |].
    destruct rest as [|p [|q rest]]; [done | |].
    + unfold at_boundary, start_byte in Hb.
      case_if E2; [|done]. bool_to_prop; lia.
    + unfold at_boundary, start_byte in Hb.
      case_if E2; [bool_to_prop; lia |].
      case_if E3; [|done]. bool_to_prop; lia.
  - rewrite !append_cons, append_nil_l. unfold PyStr.space_len in *.
    case_if E1; [done |].
    case_if E2; [done |].
    destruct rest as [|p rest]; [done |].
    unfold at_boundary, start_byte in Hb.
    case_if E3; [|done]. bool_to_prop; lia.
  - exact H0.
Qed.

Lemma split_from_skip (x : string) :
  ∀ cur rest,
    PyStr.split_from (String.length x) cur (x +:+ rest)
    = PyStr.split_from 0 cur rest.
Proof.
  induction x as [|a x IH]; intros cur rest; [by destruct rest |].
  rewrite append_cons. apply IH.
Qed.

Lemma split_from_whitespace (c cur rest : string) :
  is_whitespace c = true →
  PyStr.split_from 0 cur (c +:+ rest)
  = PyStr.flush cur ++ PyStr.split_from 0 "" rest.
Proof.
  intros Hc.
  destruct (whitespace_space_len c Hc) as (a & c' & -> & _ & Hlen).
  specialize (Hlen rest). rewrite append_cons in *.
  cbn [PyStr.split_from]. rewrite Hlen. cbn [String.length].
  by rewrite split_from_skip.
Qed.

Lemma split_from_run (gap : list string) (cur rest : string) :
  forallb is_whitespace gap = true →
  PyStr.split_from 0 cur (join gap +:+ rest)
  = if PyStr.truthy (join gap)
    then PyStr.flush cur ++ PyStr.split_from 0 "" rest
    else PyStr.split_from 0 cur rest.
Proof.
  revert cur. induction gap as [|c gap IH]; intros cur Hgap; [done |].
  cbn [forallb] in Hgap. apply andb_prop in Hgap as [Hc Hgap].
  cbn [join foldr]. fold (join gap).
  rewrite append_assoc, (split_from_whitespace _ _ _ Hc), (IH _ Hgap).
  destruct (whitespace_space_len c Hc) as (a & c' & -> & _).
  rewrite append_cons. cbn [PyStr.truthy].
  by destruct (PyStr.truthy (join gap)).
Qed.

Lemma split_from_word (w : string) :
  ∀ cur rest,
    spaceless w = true → at_boundary rest = true →
    PyStr.split_from 0 cur (w +:+ rest) = PyStr.split_from 0 (cur +:+ w) rest.
Proof.
  induction w as [|a w IH]; intros cur rest Hw Hrest.
  - by rewrite append_nil_l, append_nil_r.
  - pose proof (spaceless_cons _ _ Hw) as [H0 Hw'].
    pose proof (space_len_boundary (String a w) rest) as Hb.
    rewrite append_cons in *. cbn [PyStr.split_from].
    rewrite Hb by done. rewrite (IH _ _ Hw' Hrest).
    by rewrite append_assoc, append_cons, append_nil_l.
Qed.

Lemma run_at_boundary (gap : list string) (rest : string) :
  forallb is_whitespace gap = true → PyStr.truthy (join gap) = true →
  at_boundary (join gap +:+ rest) = true.
Proof.
  destruct gap as [|c gap]; [done |]. intros Hgap _.
  cbn [forallb] in Hgap. apply andb_prop in Hgap as [Hc _].
  destruct (whitespace_space_len c Hc) as (a & c' & -> & Ha & _).
  cbn [join foldr]. by rewrite !append_cons.
Qed.

Lemma spaced_text_cons (gap : list string) (w : string)
    (items : list (list string * string)) (trail : list string) :
  spaced_text ((gap, w) :: items) trail
  = join gap +:+ (w +:+ spaced_text items trail).
Proof.
  unfold spaced_text. cbn [map join foldr fst snd].
  by rewrite !append_assoc.
Qed.

Lemma spaced_text_at_boundary (items : list (list string * string))
    (trail : list string) :
  forallb (fun item => forallb is_whitespace item.1 && is_word item.2) items
  = true →
  forallb (fun item => PyStr.truthy (join item.1)) items = true →
  forallb is_whitespace trail = true →
  at_boundary (spaced_text items trail) = true.
Proof.
  intros Hitems Hgaps Htrail. destruct items as [|[gap w] items].
  - unfold spaced_text. cbn [map join foldr]. rewrite append_nil_l.
    destruct (PyStr.truthy (join trail)) eqn:E.
    + rewrite <- (append_nil_r (join trail)). by apply run_at_boundary.
    + by destruct (join trail).
  - rewrite spaced_text_cons. cbn [forallb fst snd] in *.
    apply andb_prop in Hitems as [Hitem _], Hgaps as [Hgap _].
    apply andb_prop in Hitem as [Hgap' _]. by apply run_at_boundary.
Qed.

Lemma is_word_spaceless (w : string) :
  is_word w = true → PyStr.truthy w = true ∧ spaceless w = true.
Proof. unfold is_word. intros H. by apply andb_prop in H. Qed.

Lemma split_from_spaced_text (items : list (list string * string)) :
  ∀ (cur : string) (trail : list string),
    forallb (fun item => forallb is_whitespace item.1 && is_word item.2) items
    = true →
    forallb (fun item => PyStr.truthy (join item.1)) items = true →
    forallb is_whitespace trail = true →
    PyStr.split_from 0 cur (spaced_text items trail)
    = PyStr.flush cur ++ map snd items.
Proof.
  induction items as [|[gap w] items IH]; intros cur trail Hitems Hgaps Htrail.
  - unfold spaced_text. cbn [map join foldr]. rewrite append_nil_l.
    rewrite <- (append_nil_r (join trail)), split_from_run by done.
    rewrite app_nil_r. cbn [PyStr.split_from].
    rewrite app_nil_r. by destruct (PyStr.truthy (join trail)).
  - rewrite spaced_text_cons. cbn [forallb fst snd map] in *.
    apply andb_prop in Hitems as [Hitem Hitems], Hgaps as [Hgap Hgaps].
    apply andb_prop in Hitem as [Hgap' Hw].
    apply is_word_spaceless in Hw as [Hw Hclean].
    rewrite split_from_run, Hgap by done.
    rewrite split_from_word; [|done | by apply spaced_text_at_boundary].
    rewrite append_nil_l, IH by done. unfold PyStr.flush at 2. by rewrite Hw.
Qed.

(** [split] on a text given by its words returns these words. *)
Lemma split_spaced_text (items : list (list string * string))
    (trail : list string) :
  well_spaced items trail = true →
  PyStr.split (spaced_text items trail) = map snd items.
Proof.
  unfold well_spaced. intros H.
  apply andb_prop in H as [H Htrail]. apply andb_prop in H as [Hitems Hgaps].
  unfold PyStr.split. destruct items as [|[gap w] items].
  - by rewrite split_from_spaced_text.
  - rewrite spaced_text_cons. cbn [forallb fst snd map tail] in *.
    apply andb_prop in Hitems as [Hitem Hitems].
    apply andb_prop in Hitem as [Hgap' Hw].
    apply is_word_spaceless in Hw as [Hw Hclean].
    assert (PyStr.split_from 0 "" (join gap +:+ (w +:+ spaced_text items trail))
            = PyStr.split_from 0 "" (w +:+ spaced_text items trail)) as ->.
    { rewrite split_from_run by done. by destruct (PyStr.truthy (join gap)). }
    rewrite split_from_word; [|done | by apply spaced_text_at_boundary].
    rewrite append_nil_l, split_from_spaced_text by done.
    unfold PyStr.flush. by rewrite Hw.
Qed.

Lemma eqb_refl' (k : string) : String.eqb k k = true.
Proof. by apply String.eqb_eq. Qed.

(** ** Dictionaries *)

Section DictFacts.

Context {V : Type}.
Implicit Types (d : Dict.dict V) (k : string) (v : V).

Lemma dict_get_set_eq d k v : Dict.get (Dict.set d k v) k = Some v.
Proof.
  induction d as [|[k' v'] d IH]; simpl.
  - by rewrite eqb_refl'.
  - destruct (String.eqb k' k) eqn:E; simpl.
    + by rewrite eqb_refl'.
    + by rewrite E.
Qed.

Lemma dict_get_set_ne d k k' v :
  k ≠ k' → Dict.get (Dict.set d k v) k' = Dict.get d k'.
Proof.
  intros Hne. induction d as [|[k0 v0] d IH]; simpl.
  - destruct (String.eqb k k') eqn:E; [|done].
    apply String.eqb_eq in E. done.
  - destruct (String.eqb k0 k) eqn:E; simpl.
    + apply String.eqb_eq in E. subst k0.
      destruct (String.eqb k k') eqn:E'; [|done].
      apply String.eqb_eq in E'. done.
    + by rewrite IH.
Qed.

Lemma dict_get_In d k v : Dict.get d k = Some v → In (k, v) d.
Proof.
  induction d as [|[k0 v0] d IH]; simpl; [done |].
  destruct (String.eqb k0 k) eqn:E.
  - apply String.eqb_eq in E. intros [= ->]. left. by subst.
  - intros H. right. by apply IH.
Qed.

Lemma dict_get_None_keys d k : k ∉ Dict.keys d → Dict.get d k = None.
Proof.
  induction d as [|[k0 v0] d IH]; simpl; [done |].
  intros Hk. apply not_elem_of_cons in Hk as [Hne Hk].
  destruct (String.eqb k0 k) eqn:E; [|by apply IH].
  apply String.eqb_eq in E. done.
Qed.

Lemma dict_In_get d k v :
  NoDup (Dict.keys d) → In (k, v) d → Dict.get d k = Some v.
Proof.
  induction d as [|[k0 v0] d IH]; simpl; [done |].
  intros [Hk0 Hnd]%NoDup_cons [Heq | Hin].
  - injection Heq as -> ->. by rewrite eqb_refl'.
  - destruct (String.eqb k0 k) eqn:E; [|by apply IH].
    apply String.eqb_eq in E. subst k0. exfalso. apply Hk0.
    apply list_elem_of_In. apply (in_map fst) in Hin. exact Hin.
Qed.

Lemma dict_keys_set d k v :
  ∀ k', k' ∈ Dict.keys (Dict.set d k v) ↔ k' = k ∨ k' ∈ Dict.keys d.
Proof.
  induction d as [|[k0 v0] d IH]; intros k'; simpl.
  - rewrite list_elem_of_singleton. set_solver.
  - destruct (String.eqb k0 k) eqn:E; simpl.
    + apply String.eqb_eq in E. subst k0. set_solver.
    + rewrite !elem_of_cons, IH. tauto.
Qed.

Lemma dict_NoDup_set d k v :
  NoDup (Dict.keys d) → NoDup (Dict.keys (Dict.set d k v)).
Proof.
  induction d as [|[k0 v0] d IH]; simpl.
  - intros _. apply NoDup_singleton.
  - intros [Hk0 Hnd]%NoDup_cons.
    destruct (String.eqb k0 k) eqn:E; simpl.
    + apply String.eqb_eq in E. subst k0. by apply NoDup_cons.
    + apply NoDup_cons. split; [|by apply IH].
      rewrite dict_keys_set. intros [-> | Hin]; [|done].
      by rewrite eqb_refl' in E.
Qed.

Lemma dict_keys_del d k : ∀ k', k' ∈ Dict.keys (Dict.del d k) → k' ∈ Dict.keys d.
Proof.
  induction d as [|[k0 v0] d IH]; intros k'; simpl; [done |].
  destruct (String.eqb k0 k); simpl.
  - set_solver.
  - rewrite !elem_of_cons. intros [-> | Hin]; [by left | right; by apply IH].
Qed.

Lemma dict_NoDup_del d k :
  NoDup (Dict.keys d) → NoDup (Dict.keys (Dict.del d k)).
Proof.
  induction d as [|[k0 v0] d IH]; simpl; [done |].
  intros [Hk0 Hnd]%NoDup_cons.
  destruct (String.eqb k0 k); simpl; [done |].
  apply NoDup_cons. split; [|by apply IH].
  intros Hin. by apply dict_keys_del in Hin.
Qed.

Lemma dict_get_del d k k' :
  NoDup (Dict.keys d) →
  Dict.get (Dict.del d k) k' = if String.eqb k k' then None else Dict.get d k'.
Proof.
  induction d as [|[k0 v0] d IH]; simpl.
  - intros _. by destruct (String.eqb k k').
  - intros [Hk0 Hnd]%NoDup_cons.
    destruct (String.eqb k0 k) eqn:E; simpl.
    + apply String.eqb_eq in E. subst k0.
      destruct (String.eqb k k') eqn:E'; [|done].
      apply String.eqb_eq in E'. subst k'. by apply dict_get_None_keys.
    + destruct (String.eqb k0 k') eqn:E'; [|by apply IH].
      apply String.eqb_eq in E'. subst k'.
      destruct (String.eqb k k0) eqn:E''; [|done].
      apply String.eqb_eq in E''. subst k0. by rewrite eqb_refl' in E.
Qed.

Lemma dict_get_foldl_del (ks : list string) :
  ∀ d k, NoDup (Dict.keys d) →
    Dict.get (foldl Dict.del d ks) k
    = if bool_decide (k ∈ ks) then None else Dict.get d k.
Proof.
  induction ks as [|k0 ks IH]; intros d k Hnd; simpl; [done |].
  rewrite IH by by apply dict_NoDup_del.
  rewrite dict_get_del by done.
  destruct (String.eqb k0 k) eqn:E.
  - apply String.eqb_eq in E. subst k0.
    rewrite (bool_decide_true (k ∈ k :: ks)) by set_solver.
    by destruct (bool_decide (k ∈ ks)).
  - assert (k0 ≠ k) by (intros ->; by rewrite eqb_refl' in E).
    destruct (decide (k ∈ ks)) as [Hin | Hnin].
    + rewrite !bool_decide_true by set_solver. done.
    + rewrite !bool_decide_false by set_solver. done.
Qed.

End DictFacts.

(** ** Generation Gateway *)

Lemma parse_loop_columns (ps : list Part) :
  ∀ ts ims, parse_loop ps ts ims = (ts ++ text_column ps, ims ++ image_column ps).
Proof.
  induction ps as [|p ps IH]; intros ts ims; simpl.
  - by rewrite !app_nil_r.
  - destruct (truthy_text (text p)).
    + rewrite IH, <- !app_assoc. done.
    + destruct (inlineData p) as [[d|]|]; rewrite IH, <- ?app_assoc; done.
Qed.

Lemma text_column_valid (ps : list Part) :
  List.filter truthy_text (text_column ps) = map Some (texts_in_order ps).
Proof.
  induction ps as [|p ps IH]; [done |].
  unfold texts_in_order, part_text in *. simpl.
  rewrite List.filter_app, IH.
  destruct (truthy_text (text p)) eqn:E.
  - destruct (text p) as [t|]; [|done]. simpl in *. by rewrite E.
  - by destruct (inlineData p) as [[d|]|].
Qed.

Lemma image_column_valid (ps : list Part) :
  List.filter truthy_bytes (image_column ps)
  = map Some (List.filter nonempty_bytes (images_in_order ps)).
Proof.
  induction ps as [|p ps IH]; [done |].
  unfold images_in_order, part_image in *. simpl.
  rewrite List.filter_app, IH.
  destruct (truthy_text (text p)); [done |].
  destruct (inlineData p) as [[[|x d]|]|]; done.
Qed.

Lemma image_column_none (ps : list Part) :
  no_image (image_column ps)
  = match images_in_order ps with [] => true | _ :: _ => false end.
Proof.
  induction ps as [|p ps IH]; [done |].
  unfold images_in_order, part_image, no_image in *. simpl.
  rewrite forallb_app, IH.
  destruct (truthy_text (text p)); [done |].
  destruct (inlineData p) as [[d|]|]; done.
Qed.

Lemma text_column_none (ps : list Part) :
  some_text (text_column ps) = false → texts_in_order ps = [].
Proof.
  induction ps as [|p ps IH]; [done |].
  unfold texts_in_order, part_text, some_text in *. simpl.
  rewrite existsb_app. intros [H1 H2]%orb_false_elim.
  destruct (truthy_text (text p)) eqn:E.
  - destruct (text p); simpl in *; done.
  - by apply IH.
Qed.

Lemma generate_result_columns (c : Candidate) (rest : list Candidate) :
  let images := List.filter nonempty_bytes (images_in_order (parts c)) in
  let texts := texts_in_order (parts c) in
  let n := Nat.max (length images) (length texts) in
  generate_result {| candidates := c :: rest |}
  = match images_in_order (parts c) with
    | [] => ([], map Some texts)
    | _ :: _ => (pad n images, pad n texts)
    end.
Proof.
  intros images texts n. unfold generate_result. simpl.
  rewrite parse_loop_columns. simpl.
  rewrite image_column_none, text_column_valid, image_column_valid.
  fold texts. fold images.
  destruct (images_in_order (parts c)) eqn:E.
  - destruct (some_text (text_column (parts c))) eqn:T; [done |].
    apply text_column_none in T. unfold texts. by rewrite T.
  - unfold pad, n. by rewrite !length_map.
Qed.

(** C2 (as amended).  For a response with status 200, [_generate_image]
    returns the non-empty images of the image parts in the order of the
    response, and the texts of the text parts in the order of the response,
    each list followed by [None] up to their common length; without any
    image part it returns no image and the texts.  The position of an
    element is its rank among the elements of its kind, not the index of
    its part: for the parts [text "A"; image X; text "B"] the result is
    images [X; None] and texts ["A"; "B"]. *)
Theorem C2_generate_compacts_and_pads :
  (∀ (c : Candidate) (rest : list Candidate),
     let images := List.filter nonempty_bytes (images_in_order (parts c)) in
     let texts := texts_in_order (parts c) in
     let n := Nat.max (length images) (length texts) in
     _generate_image (ok_response c rest)
     = Return (match images_in_order (parts c) with
               | [] => ([], map Some texts)
               | _ :: _ => (pad n images, pad n texts)
               end)) ∧
  (∀ (x : byte) (X : bytes) (fr : string),
     _generate_image
       (ok_response
          {| finishReason := fr;
             parts := [text_part "A"; image_part (x :: X); text_part "B"] |} [])
     = Return ([Some (x :: X); None], [Some "A"; Some "B"])).
Proof.
  split.
  - intros c rest. unfold _generate_image, ok_response. simpl.
    f_equal. apply generate_result_columns.
  - intros x X fr. reflexivity.
Qed.

(** C2 fails as stated: for the parts [text "A"; image X; text "B"] the
    result is not images [None; X; None] with texts ["A"; None; "B"]. *)
Lemma C2_counterexample :
  _generate_image Sample.text_image_text
  ≠ Return ([None; Some Sample.png; None], [Some "A"; None; Some "B"]).
Proof. vm_compute. discriminate. Qed.

(** C4.  A timeout, a connection error or a TLS error raised by the request
    is not raised by [_generate_image] nor by [_edit_image]: they return an
    empty image list, respectively no image, with a non-empty text. *)
Theorem C4_transport_failure_is_returned
    (json_dumps : ApiResult → string) (e : exn) (input : image_input) :
  is_transport (exn_cls e) = true →
  input_list input ≠ [] →
  (∃ message : string,
     _generate_image (Raise e) = Return ([], [Some message])
     ∧ PyStr.truthy message = true) ∧
  (∃ message : string,
     _edit_image json_dumps input (Raise e) = Return (None, Some message)
     ∧ PyStr.truthy message = true).
Proof.
  intros Ht Hin. destruct e as [cls str]. split.
  - unfold _generate_image, generate_except. simpl.
    destruct cls; simpl in *; try discriminate; eexists; split;
      first [reflexivity | done].
  - unfold _edit_image. destruct (input_list input) as [|b l]; [done |].
    unfold edit_except. simpl.
    destruct cls; simpl in *; try discriminate; eexists; split;
      first [reflexivity | done].
Qed.

Lemma C4_witness :
  (∃ message : string,
     _generate_image Sample.timeout = Return ([], [Some message])
     ∧ PyStr.truthy message = true) ∧
  (∃ message : string,
     _edit_image Sample.json_dumps (OneImage Sample.png) Sample.timeout
     = Return (None, Some message)
     ∧ PyStr.truthy message = true).
Proof.
  apply (C4_transport_failure_is_returned Sample.json_dumps
           (Exn ReadTimeout "Read timed out.") (OneImage Sample.png)).
  - reflexivity.
  - discriminate.
Defined.

(** C9.  With a status code other than 200, [_generate_image] returns
    [([], [])] and [_edit_image] returns [(None, None)]: the results of a
    response with status 200 and no candidate. *)
Theorem C9_non_200_is_empty
    (json_dumps : ApiResult → string) (response : Response)
    (input : image_input) :
  status_code response ≠ 200 →
  let no_content :=
    Return {| status_code := 200; json := Return {| candidates := [] |} |} in
  _generate_image (Return response) = Return ([], [])
  ∧ _edit_image json_dumps input (Return response) = Return (None, None)
  ∧ _generate_image (Return response) = _generate_image no_content
  ∧ _edit_image json_dumps input (Return response)
    = _edit_image json_dumps input no_content.
Proof.
  intros Hs no_content.
  apply Z.eqb_neq in Hs.
  assert (Hg : _generate_image (Return response) = Return ([], [])).
  { unfold _generate_image. simpl. by rewrite Hs. }
  assert (He : _edit_image json_dumps input (Return response)
               = Return (None, None)).
  { unfold _edit_image. destruct (input_list input); [done |].
    simpl. by rewrite Hs. }
  repeat split; try done.
  rewrite He. unfold _edit_image, no_content.
  by destruct (input_list input).
Qed.

Lemma C9_witness :
  let response := {| status_code := 503; json := Raise (Exn OtherException "") |} in
  let no_content :=
    Return {| status_code := 200; json := Return {| candidates := [] |} |} in
  _generate_image (Return response) = Return ([], [])
  ∧ _edit_image Sample.json_dumps (OneImage Sample.png) (Return response)
    = Return (None, None)
  ∧ _generate_image (Return response) = _generate_image no_content
  ∧ _edit_image Sample.json_dumps (OneImage Sample.png) (Return response)
    = _edit_image Sample.json_dumps (OneImage Sample.png) no_content.
Proof.
  apply (C9_non_200_is_empty Sample.json_dumps
           {| status_code := 503; json := Raise (Exn OtherException "") |}
           (OneImage Sample.png)).
  simpl. lia.
Defined.

(** ** Conversation Store: list objects *)

Lemma turns_deref (self : GeminiImage) (key : string) (r : ref) :
  conversations self !! key = Some r → turns self key = deref self r.
Proof. intros H. unfold turns, history. by rewrite H. Qed.

Lemma getitem_spec (key : string) (self s1 : GeminiImage) (r : ref) :
  conversations_getitem key self = (s1, r) →
  conversations s1 !! key = Some r
  ∧ deref s1 r = turns self key
  ∧ conversation_timestamps s1 = conversation_timestamps self
  ∧ last_images s1 = last_images self
  ∧ image_cache s1 = image_cache self.
Proof.
  unfold conversations_getitem.
  destruct (conversations self !! key) as [r0|] eqn:E.
  - intros [= <- <-]. by rewrite (turns_deref _ _ _ E).
  - unfold new_list. intros [= <- <-]. simpl.
    unfold turns, history, deref. rewrite E. simpl.
    by rewrite !lookup_insert_eq.
Qed.

Lemma list_extend_deref (l : ref) (items : list Turn) (self : GeminiImage) :
  deref (list_extend l items self) l = deref self l ++ items.
Proof. unfold list_extend, deref at 1. simpl. by rewrite lookup_insert_eq. Qed.

Lemma list_extend_allocated (l : ref) (items : list Turn) (self : GeminiImage) :
  is_Some (objects (list_extend l items self) !! l).
Proof. unfold list_extend. simpl. rewrite lookup_insert_eq. eauto. Qed.

(** Binding the local name to a slice leaves the stored object as it is. *)
Lemma limit_history_spec (l l' : ref) (self s' : GeminiImage) :
  limit_history l self = (s', l') →
  is_Some (objects self !! l) →
  conversations s' = conversations self
  ∧ deref s' l = deref self l
  ∧ conversation_timestamps s' = conversation_timestamps self
  ∧ last_images s' = last_images self
  ∧ image_cache s' = image_cache self.
Proof.
  unfold limit_history, list_slice_last, new_list.
  destruct (10 <? length (deref self l))%nat.
  - intros [= <- <-] Hl. simpl. repeat split.
    unfold deref. simpl. rewrite lookup_insert_ne; [done |].
    intros Heq. apply elem_of_dom in Hl. rewrite <- Heq in Hl.
    by apply is_fresh in Hl.
  - by intros [= <- <-].
Qed.

Section HandlerFacts.

Variable save_dir : string.
Variable exit_commands : list string.
Variable json_dumps : ApiResult → string.
Variable uuid : nat → string.
Variable len : string → nat.
Variable str_take : nat → string → string.
Variable writable : string → bool.

Local Abbreviation generate_cmd :=
  (generate_command save_dir uuid len str_take writable).
Local Abbreviation edit_cmd :=
  (edit_command save_dir exit_commands json_dumps uuid len str_take writable).
Local Abbreviation continue_cmd :=
  (continue_command save_dir json_dumps uuid len str_take writable).

(** What the three stores hold for [key] after a generate command that
    saved at least one image: both [extend]s reach the stored list, and
    nothing is cut from it. *)
Lemma generate_command_success (key prompt : string) (post : py Response)
    (now : Z) (self : GeminiImage)
    (image_datas : list (option bytes)) (text_responses : list (option string))
    (p : string) (ps : list string) :
  _generate_image post = Return (image_datas, text_responses) →
  save_images save_dir uuid writable (clean_texts_of len str_take text_responses)
              now 0 image_datas [] = Some (p :: ps) →
  let s' := generate_cmd key prompt post now self in
  turns s' key
  = turns self key ++ user_messages_of prompt
    ++ assistant_messages_of (p :: ps) text_responses
  ∧ last_images s' = <[key := PathList (p :: ps)]> (last_images self)
  ∧ conversation_timestamps s'
    = <[key := now]> (conversation_timestamps self)
  ∧ image_cache s' = image_cache self.
Proof.
  intros Hgen Hsave s'. subst s'. unfold generate_command.
  destruct (conversations_getitem key self) as [s1 r] eqn:Hget.
  apply getitem_spec in Hget as (Hr & Hd & Hts & Hli & Hic).
  rewrite Hgen.
  destruct image_datas as [|i image_datas]; [done |].
  rewrite Hsave.
  set (s2 := with_last_images _ s1).
  set (s3 := list_extend r (user_messages_of prompt) s2).
  set (s4 := list_extend r _ s3).
  destruct (limit_history r s4) as [s5 r'] eqn:Hlim.
  apply limit_history_spec in Hlim as (Hc5 & Hd5 & Hts5 & Hli5 & Hic5);
    [|apply list_extend_allocated].
  repeat split.
  - rewrite (turns_deref _ _ r); [|simpl; by rewrite Hc5].
    change (deref s5 r = turns self key ++ user_messages_of prompt
                         ++ assistant_messages_of (p :: ps) text_responses).
    rewrite Hd5. unfold s4, s3. rewrite !list_extend_deref.
    change (deref s2 r) with (deref s1 r). by rewrite Hd, <- app_assoc.
  - simpl. rewrite Hli5. simpl. by rewrite Hli.
  - simpl. rewrite Hts5. simpl. by rewrite Hts.
  - simpl. rewrite Hic5. simpl. by rewrite Hic.
Qed.

Lemma save_images_length (clean_texts : list string) (now : Z)
    (image_datas : list (option bytes)) :
  ∀ (i : nat) (image_paths saved : list string),
    save_images save_dir uuid writable clean_texts now i image_datas
      image_paths = Some saved →
    length saved
    = (length image_paths + length (List.filter is_not_None image_datas))%nat.
Proof.
  induction image_datas as [|[d|] image_datas IH]; intros i image_paths saved;
    simpl.
  - intros [= <-]. lia.
  - destruct (writable _); [|done]. intros E. apply IH in E.
    rewrite length_app in E. simpl in E. lia.
  - apply IH.
Qed.

(** Where every write succeeds, the loop saves a list of paths. *)
Lemma save_images_writable (clean_texts : list string) (now : Z)
    (image_datas : list (option bytes)) :
  (∀ path, writable path = true) →
  ∀ (i : nat) (image_paths : list string),
    is_Some (save_images save_dir uuid writable clean_texts now i image_datas
               image_paths).
Proof.
  intros Hw.
  induction image_datas as [|[d|] image_datas IH]; intros i image_paths;
    simpl; [eauto | rewrite Hw; apply IH | apply IH].
Qed.

Lemma save_images_some (clean_texts : list string) (now : Z)
    (image_datas : list (option bytes)) (saved : list string) :
  existsb is_not_None image_datas = true →
  save_images save_dir uuid writable clean_texts now 0 image_datas []
  = Some saved →
  ∃ p ps, saved = p :: ps.
Proof.
  intros Hex E.
  destruct saved as [|p ps]; [|eauto].
  apply save_images_length in E. simpl in E.
  apply existsb_exists in Hex as (x & Hin & Hx).
  assert (Hf : In x (List.filter is_not_None image_datas))
    by (apply filter_In; done).
  destruct (List.filter is_not_None image_datas); [done | simpl in E; lia].
Qed.

(** A generate command one of whose writes raises records nothing. *)
Lemma generate_command_unsaved (key prompt : string) (post : py Response)
    (now : Z) (self : GeminiImage)
    (image_datas : list (option bytes)) (text_responses : list (option string)) :
  _generate_image post = Return (image_datas, text_responses) →
  save_images save_dir uuid writable (clean_texts_of len str_take text_responses)
              now 0 image_datas [] = None →
  generate_cmd key prompt post now self = (conversations_getitem key self).1.
Proof.
  intros Hgen Hsave. unfold generate_command.
  destruct (conversations_getitem key self) as [s1 r]. rewrite Hgen.
  destruct image_datas as [|i image_datas]; [done |]. by rewrite Hsave.
Qed.

Lemma assistant_messages_model (image_paths : list string)
    (text_responses : list (option string)) :
  Forall (fun t => role t = model)
         (assistant_messages_of image_paths text_responses).
Proof.
  unfold assistant_messages_of. apply Forall_lookup. intros i t Ht.
  rewrite list_lookup_imap in Ht.
  destruct (image_paths !! i); simpl in Ht; [|done].
  by injection Ht as <-.
Qed.

(** An exception of the request that derives from [Exception] never leaves
    the gateway, and the result holds no image; any other exception is
    raised again. *)
Lemma generate_image_raise (e : exn) :
  match _generate_image (Raise e) with
  | Return (image_datas, _) =>
      image_datas = [] ∧ is_Exception (exn_cls e) = true
  | Raise e' => e' = e ∧ is_Exception (exn_cls e) = false
  end.
Proof.
  unfold _generate_image, generate_except. simpl.
  destruct (is_Exception (exn_cls e)); [|done].
  destruct (bool_decide (exn_cls e = SSLError)),
    (is_ConnectionError (exn_cls e)), (is_Timeout (exn_cls e)); done.
Qed.

Lemma edit_image_raise (input : image_input) (e : exn) :
  match _edit_image json_dumps input (Raise e) with
  | Return (result_image, _) => result_image = None
  | Raise e' => e' = e ∧ is_Exception (exn_cls e) = false
  end.
Proof.
  unfold _edit_image, edit_except. destruct (input_list input); [done |].
  simpl. destruct (is_Exception (exn_cls e)); [|done].
  destruct (bool_decide (exn_cls e = SSLError)),
    (is_ConnectionError (exn_cls e)), (is_Timeout (exn_cls e)); done.
Qed.

Lemma getitem_turns (key : string) (self : GeminiImage) :
  let s1 := (conversations_getitem key self).1 in
  turns s1 key = turns self key
  ∧ conversation_timestamps s1 = conversation_timestamps self
  ∧ last_images s1 = last_images self
  ∧ image_cache s1 = image_cache self.
Proof.
  destruct (conversations_getitem key self) as [s1 r] eqn:E. simpl.
  apply getitem_spec in E as (Hr & Hd & Hts & Hli & Hic).
  by rewrite (turns_deref _ _ _ Hr).
Qed.

Lemma generate_command_raise (key prompt : string) (e : exn) (now : Z)
    (self : GeminiImage) :
  generate_cmd key prompt (Raise e) now self
  = (conversations_getitem key self).1.
Proof.
  unfold generate_command.
  destruct (conversations_getitem key self) as [s1 r].
  pose proof (generate_image_raise e) as H.
  destruct (_generate_image (Raise e)) as [[image_datas texts]|e']; [|done].
  by destruct H as [-> _].
Qed.

Lemma edit_command_raise (key prompt : string) (e : exn) (now : Z)
    (self : GeminiImage) :
  edit_cmd key prompt (Raise e) now self
  = match _get_recent_image self key now with
    | Some (_ :: _) =>
        (conversations_getitem key
           (with_last_images
              (insert key (OnePath (image_file save_dir uuid "temp" now 0 "")))
              self)).1
    | _ => self
    end.
Proof.
  unfold edit_command.
  destruct (_get_recent_image self key now) as [[|b image_data]|]; try done.
  destruct (conversations_getitem key _) as [s1 r].
  pose proof (edit_image_raise (OneImage (b :: image_data)) e) as H.
  destruct (_edit_image _ _ (Raise e)) as [[result_image t]|e']; [|done].
  by rewrite H.
Qed.

Lemma continue_command_raise (key content : string) (e : exn) (now : Z)
    (disk : gmap string bytes) (self : GeminiImage) :
  continue_cmd key content (Raise e) now disk self = self
  ∨ continue_cmd key content (Raise e) now disk self
    = (conversations_getitem key self).1.
Proof.
  unfold continue_command.
  destruct (last_image_path_of disk (last_images self !! key)) as [p|];
    [|by left].
  destruct (if PyStr.truthy p then disk !! p else None) as [image_data|];
    [|by left].
  destruct (conversations_getitem key self) as [s1 r].
  pose proof (edit_image_raise (OneImage image_data) e) as H.
  destruct (_edit_image _ _ (Raise e)) as [[result_image t]|e']; [|by right].
  rewrite H. by right.
Qed.

Lemma record_edit_spec (key prompt : string) (r : ref)
    (image_path new_image_path : string) (text_response : option string)
    (now : Z) (self : GeminiImage) :
  conversations self !! key = Some r →
  let s' := record_edit key prompt r image_path new_image_path text_response
              now self in
  turns s' key
  = deref self r
    ++ [{| role := user;
           turn_parts := [PartText prompt; PartImageUrl image_path] |};
        {| role := model;
           turn_parts := [PartText (text_or "我已编辑了图片" text_response);
                          PartImageUrl new_image_path] |}]
  ∧ last_images s' = <[key := OnePath new_image_path]> (last_images self)
  ∧ conversation_timestamps s' = <[key := now]> (conversation_timestamps self)
  ∧ image_cache s' = image_cache self.
Proof.
  intros Hr s'. unfold s', record_edit.
  set (s1 := with_last_images _ self).
  set (u := {| role := user; turn_parts := _ |}).
  set (m := {| role := model; turn_parts := _ |}).
  set (s2 := list_extend r [u] s1).
  set (s3 := list_extend r [m] s2).
  destruct (limit_history r s3) as [s4 r'] eqn:Hlim.
  apply limit_history_spec in Hlim as (Hc & Hd & Hts & Hli & Hic);
    [|apply list_extend_allocated].
  split_and!.
  - rewrite (turns_deref _ _ r); [|simpl; by rewrite Hc].
    change (deref s4 r = deref self r ++ [u; m]).
    rewrite Hd. unfold s3, s2. rewrite !list_extend_deref.
    change (deref s1 r) with (deref self r). by rewrite <- app_assoc.
  - simpl. by rewrite Hli.
  - simpl. by rewrite Hts.
  - simpl. by rewrite Hic.
Qed.

(** What the stores hold for [key] after an edit command that found an
    image in the inbox cache, obtained an edited image, built its reply
    text and wrote the edited file. *)
Lemma edit_command_success (key prompt : string) (post : py Response)
    (now : Z) (self : GeminiImage) (image_data : bytes)
    (result_image : option bytes) (text_response : option string)
    (reply_text : string) :
  _get_recent_image self key now = Some image_data →
  image_data ≠ [] →
  _edit_image json_dumps (OneImage image_data) post
  = Return (result_image, text_response) →
  truthy_bytes result_image = true →
  edit_reply_text exit_commands text_response
    (length (turns self key) <=? 2)%nat
  = Some reply_text →
  let temp := image_file save_dir uuid "temp" now 0 "" in
  let edited :=
    image_file save_dir uuid "edited" now 1
      ("_" +:+ shorten len str_take (sanitize reply_text)) in
  writable edited = true →
  let s' := edit_cmd key prompt post now self in
  turns s' key
  = turns self key
    ++ [{| role := user;
           turn_parts := [PartText prompt; PartImageUrl temp] |};
        {| role := model;
           turn_parts := [PartText (text_or "我已编辑了图片" text_response);
                          PartImageUrl edited] |}]
  ∧ last_images s'
    = <[key := OnePath edited]> (<[key := OnePath temp]> (last_images self))
  ∧ conversation_timestamps s'
    = <[key := now]> (conversation_timestamps self)
  ∧ image_cache s' = image_cache self.
Proof.
  intros Hinbox Hne Hedit Hres Hreply temp edited Hw s'.
  unfold s', edit_command. rewrite Hinbox.
  destruct image_data as [|b bs]; [done |]. fold temp.
  set (s0 := with_last_images _ self).
  destruct (conversations_getitem key s0) as [s1 r] eqn:Hget.
  apply getitem_spec in Hget as (Hr & Hd & Hts & Hli & Hic).
  change (turns s0 key) with (turns self key) in Hd.
  rewrite Hedit, Hres, Hd, Hreply. fold edited. rewrite Hw.
  destruct (record_edit_spec key prompt r temp edited text_response now s1 Hr)
    as (Ht & Hl & Hs & Hi).
  rewrite Ht, Hl, Hs, Hi, Hd, Hli, Hts, Hic. done.
Qed.

End HandlerFacts.

(** ** Conversation Store: what a command leaves in the history *)

Section HistoryClaims.

Variable save_dir : string.
Variable exit_commands : list string.
Variable json_dumps : ApiResult → string.
Variable uuid : nat → string.
Variable len : string → nat.
Variable str_take : nat → string → string.
Variable writable : string → bool.

(** C10.  A generate command whose images are all written, at least one
    of them, appends to the history stored for the key one user turn for
    each word of the prompt, in order, holding that word as its only part,
    and then one model turn for each saved image.  The prompt is given by
    its words: any runs of the whitespace characters of [str.isspace()]
    before, between and after them, at least one character between two
    words.  A prompt of one word gives one user turn. *)
Theorem C10_one_user_turn_per_word (key : string)
    (items : list (list string * string)) (trail : list string)
    (post : py Response) (now : Z) (self : GeminiImage)
    (image_datas : list (option bytes))
    (text_responses : list (option string)) (image_paths : list string) :
  well_spaced items trail = true →
  _generate_image post = Return (image_datas, text_responses) →
  save_images save_dir uuid writable
    (clean_texts_of len str_take text_responses) now 0 image_datas []
  = Some image_paths →
  image_paths ≠ [] →
  let prompt := spaced_text items trail in
  let s' :=
    generate_command save_dir uuid len str_take writable key prompt post now
      self in
  let user_turns :=
    map (fun word => {| role := user; turn_parts := [PartText word] |})
        (map snd items) in
  let model_turns := assistant_messages_of image_paths text_responses in
  turns s' key = turns self key ++ user_turns ++ model_turns
  ∧ length user_turns = length items
  ∧ length model_turns = length image_paths
  ∧ Forall (fun t => role t = model) model_turns.
Proof.
  intros Hwords Hgen Hsave Hne prompt s' user_turns model_turns.
  destruct image_paths as [|p ps]; [done |].
  destruct (generate_command_success save_dir uuid len str_take writable key
              prompt post now self image_datas text_responses p ps Hgen Hsave)
    as (Hturns & _).
  split_and!.
  - fold s' in Hturns. rewrite Hturns. unfold user_messages_of, prompt.
    by rewrite split_spaced_text.
  - unfold user_turns. by rewrite !length_map.
  - unfold model_turns, assistant_messages_of. by rewrite length_imap.
  - apply assistant_messages_model.
Qed.

(** C3 (as amended).  When the request raises a timeout, a connection error
    or a TLS error, no command appends a turn to the history of the key or
    writes its time stamp.  The generate command and the implicit
    continuation leave [last_images] as it was; the edit command, which
    reaches the gateway only with an image from the inbox cache, has by
    then set [last_images[key]] to the saved copy of that image. *)
Theorem C3_state_after_transport_failure (key prompt : string) (e : exn)
    (now : Z) (disk : gmap string bytes) (self : GeminiImage) :
  is_transport (exn_cls e) = true →
  let g := generate_command save_dir uuid len str_take writable key prompt (Raise e)
             now self in
  let c := continue_command save_dir json_dumps uuid len str_take writable key prompt
             (Raise e) now disk self in
  let ed := edit_command save_dir exit_commands json_dumps uuid len str_take writable
              key prompt (Raise e) now self in
  (turns g key = turns self key
   ∧ conversation_timestamps g = conversation_timestamps self
   ∧ last_images g = last_images self)
  ∧ (turns c key = turns self key
     ∧ conversation_timestamps c = conversation_timestamps self
     ∧ last_images c = last_images self)
  ∧ (turns ed key = turns self key
     ∧ conversation_timestamps ed = conversation_timestamps self
     ∧ last_images ed
       = match _get_recent_image self key now with
         | Some (_ :: _) =>
             <[key := OnePath (image_file save_dir uuid "temp" now 0 "")]>
               (last_images self)
         | _ => last_images self
         end).
Proof.
  intros _ g c ed. split; [|split].
  - unfold g. rewrite generate_command_raise.
    destruct (getitem_turns key self) as (? & ? & ? & ?). done.
  - unfold c.
    destruct (continue_command_raise save_dir json_dumps uuid len str_take writable
                key prompt e now disk self) as [-> | ->]; [done |].
    destruct (getitem_turns key self) as (? & ? & ? & ?). done.
  - unfold ed. rewrite edit_command_raise.
    destruct (_get_recent_image self key now) as [[|b image_data]|]; try done.
    set (s1 := with_last_images _ self).
    destruct (getitem_turns key s1) as (Ht & Hts & Hli & _).
    rewrite Ht, Hts, Hli. done.
Qed.

End HistoryClaims.

Lemma C10_witness :
  let items :=
    [([], "a"); ([" "], "cat");
     ([utf8 [9%N]; utf8 [227; 128; 128]%N], "mat")] in
  let s' := generate_command Sample.save_dir Sample.uuid String.length
              PyStr.take Sample.writable "u" (spaced_text items [" "])
              Sample.one_image 0 init in
  turns s' "u"
  = [ {| role := user; turn_parts := [PartText "a"] |};
      {| role := user; turn_parts := [PartText "cat"] |};
      {| role := user; turn_parts := [PartText "mat"] |};
      {| role := model;
         turn_parts :=
           [PartText "我已生成了图片";
            PartImageUrl "temp/gemini_0_00000000_generated_image.png"] |} ].
Proof.
  pose proof (C10_one_user_turn_per_word Sample.save_dir Sample.uuid
                String.length PyStr.take Sample.writable "u"
                [([], "a"); ([" "], "cat");
                 ([utf8 [9%N]; utf8 [227; 128; 128]%N], "mat")] [" "]
                Sample.one_image 0 init [Some Sample.png] [None]
                ["temp/gemini_0_00000000_generated_image.png"]) as H.
  simpl in H. apply H; [vm_compute; reflexivity | reflexivity | reflexivity
                        | discriminate].
Defined.

Lemma C3_witness :
  let e := Exn ReadTimeout "Read timed out." in
  let g := generate_command Sample.save_dir Sample.uuid String.length
             PyStr.take Sample.writable "u" "a cat" (Raise e) 10 init in
  let c := continue_command Sample.save_dir Sample.json_dumps Sample.uuid
             String.length PyStr.take Sample.writable "u" "a cat" (Raise e) 10 ∅ init in
  let ed := edit_command Sample.save_dir Sample.exit_commands
              Sample.json_dumps Sample.uuid String.length PyStr.take Sample.writable
              "u" "a cat" (Raise e) 10 init in
  (turns g "u" = turns init "u"
   ∧ conversation_timestamps g = conversation_timestamps init
   ∧ last_images g = last_images init)
  ∧ (turns c "u" = turns init "u"
     ∧ conversation_timestamps c = conversation_timestamps init
     ∧ last_images c = last_images init)
  ∧ (turns ed "u" = turns init "u"
     ∧ conversation_timestamps ed = conversation_timestamps init
     ∧ last_images ed
       = match _get_recent_image init "u" 10 with
         | Some (_ :: _) =>
             <["u" := OnePath (image_file Sample.save_dir Sample.uuid
                                  "temp" 10 0 "")]>
               (last_images init)
         | _ => last_images init
         end).
Proof.
  apply (C3_state_after_transport_failure Sample.save_dir Sample.exit_commands
           Sample.json_dumps Sample.uuid String.length PyStr.take Sample.writable
           "u" "a cat" (Exn ReadTimeout "Read timed out.") 10 ∅ init).
  reflexivity.
Defined.

(** C3 fails as stated: user [u] sends an image at time 100 and an edit
    command at time 110 whose request times out; [last_images] holds no
    entry for [u] before the command and one after it. *)
Lemma C3_counterexample :
  let s0 := Sample.handle Sample.direct (ImageMessage [Sample.photo])
              Sample.one_image 100 init in
  let s1 := Sample.handle Sample.direct (EditCommand "make it blue")
              Sample.timeout 110 s0 in
  last_images s0 !! "u" = None
  ∧ last_images s1 !! "u" = Some (OnePath "temp/temp_110_00000000.png")
  ∧ last_images s1 !! "u" ≠ last_images s0 !! "u".
Proof. vm_compute. repeat split; discriminate. Qed.

(** C1 fails on the code: six generate commands of user [u] with the prompt
    [cat], each answered with one image, leave twelve turns in the history
    stored for [u]. *)
Theorem C1_stored_history_exceeds_cap :
  let step := Sample.handle Sample.direct (GenerateCommand "cat")
                Sample.one_image 0 in
  length (turns (Nat.iter 6 step init) "u") = 12%nat.
Proof. vm_compute. reflexivity. Qed.

(** ** Image Inbox Cache *)

Lemma first_fresh_stale (cache : Dict.dict CacheEntry) (now : Z)
    (wanted : string → bool) (ks : list string) :
  (∀ k, cache_fresh (Dict.get cache k) now = false) →
  first_fresh cache now wanted ks = None.
Proof.
  intros Hstale. induction ks as [|k ks IH]; simpl; [done |].
  by rewrite Hstale, andb_false_r.
Qed.

Lemma get_recent_image_stale (self : GeminiImage) (key : string) (now : Z) :
  (∀ k, cache_fresh (Dict.get (image_cache self) k) now = false) →
  _get_recent_image self key now = None.
Proof.
  intros Hstale. unfold _get_recent_image.
  rewrite Hstale, !first_fresh_stale by done.
  by destruct (PyStr.contains "_" key).
Qed.

Lemma get_recent_image_fresh (self : GeminiImage) (key : string) (now : Z)
    (e : CacheEntry) :
  Dict.get (image_cache self) key = Some e →
  now - timestamp e ≤ image_cache_timeout →
  _get_recent_image self key now = head (content e).
Proof.
  intros Hget Hfresh. unfold _get_recent_image. rewrite Hget. simpl.
  by rewrite bool_decide_true.
Qed.

Lemma expired_keys_spec (d : Dict.dict CacheEntry) (now : Z) (k : string) :
  k ∈ map fst
        (List.filter
           (fun kv => bool_decide (now - timestamp (snd kv) > image_cache_timeout))
           d)
  ↔ ∃ e, In (k, e) d ∧ now - timestamp e > image_cache_timeout.
Proof.
  rewrite list_elem_of_In, in_map_iff. split.
  - intros ([k' e] & <- & [Hin Hb]%filter_In). simpl in *.
    apply bool_decide_eq_true in Hb. eauto.
  - intros (e & Hin & He). exists (k, e). split; [done |].
    apply filter_In. split; [done |]. simpl. by apply bool_decide_eq_true.
Qed.

Lemma cleanup_image_cache_get (now : Z) (self : GeminiImage) (k : string) :
  NoDup (Dict.keys (image_cache self)) →
  Dict.get (image_cache (_cleanup_image_cache now self)) k
  = match Dict.get (image_cache self) k with
    | Some e =>
        if bool_decide (now - timestamp e > image_cache_timeout)
        then None else Some e
    | None => None
    end.
Proof.
  intros Hnd. unfold _cleanup_image_cache. simpl.
  rewrite dict_get_foldl_del by done.
  destruct (Dict.get (image_cache self) k) as [e|] eqn:Hget.
  - destruct (decide (now - timestamp e > image_cache_timeout)) as [He | He].
    + rewrite (bool_decide_true _ He). rewrite bool_decide_true; [done |].
      apply expired_keys_spec. exists e. split; [by apply dict_get_In | done].
    + rewrite (bool_decide_false _ He). rewrite bool_decide_false; [done |].
      intros (e' & Hin & He')%expired_keys_spec.
      apply dict_In_get in Hin; [|done]. congruence.
  - by destruct (bool_decide _).
Qed.

Lemma handle_image_message_cached (hash : string → Z)
    (decodable : bytes → bool) (context : Context) (image_datas : list bytes)
    (now : Z) (self : GeminiImage) :
  image_datas ≠ [] →
  forallb (fun image_data => (100 <? length image_data)%nat) image_datas = true →
  forallb decodable image_datas = true →
  image_cache (_handle_image_message hash decodable context image_datas now self)
  = Dict.set (image_cache self) (cache_key hash context)
      {| content := image_datas; timestamp := now |}.
Proof.
  intros Hne Hsize Hdec. unfold _handle_image_message.
  destruct image_datas as [|b l]; [done |].
  by rewrite Hsize, Hdec.
Qed.

Lemma first_fresh_find (cache : Dict.dict CacheEntry) (now : Z)
    (wanted : string → bool) (ks : list string) :
  first_fresh cache now wanted ks
  = match List.find (fun k => cache_fresh (Dict.get cache k) now)
                    (List.filter wanted ks) with
    | Some k => Some (first_content (Dict.get cache k))
    | None => None
    end.
Proof.
  induction ks as [|k ks IH]; [done |]. cbn [first_fresh List.filter].
  destruct (wanted k); cbn [andb]; [|exact IH].
  cbn [List.find]. by destruct (cache_fresh (Dict.get cache k) now).
Qed.

Lemma find_app {A} (f : A → bool) (l1 l2 : list A) :
  List.find f (l1 ++ l2)
  = match List.find f l1 with
    | Some x => Some x
    | None => List.find f l2
    end.
Proof.
  induction l1 as [|x l1 IH]; [done |]. simpl. by destruct (f x).
Qed.

Lemma filter_all {A} (l : list A) : List.filter (fun _ => true) l = l.
Proof. induction l as [|x l IH]; [done |]. simpl. by rewrite IH. Qed.

(** [_get_recent_image] returns the first buffer of the entry of its key
    when that entry is fresh, and otherwise the first buffer of the first
    fresh entry along the fallback chain. *)
Lemma get_recent_image_chain (self : GeminiImage) (key : string) (now : Z) :
  _get_recent_image self key now
  = if cache_fresh (Dict.get (image_cache self) key) now
    then first_content (Dict.get (image_cache self) key)
    else match first_fresh_fallback self key now with
         | Some k => first_content (Dict.get (image_cache self) k)
         | None => None
         end.
Proof.
  unfold _get_recent_image, first_fresh_fallback, fallback_keys.
  destruct (cache_fresh (Dict.get (image_cache self) key) now); [done |].
  rewrite !first_fresh_find, !filter_all, !find_app.
  destruct (List.find _ (match current_context self with _ => _ end));
    [done |].
  destruct (List.find _ (List.filter _ (Dict.keys (image_cache self))));
    [done |].
  destruct (PyStr.contains "_" key); [|done].
  by destruct (List.find _ (split_on "_" "" key)).
Qed.

(** C5 (as amended).  A valid image message writes its images into the
    inbox cache under its key with the time [T] of the message.  As long as
    that entry is in the cache, a get on its key returns its first buffer
    at every time up to and including [T + 300], also after a sweep at that
    time.  Strictly after [T + 300] the entry is not fresh any more and a
    sweep removes it; a get on its key then returns nothing, unless the
    fallback chain of the lookup reaches a fresh entry under another key,
    whose first buffer it returns. *)
Theorem C5_inbox_entry_lifetime (hash : string → Z) (decodable : bytes → bool)
    (context : Context) (image_datas : list bytes) (T : Z)
    (self : GeminiImage) :
  image_datas ≠ [] →
  forallb (fun image_data => (100 <? length image_data)%nat) image_datas = true →
  forallb decodable image_datas = true →
  let key := cache_key hash context in
  let entry := {| content := image_datas; timestamp := T |} in
  let s' := _handle_image_message hash decodable context image_datas T self in
  is_Some (head image_datas)
  ∧ Dict.get (image_cache s') key = Some entry
  ∧ ∀ (s : GeminiImage) (now : Z),
      Dict.get (image_cache s) key = Some entry →
      NoDup (Dict.keys (image_cache s)) →
      (now ≤ T + 300 →
       _get_recent_image s key now = head image_datas
       ∧ _get_recent_image (_cleanup_image_cache now s) key now
         = head image_datas)
      ∧ (T + 300 < now →
         cache_fresh (Dict.get (image_cache s) key) now = false
         ∧ Dict.get (image_cache (_cleanup_image_cache now s)) key = None
         ∧ match first_fresh_fallback s key now with
           | Some k =>
               k ≠ key
               ∧ k ∈ fallback_keys s key
               ∧ cache_fresh (Dict.get (image_cache s) k) now = true
               ∧ _get_recent_image s key now
                 = first_content (Dict.get (image_cache s) k)
           | None => _get_recent_image s key now = None
           end).
Proof.
  intros Hne Hsize Hdec key entry s'.
  pose proof (handle_image_message_cached hash decodable context image_datas
                T self Hne Hsize Hdec) as Hcache.
  fold key in Hcache. fold s' in Hcache. fold entry in Hcache.
  split_and!.
  - destruct image_datas; [done | eauto].
  - rewrite Hcache. apply dict_get_set_eq.
  - intros s now Hget Hnd. split.
    + intros Hnow. split.
      * rewrite (get_recent_image_fresh s key now entry Hget); [done |].
        unfold image_cache_timeout. simpl. lia.
      * rewrite (get_recent_image_fresh _ key now entry); [done | |].
        -- rewrite cleanup_image_cache_get, Hget by done.
           rewrite bool_decide_false; [done |].
           unfold image_cache_timeout. simpl. lia.
        -- unfold image_cache_timeout. simpl. lia.
    + intros Hnow.
      assert (Hstale : cache_fresh (Dict.get (image_cache s) key) now = false).
      { rewrite Hget. simpl. apply bool_decide_eq_false.
        unfold image_cache_timeout. lia. }
      split_and!; [done | |].
      * rewrite cleanup_image_cache_get, Hget by done.
        rewrite bool_decide_true; [done |].
        unfold image_cache_timeout. simpl. lia.
      * rewrite get_recent_image_chain, Hstale.
        destruct (first_fresh_fallback s key now) as [k|] eqn:Hk; [|done].
        unfold first_fresh_fallback in Hk. apply find_some in Hk as [Hin Hk].
        split_and!; [congruence | by apply list_elem_of_In | done | done].
Qed.

Lemma C5_witness :
  let s' := _handle_image_message Sample.hash Sample.decodable Sample.direct
              [Sample.photo] 1000 init in
  let bob := {| session_id := "bob"; isgroup := false;
                msg := Some {| actual_user_id := Some "bob";
                               from_user_id := None; sender_id := None;
                               sender_wxid := None;
                               self_display_name := None |} |} in
  let later := _handle_image_message Sample.hash Sample.decodable bob
                 [Sample.photo] 1200 s' in
  _get_recent_image later "u" 1300 = Some Sample.photo
  ∧ _get_recent_image (_cleanup_image_cache 1300 later) "u" 1300
    = Some Sample.photo
  ∧ _get_recent_image later "u" 1301 = None
  ∧ Dict.get (image_cache (_cleanup_image_cache 1301 later)) "u" = None
  ∧ cache_fresh (Dict.get (image_cache later) "bob") 1301 = true.
Proof.
  intros s' bob later.
  destruct (C5_inbox_entry_lifetime Sample.hash Sample.decodable Sample.direct
              [Sample.photo] 1000 init) as (_ & _ & H);
    [discriminate | reflexivity | reflexivity |].
  assert (Hget : Dict.get (image_cache later) (cache_key Sample.hash Sample.direct)
                 = Some {| content := [Sample.photo]; timestamp := 1000 |})
    by (vm_compute; reflexivity).
  assert (Hnd : NoDup (Dict.keys (image_cache later))).
  { apply (bool_decide_unpack _). vm_compute. exact I. }
  destruct (H later 1300 Hget Hnd) as (H1300 & _).
  destruct (H later 1301 Hget Hnd) as (_ & H1301).
  destruct H1300 as (Ha & Hb); [lia |].
  destruct H1301 as (_ & Hc & Hd); [lia |].
  assert (Hf : first_fresh_fallback later
                 (cache_key Sample.hash Sample.direct) 1301 = None)
    by (vm_compute; reflexivity).
  rewrite Hf in Hd.
  split_and!; [exact Ha | exact Hb | exact Hd | exact Hc
              | vm_compute; reflexivity].
Defined.

(** C5 fails as stated: an entry written at time 1000 is still returned by
    a get at time 1300, before and after the sweep of that time.  And
    after the entry of [u] has expired, a get on [u] at time 1400 is not
    absent when the cache holds a fresh entry under the key [u_bob]: the
    fallback chain returns the image of that entry. *)
Lemma C5_counterexample :
  let s' := Sample.handle Sample.direct (ImageMessage [Sample.photo])
              Sample.one_image 1000 init in
  let group := {| session_id := "u"; isgroup := true;
                  msg := Some {| actual_user_id := Some "bob";
                                 from_user_id := None; sender_id := None;
                                 sender_wxid := None;
                                 self_display_name := None |} |} in
  let other := replicate 102 "255"%byte in
  let later := Sample.handle group (ImageMessage [other]) Sample.one_image
                 1200 s' in
  (_get_recent_image s' "u" (1000 + 300) = Some Sample.photo
   ∧ _get_recent_image (_cleanup_image_cache (1000 + 300) s') "u" (1000 + 300)
     = Some Sample.photo)
  ∧ (cache_fresh (Dict.get (image_cache later) "u") 1400 = false
     ∧ _get_recent_image later "u" 1400 = Some other).
Proof. vm_compute. done. Qed.

(** ** Conversation Store: expiry *)

Lemma expired_conversations_spec (m : gmap string Z) (now : Z) (k : string) :
  k ∈ map fst
        (List.filter (fun kt => bool_decide (now - snd kt > conversation_expiry))
                     (map_to_list m))
  ↔ ∃ t, m !! k = Some t ∧ now - t > conversation_expiry.
Proof.
  rewrite list_elem_of_In, in_map_iff. split.
  - intros ([k' t] & <- & [Hin Hb]%filter_In). simpl in *.
    apply bool_decide_eq_true in Hb.
    apply list_elem_of_In, elem_of_map_to_list in Hin. eauto.
  - intros (t & Hk & Ht). exists (k, t). split; [done |].
    apply filter_In. split.
    + by apply list_elem_of_In, elem_of_map_to_list.
    + simpl. by apply bool_decide_eq_true.
Qed.

(** The loop [for key in expired_keys:] removes these keys, and only these,
    from the three dictionaries, and touches no list object. *)
Lemma forget_keys_spec (ks : list string) :
  ∀ (self : GeminiImage) (k : string),
    let s' :=
      foldl
        (fun self key =>
           with_last_images (delete key)
             (with_conversation_timestamps (delete key)
                (with_conversations (delete key) self)))
        self ks in
    conversations s' !! k
    = (if bool_decide (k ∈ ks) then None else conversations self !! k)
    ∧ conversation_timestamps s' !! k
      = (if bool_decide (k ∈ ks) then None else conversation_timestamps self !! k)
    ∧ last_images s' !! k
      = (if bool_decide (k ∈ ks) then None else last_images self !! k)
    ∧ objects s' = objects self.
Proof.
  induction ks as [|k0 ks IH]; intros self k; [done |].
  cbn [foldl]. cbv zeta in IH |- *.
  destruct (IH (with_last_images (delete k0)
                  (with_conversation_timestamps (delete k0)
                     (with_conversations (delete k0) self))) k)
    as (Hc & Ht & Hl & Ho).
  rewrite Hc, Ht, Hl, Ho. simpl.
  destruct (decide (k0 = k)) as [-> | Hne].
  - rewrite !lookup_delete_eq.
    rewrite (bool_decide_true (k ∈ k :: ks)) by (by left).
    by destruct (bool_decide (k ∈ ks)).
  - rewrite !lookup_delete_ne by done.
    destruct (decide (k ∈ ks)) as [Hin | Hnin].
    + rewrite !bool_decide_true; [done | by right | done].
    + rewrite !bool_decide_false; [done | | done].
      intros [-> | Hin]%elem_of_cons; done.
Qed.

Lemma cleanup_expired_spec (now : Z) (self : GeminiImage) (k : string) :
  let s' := _cleanup_expired_conversations now self in
  match conversation_timestamps self !! k with
  | Some t =>
      if bool_decide (now - t > conversation_expiry) then
        conversations s' !! k = None
        ∧ conversation_timestamps s' !! k = None
        ∧ last_images s' !! k = None
      else
        conversations s' !! k = conversations self !! k
        ∧ conversation_timestamps s' !! k = Some t
        ∧ last_images s' !! k = last_images self !! k
        ∧ history s' k = history self k
  | None =>
      conversations s' !! k = conversations self !! k
      ∧ conversation_timestamps s' !! k = None
      ∧ last_images s' !! k = last_images self !! k
      ∧ history s' k = history self k
  end.
Proof.
  intros s'. unfold s', _cleanup_expired_conversations.
  set (ks := map fst _).
  destruct (forget_keys_spec ks self k) as (Hc & Ht & Hl & Ho).
  cbv zeta in Hc, Ht, Hl, Ho.
  pose proof (expired_conversations_spec (conversation_timestamps self) now k)
    as Hks. fold ks in Hks.
  assert (Hhist : ∀ s1 s2, conversations s1 !! k = conversations s2 !! k →
                           objects s1 = objects s2 → history s1 k = history s2 k).
  { intros s1 s2 H1 H2. unfold history, deref. by rewrite H1, H2. }
  destruct (conversation_timestamps self !! k) as [t|] eqn:Hk.
  - destruct (decide (now - t > conversation_expiry)) as [He | He].
    + rewrite (bool_decide_true _ He).
      rewrite bool_decide_true in Hc, Ht, Hl by (apply Hks; eauto). done.
    + rewrite (bool_decide_false _ He).
      rewrite bool_decide_false in Hc, Ht, Hl
        by (intros (t' & [= <-] & Ht')%Hks; done).
      repeat split; try done. by apply Hhist.
  - rewrite bool_decide_false in Hc, Ht, Hl
      by (intros (t' & [=] & _)%Hks).
    repeat split; try done. by apply Hhist.
Qed.

Section ExpiryClaims.

Variable save_dir : string.
Variable exit_commands : list string.
Variable json_dumps : ApiResult → string.
Variable uuid : nat → string.
Variable len : string → nat.
Variable str_take : nat → string → string.
Variable writable : string → bool.

(** C6 (as amended).  A key whose time stamp is [T] is removed by the
    expiry sweep, from the histories, the time stamps and the last images
    together, when the sweep runs strictly later than [T + 600]; a sweep at
    [T + 600] or earlier leaves the three entries as they are.  A
    successful generate or edit touch at [T + 300] stamps the key with
    [T + 300]: the key then stays through every sweep up to [T + 900] and
    goes at the first sweep after it. *)
Theorem C6_expiry_after_600_seconds (key prompt : string) (T now : Z)
    (post : py Response) (self touched : GeminiImage) :
  conversation_timestamps self !! key = Some T →
  successful_touch save_dir exit_commands json_dumps uuid len str_take
    writable key prompt post (T + 300) self touched →
  let swept := _cleanup_expired_conversations now self in
  let swept' := _cleanup_expired_conversations now touched in
  (T + 600 < now →
   history swept key = None
   ∧ conversation_timestamps swept !! key = None
   ∧ last_images swept !! key = None)
  ∧ (now ≤ T + 600 →
     history swept key = history self key
     ∧ conversation_timestamps swept !! key = Some T
     ∧ last_images swept !! key = last_images self !! key)
  ∧ conversation_timestamps touched !! key = Some (T + 300)
  ∧ (T + 900 < now →
     history swept' key = None
     ∧ conversation_timestamps swept' !! key = None
     ∧ last_images swept' !! key = None)
  ∧ (now ≤ T + 900 →
     history swept' key = history touched key
     ∧ conversation_timestamps swept' !! key = Some (T + 300)
     ∧ last_images swept' !! key = last_images touched !! key).
Proof.
  intros HT Htouch swept swept'.
  assert (Htouched : conversation_timestamps touched !! key = Some (T + 300)).
  { destruct Htouch
      as [image_datas text_responses image_paths Hgen Hsave Hne
         | image_data result_image text_response reply_text
             Hinbox Hne Hedit Hres Hreply Hw].
    - destruct image_paths as [|p ps]; [done |].
      destruct (generate_command_success save_dir uuid len str_take writable
                  key prompt post (T + 300) self image_datas text_responses
                  p ps Hgen Hsave) as (_ & _ & Hts & _).
      rewrite Hts. apply lookup_insert_eq.
    - destruct (edit_command_success save_dir exit_commands json_dumps uuid
                  len str_take writable key prompt post (T + 300) self
                  image_data result_image text_response reply_text
                  Hinbox Hne Hedit Hres Hreply Hw) as (_ & _ & Hts & _).
      rewrite Hts. apply lookup_insert_eq. }
  pose proof (cleanup_expired_spec now self key) as H1.
  pose proof (cleanup_expired_spec now touched key) as H2.
  cbv zeta in H1, H2. fold swept in H1. fold swept' in H2.
  rewrite HT in H1. rewrite Htouched in H2.
  unfold conversation_expiry in H1, H2.
  repeat split; try done.
  - rewrite bool_decide_true in H1 by lia.
    destruct H1 as (Hc & _). unfold history. by rewrite Hc.
  - rewrite bool_decide_true in H1 by lia. tauto.
  - rewrite bool_decide_true in H1 by lia. tauto.
  - rewrite bool_decide_false in H1 by lia. tauto.
  - rewrite bool_decide_false in H1 by lia. tauto.
  - rewrite bool_decide_false in H1 by lia. tauto.
  - rewrite bool_decide_true in H2 by lia.
    destruct H2 as (Hc & _). unfold history. by rewrite Hc.
  - rewrite bool_decide_true in H2 by lia. tauto.
  - rewrite bool_decide_true in H2 by lia. tauto.
  - rewrite bool_decide_false in H2 by lia. tauto.
  - rewrite bool_decide_false in H2 by lia. tauto.
  - rewrite bool_decide_false in H2 by lia. tauto.
Qed.

End ExpiryClaims.

Lemma C6_witness :
  let s0 := generate_command Sample.save_dir Sample.uuid String.length
              PyStr.take Sample.writable "u" "cat" Sample.one_image 0 init in
  let self := _handle_image_message Sample.hash Sample.decodable Sample.direct
                [Sample.photo] 100 s0 in
  let generated :=
    generate_command Sample.save_dir Sample.uuid String.length PyStr.take
      Sample.writable "u" "a dog" Sample.one_image (0 + 300) self in
  let edited :=
    edit_command Sample.save_dir Sample.exit_commands Sample.json_dumps
      Sample.uuid String.length PyStr.take Sample.writable "u" "make it blue"
      Sample.one_image (0 + 300) self in
  conversation_timestamps (_cleanup_expired_conversations 600 self) !! "u"
  = Some 0
  ∧ conversation_timestamps (_cleanup_expired_conversations 601 self) !! "u"
    = None
  ∧ conversation_timestamps (_cleanup_expired_conversations 900 generated)
      !! "u" = Some (0 + 300)
  ∧ history (_cleanup_expired_conversations 901 generated) "u" = None
  ∧ conversation_timestamps (_cleanup_expired_conversations 900 edited) !! "u"
    = Some (0 + 300)
  ∧ last_images (_cleanup_expired_conversations 901 edited) !! "u" = None.
Proof.
  intros s0 self generated edited.
  assert (HT : conversation_timestamps self !! "u" = Some 0)
    by (vm_compute; reflexivity).
  assert (Hgen : successful_touch Sample.save_dir Sample.exit_commands
                   Sample.json_dumps Sample.uuid String.length PyStr.take
                   Sample.writable "u" "a dog" Sample.one_image (0 + 300)
                   self generated).
  { apply (touch_generate _ _ _ _ _ _ _ _ _ _ _ _
             [Some Sample.png] [None]
             ["temp/gemini_300_00000000_generated_image.png"]);
      [reflexivity | vm_compute; reflexivity | discriminate]. }
  assert (Hedit : successful_touch Sample.save_dir Sample.exit_commands
                    Sample.json_dumps Sample.uuid String.length PyStr.take
                    Sample.writable "u" "make it blue" Sample.one_image
                    (0 + 300) self edited).
  { apply (touch_edit _ _ _ _ _ _ _ _ _ _ _ _
             Sample.photo (Some Sample.png) None
             (default EmptyString (edit_reply_text Sample.exit_commands None true)));
      [vm_compute; reflexivity | discriminate | vm_compute; reflexivity
      | reflexivity | vm_compute; reflexivity | reflexivity]. }
  pose proof (C6_expiry_after_600_seconds _ _ _ _ _ _ _ "u" "a dog" 0 600
                Sample.one_image self generated HT Hgen) as (_ & H600 & _).
  pose proof (C6_expiry_after_600_seconds _ _ _ _ _ _ _ "u" "a dog" 0 601
                Sample.one_image self generated HT Hgen) as (H601 & _).
  pose proof (C6_expiry_after_600_seconds _ _ _ _ _ _ _ "u" "a dog" 0 900
                Sample.one_image self generated HT Hgen)
    as (_ & _ & _ & _ & G900).
  pose proof (C6_expiry_after_600_seconds _ _ _ _ _ _ _ "u" "a dog" 0 901
                Sample.one_image self generated HT Hgen)
    as (_ & _ & _ & G901 & _).
  pose proof (C6_expiry_after_600_seconds _ _ _ _ _ _ _ "u" "make it blue" 0
                900 Sample.one_image self edited HT Hedit)
    as (_ & _ & _ & _ & E900).
  pose proof (C6_expiry_after_600_seconds _ _ _ _ _ _ _ "u" "make it blue" 0
                901 Sample.one_image self edited HT Hedit)
    as (_ & _ & _ & E901 & _).
  split_and!.
  - apply H600. lia.
  - apply H601. lia.
  - apply G900. lia.
  - apply G901. lia.
  - apply E900. lia.
  - apply E901. lia.
Defined.

(** C6 fails as stated: user [u] generates an image at time 0, and the
    sweep of an event at time 600 leaves the three entries of [u]. *)
Lemma C6_counterexample :
  let s0 := Sample.handle Sample.direct (GenerateCommand "cat")
              Sample.one_image 0 init in
  let s1 := Sample.handle Sample.direct Ignored Sample.one_image (0 + 600) s0 in
  conversation_timestamps s0 !! "u" = Some 0
  ∧ conversation_timestamps s1 !! "u" = Some 0
  ∧ length (turns s1 "u") = 2%nat
  ∧ last_images s1 !! "u"
    = Some (PathList ["temp/gemini_0_00000000_generated_image.png"]).
Proof. vm_compute. done. Qed.

(** ** Identity Resolver *)

(** C7 fails on the code: in the group [g], a message whose
    [actual_user_id] is [g] and which has none of [sender_id],
    [sender_wxid] and [self_display_name] is filed under the key [g_g],
    by [_handle_image_message] and by the group lookup of
    [_get_recent_image] alike. *)
Theorem C7_group_id_kept_as_sender :
  resolve_sender Sample.hash Sample.group_quirk = "g"
  ∧ cache_key Sample.hash Sample.group_quirk = "g_g"
  ∧ group_key Sample.group_quirk = Some "g_g".
Proof. vm_compute. done. Qed.

(** When one of the three other attributes is set, it replaces a sender
    that is the group itself. *)
Lemma resolve_sender_other (hash : string → Z) (context : Context) (m : Msg)
    (s : string) :
  msg context = Some m →
  isgroup context = true →
  first_sender m = Some (session_id context) →
  other_sender m None = Some s →
  resolve_sender hash context = s.
Proof.
  intros Hm Hg Hfirst Hother. unfold resolve_sender.
  rewrite Hm, Hg, Hfirst. simpl. rewrite bool_decide_true by done.
  unfold other_sender in *.
  destruct (attr (sender_id m)), (attr (sender_wxid m)),
    (attr (self_display_name m)); by simplify_eq.
Qed.

(** ** Retention Sweeper *)

Lemma prefix_refl (s : string) : String.prefix s s = true.
Proof.
  induction s as [|c s IH]; [done |]. simpl.
  by destruct (Ascii.ascii_dec c c).
Qed.

Lemma contains_refl (s : string) : PyStr.contains s s = true.
Proof. destruct s; [done |]. cbn [PyStr.contains]. by rewrite prefix_refl. Qed.

Lemma in_use_spec (file_path : string) (last_images : gmap string LastImage) :
  in_use file_path last_images = true
  ↔ ∃ key last_image,
      last_images !! key = Some last_image
      ∧ path_in file_path last_image = true.
Proof.
  unfold in_use. rewrite existsb_exists. split.
  - intros ([key li] & Hin & Hp).
    apply list_elem_of_In, elem_of_map_to_list in Hin. eauto.
  - intros (key & li & Hk & Hp). exists (key, li). split; [|done].
    by apply list_elem_of_In, elem_of_map_to_list.
Qed.

Lemma referenced_in_use (file_path : string)
    (last_images : gmap string LastImage) :
  referenced file_path last_images → in_use file_path last_images = true.
Proof.
  intros (key & [H | (ps & H & Hin)]); apply in_use_spec.
  - exists key, (OnePath file_path). split; [done |]. apply contains_refl.
  - exists key, (PathList ps). split; [done |]. simpl.
    by apply bool_decide_eq_true.
Qed.

Lemma in_use_referenced (file_path : string)
    (last_images : gmap string LastImage) :
  (∀ key p, last_images !! key = Some (OnePath p) →
            PyStr.contains file_path p = true → p = file_path) →
  in_use file_path last_images = true → referenced file_path last_images.
Proof.
  intros Hexact (key & [p | ps] & Hk & Hp)%in_use_spec; exists key.
  - left. simpl in Hp. by rewrite <- (Hexact key p Hk Hp).
  - right. exists ps. split; [done |]. by apply bool_decide_eq_true in Hp.
Qed.

(** C8 (as amended).  Among the entries of the directory that are older
    than the threshold, one whose path is the last image of some key, or
    in the list of last images of some key, survives the sweep.  A plain
    file named [gemini_...], [edited_...] or [temp_...] is deleted if and
    only if its path is not referenced in that way, as long as no single
    last image merely holds the path as a part of its own.  An entry with
    another name, or a directory, is not deleted. *)
Theorem C8_sweep_of_old_files (save_dir : string) (self : GeminiImage)
    (now max_age_hours : Z) (listing : list DirEntry) (e : DirEntry) :
  In e listing →
  now - mtime e > max_age_hours * 3600 →
  let file_path := PyStr.join_path save_dir (filename e) in
  let left_there :=
    In e (_cleanup_temp_files save_dir self now max_age_hours listing) in
  (referenced file_path (last_images self) → left_there)
  ∧ (is_dir e = false →
     PyStr.startswith_any ["gemini_"; "edited_"; "temp_"] (filename e) = true →
     (∀ key p, last_images self !! key = Some (OnePath p) →
               PyStr.contains file_path p = true → p = file_path) →
     (¬ left_there ↔ ¬ referenced file_path (last_images self)))
  ∧ (PyStr.startswith_any ["gemini_"; "edited_"; "temp_"] (filename e) = false →
     left_there)
  ∧ (is_dir e = true → left_there).
Proof.
  intros Hin Hold file_path left_there.
  unfold left_there, _cleanup_temp_files. rewrite filter_In.
  unfold removes. fold file_path.
  split_and!.
  - intros Href. split; [done |].
    destruct (is_dir e); [done |].
    destruct (PyStr.startswith_any _ (filename e)); [|done].
    rewrite bool_decide_true by done. rewrite negb_involutive.
    by apply referenced_in_use.
  - intros Hdir Hname Hexact. rewrite Hdir, Hname.
    rewrite bool_decide_true by done. rewrite negb_involutive. split.
    + intros Hnot Href. apply Hnot. split; [done |].
      by apply referenced_in_use.
    + intros Hfree [_ Hused]. apply Hfree. by apply in_use_referenced.
  - intros Hname. rewrite Hname. split; [done |].
    by destruct (is_dir e).
  - intros Hdir. by rewrite Hdir.
Qed.

Lemma C8_witness :
  let kept := {| filename := "gemini_1_ab_cat.png"; is_dir := false;
                 mtime := 0 |} in
  let gone := {| filename := "temp_1_cd.png"; is_dir := false; mtime := 0 |} in
  let self := with_last_images
                (insert "u" (PathList ["temp/gemini_1_ab_cat.png"])) init in
  let swept := _cleanup_temp_files "temp" self (100 * 3600) 24 [kept; gone] in
  In kept swept ∧ ¬ In gone swept.
Proof.
  intros kept gone self swept.
  assert (Hself : ∀ key li, last_images self !! key = Some li →
                            key = "u" ∧ li = PathList ["temp/gemini_1_ab_cat.png"]).
  { intros key li H. unfold self in H. simpl in H.
    destruct (decide (key = "u")) as [-> | Hne].
    - rewrite lookup_insert_eq in H. by injection H as <-.
    - rewrite lookup_insert_ne, lookup_empty in H by done. discriminate. }
  destruct (C8_sweep_of_old_files "temp" self (100 * 3600) 24 [kept; gone] kept)
    as (Hkept & _); [simpl; tauto | simpl; lia |].
  destruct (C8_sweep_of_old_files "temp" self (100 * 3600) 24 [kept; gone] gone)
    as (_ & Hgone & _); [simpl; tauto | simpl; lia |].
  split.
  - apply Hkept. exists "u". right. exists ["temp/gemini_1_ab_cat.png"].
    split; [reflexivity |]. by apply list_elem_of_singleton.
  - apply Hgone; [reflexivity | reflexivity | |].
    + intros key p H. by destruct (Hself key _ H).
    + intros (key & [H | (ps & H & Hin)]).
      * by destruct (Hself key _ H).
      * destruct (Hself key _ H) as [_ [= ->]].
        apply list_elem_of_singleton in Hin. discriminate.
Defined.

(** C8 fails as stated: a file [cat.png] that is a hundred hours old and
    that no last image names is left in the directory, next to a referenced
    file that is kept and an unreferenced [temp_] file that is deleted.
    And an old file [temp_1], which no last image names either, is left in
    the directory when the last image of a key is [temp/temp_1.png]: the
    path of the file is a part of that path. *)
Lemma C8_counterexample :
  let stray := {| filename := "cat.png"; is_dir := false; mtime := 0 |} in
  let kept := {| filename := "gemini_1_ab_cat.png"; is_dir := false; mtime := 0 |} in
  let gone := {| filename := "temp_1_cd.png"; is_dir := false; mtime := 0 |} in
  let self := with_last_images (insert "u" (PathList ["temp/gemini_1_ab_cat.png"]))
                               init in
  let part := {| filename := "temp_1"; is_dir := false; mtime := 0 |} in
  let self' := with_last_images (insert "u" (OnePath "temp/temp_1.png")) init in
  (¬ referenced "temp/cat.png" (last_images self)
   ∧ _cleanup_temp_files "temp" self (100 * 3600) 24 [stray; kept; gone]
     = [stray; kept])
  ∧ (¬ referenced "temp/temp_1" (last_images self')
     ∧ _cleanup_temp_files "temp" self' (100 * 3600) 24 [part; gone]
       = [part]).
Proof.
  intros stray kept gone self part self'.
  assert (Hone : ∀ (li : LastImage) key li',
            last_images (with_last_images (insert "u" li) init) !! key
            = Some li' → li' = li).
  { intros li key li' H. simpl in H.
    destruct (decide (key = "u")) as [-> | Hne].
    - rewrite lookup_insert_eq in H. by injection H as <-.
    - rewrite lookup_insert_ne, lookup_empty in H by done. discriminate. }
  split; (split; [|by vm_compute]).
  - intros (key & [H | (ps & H & Hin)]).
    + apply Hone in H. discriminate.
    + apply Hone in H. injection H as ->.
      apply list_elem_of_singleton in Hin. discriminate.
  - intros (key & [H | (ps & H & Hin)]).
    + apply Hone in H. discriminate.
    + apply Hone in H. discriminate.
Qed.

(** * Further properties of the code *)

(** ** Generation Gateway: shape of the results *)

Lemma texts_in_order_truthy (ps : list Part) :
  Forall (fun t => PyStr.truthy t = true) (texts_in_order ps).
Proof.
  induction ps as [|p ps IH]; [constructor |].
  unfold texts_in_order, part_text in *. simpl.
  destruct (truthy_text (text p)) eqn:E; [|done].
  destruct (text p) as [t|]; [|done]. simpl. by constructor.
Qed.

Lemma filter_nonempty_bytes (l : list bytes) :
  Forall (fun b => nonempty_bytes b = true) (List.filter nonempty_bytes l).
Proof.
  apply Forall_forall. intros b Hb.
  apply list_elem_of_In, filter_In in Hb. tauto.
Qed.

Lemma head_map_Some {A} (l : list A) :
  match map Some l with x :: _ => x | [] => None end = head l.
Proof. by destruct l. Qed.

(** For a response with status 200 that is not a policy rejection,
    [_edit_image] returns the first non-empty image and the first text of
    the parts, whatever follows them. *)
Theorem edit_returns_first_image_and_first_text
    (json_dumps : ApiResult → string) (input : image_input)
    (c : Candidate) (rest : list Candidate) :
  input_list input ≠ [] →
  finishReason c ≠ "IMAGE_SAFETY" →
  _edit_image json_dumps input (ok_response c rest)
  = Return (head (List.filter nonempty_bytes (images_in_order (parts c))),
            head (texts_in_order (parts c))).
Proof.
  intros Hin Hfr. unfold _edit_image, ok_response.
  destruct (input_list input) as [|b l]; [done |]. simpl.
  unfold edit_result. simpl. rewrite bool_decide_false by done.
  rewrite parse_loop_columns. simpl.
  unfold first_valid.
  rewrite image_column_none, text_column_valid, image_column_valid.
  rewrite !head_map_Some.
  destruct (images_in_order (parts c)) eqn:E; [|done].
  destruct (some_text (text_column (parts c))) eqn:T; [done |].
  apply text_column_none in T. by rewrite T.
Qed.

Lemma edit_returns_first_image_and_first_text_witness :
  _edit_image Sample.json_dumps (OneImage Sample.png)
    (ok_response
       {| finishReason := "STOP";
          parts := [text_part "A"; image_part Sample.png;
                    image_part Sample.photo; text_part "B"] |} [])
  = Return (head (List.filter nonempty_bytes
                    (images_in_order
                       [text_part "A"; image_part Sample.png;
                        image_part Sample.photo; text_part "B"])),
            head (texts_in_order
                    [text_part "A"; image_part Sample.png;
                     image_part Sample.photo; text_part "B"])).
Proof.
  apply (edit_returns_first_image_and_first_text Sample.json_dumps
           (OneImage Sample.png)
           {| finishReason := "STOP";
              parts := [text_part "A"; image_part Sample.png;
                        image_part Sample.photo; text_part "B"] |} []).
  - simpl. discriminate.
  - simpl. discriminate.
Defined.

(** A candidate whose finish reason is [IMAGE_SAFETY] makes [_edit_image]
    return no image and the dump of the whole response, even when its parts
    hold an image. *)
Theorem edit_policy_rejection_returns_dump
    (json_dumps : ApiResult → string) (input : image_input)
    (c : Candidate) (rest : list Candidate) :
  input_list input ≠ [] →
  finishReason c = "IMAGE_SAFETY" →
  _edit_image json_dumps input (ok_response c rest)
  = Return (None, Some (json_dumps {| candidates := c :: rest |})).
Proof.
  intros Hin Hfr. unfold _edit_image, ok_response.
  destruct (input_list input) as [|b l]; [done |]. simpl.
  unfold edit_result. simpl. by rewrite bool_decide_true.
Qed.

Lemma edit_policy_rejection_returns_dump_witness :
  _edit_image Sample.json_dumps (OneImage Sample.png)
    (ok_response {| finishReason := "IMAGE_SAFETY";
                    parts := [image_part Sample.png] |} [])
  = Return (None,
            Some (Sample.json_dumps
                    {| candidates :=
                         [{| finishReason := "IMAGE_SAFETY";
                             parts := [image_part Sample.png] |}] |})).
Proof.
  apply (edit_policy_rejection_returns_dump Sample.json_dumps
           (OneImage Sample.png)
           {| finishReason := "IMAGE_SAFETY";
              parts := [image_part Sample.png] |} []).
  - simpl. discriminate.
  - reflexivity.
Defined.

(** [_generate_image] reads the parts of the first candidate only: the
    finish reason, [IMAGE_SAFETY] included, and the other candidates do not
    change its result. *)
Theorem generate_reads_first_parts_only
    (c c' : Candidate) (rest rest' : list Candidate) :
  parts c = parts c' →
  _generate_image (ok_response c rest) = _generate_image (ok_response c' rest').
Proof.
  intros Hp. unfold _generate_image, ok_response. simpl.
  by rewrite !generate_result_columns, Hp.
Qed.

Lemma generate_reads_first_parts_only_witness :
  _generate_image
    (ok_response {| finishReason := "IMAGE_SAFETY";
                    parts := [image_part Sample.png] |} [])
  = _generate_image
      (ok_response {| finishReason := "STOP";
                      parts := [image_part Sample.png] |}
                   [{| finishReason := "STOP"; parts := [text_part "B"] |}]).
Proof.
  apply (generate_reads_first_parts_only
           {| finishReason := "IMAGE_SAFETY"; parts := [image_part Sample.png] |}
           {| finishReason := "STOP"; parts := [image_part Sample.png] |}
           [] [{| finishReason := "STOP"; parts := [text_part "B"] |}]).
  reflexivity.
Defined.

Lemma generate_image_cases (post : py Response) :
  match request_exception post with
  | Some e =>
      _generate_image post
      = if is_Exception (exn_cls e) then generate_except e else Raise e
  | None =>
      ∃ response,
        post = Return response
        ∧ _generate_image post
          = Return (if status_code response =? 200 then
                      match json response with
                      | Return result => generate_result result
                      | Raise _ => ([], [])
                      end
                    else ([], []))
  end.
Proof.
  unfold request_exception, _generate_image.
  destruct post as [response | e]; [|done]. simpl.
  destruct (status_code response =? 200) eqn:Es;
    [|exists response; by rewrite Es].
  destruct (json response) as [result | e] eqn:E; simpl; [|done].
  exists response. by rewrite Es, E.
Qed.

Lemma edit_image_cases (json_dumps : ApiResult → string)
    (input : image_input) (post : py Response) :
  input_list input ≠ [] →
  match request_exception post with
  | Some e =>
      _edit_image json_dumps input post
      = if is_Exception (exn_cls e) then edit_except e else Raise e
  | None => ∃ r, _edit_image json_dumps input post = Return r
  end.
Proof.
  intros Hin. unfold request_exception, _edit_image.
  destruct (input_list input); [done |].
  destruct post as [response | e]; [|done]. simpl.
  destruct (status_code response =? 200); [|eauto].
  destruct (json response) as [result | e]; simpl; [eauto | done].
Qed.

Lemma generate_except_message (e : exn) :
  ∃ m, generate_except e = Return ([], [Some m]) ∧ PyStr.truthy m = true.
Proof.
  unfold generate_except.
  destruct (bool_decide (exn_cls e = SSLError)),
    (is_ConnectionError (exn_cls e)), (is_Timeout (exn_cls e));
    eexists; split; reflexivity.
Qed.

Lemma edit_except_returns (e : exn) : ∃ r, edit_except e = Return r.
Proof.
  unfold edit_except.
  destruct (bool_decide (exn_cls e = SSLError)),
    (is_ConnectionError (exn_cls e)), (is_Timeout (exn_cls e)); eauto.
Qed.

(** What every result of [_generate_image] looks like, whatever the
    request did: the images are non-empty buffers followed by [None]s, the
    texts are non-empty strings followed by [None]s, only one of the two
    lists is padded, and when there is an image the lists have the same
    length.  The gateway raises only what the request raised, and only
    when that does not derive from [Exception]. *)
Theorem generate_result_shape (post : py Response) :
  match _generate_image post with
  | Return (images, texts) =>
      ∃ (imgs : list bytes) (txts : list string) (i t : nat),
        images = map Some imgs ++ replicate i None
        ∧ texts = map Some txts ++ replicate t None
        ∧ Forall (fun b => nonempty_bytes b = true) imgs
        ∧ Forall (fun s => PyStr.truthy s = true) txts
        ∧ (i = 0 ∨ t = 0)%nat
        ∧ (imgs ≠ [] → (length imgs + i = length txts + t)%nat)
  | Raise e =>
      request_exception post = Some e ∧ is_Exception (exn_cls e) = false
  end.
Proof.
  pose proof (generate_image_cases post) as H.
  destruct (request_exception post) as [e|].
  - destruct (is_Exception (exn_cls e)) eqn:E; rewrite H; [|done].
    destruct (generate_except_message e) as (m & -> & Hm).
    exists [], [m], 0%nat, 0%nat. simpl. split_and!; try done; auto.
  - destruct H as (response & -> & ->).
    assert (Hnone :
              ∃ (imgs : list bytes) (txts : list string) (i t : nat),
                @nil (option bytes) = map Some imgs ++ replicate i None
                ∧ @nil (option string) = map Some txts ++ replicate t None
                ∧ Forall (fun b => nonempty_bytes b = true) imgs
                ∧ Forall (fun s => PyStr.truthy s = true) txts
                ∧ (i = 0 ∨ t = 0)%nat
                ∧ (imgs ≠ [] → (length imgs + i = length txts + t)%nat)).
    { exists [], [], 0%nat, 0%nat. simpl. split_and!; try done; auto. }
    destruct (status_code response =? 200); [|exact Hnone].
    destruct (json response) as [result | e]; [|exact Hnone].
    destruct result as [[|c rest]]; [exact Hnone |].
    rewrite generate_result_columns.
    pose proof (texts_in_order_truthy (parts c)) as Ht.
    pose proof (filter_nonempty_bytes (images_in_order (parts c))) as Hi.
    destruct (images_in_order (parts c)) eqn:E.
    { exists [], (texts_in_order (parts c)), 0%nat, 0%nat.
      simpl. rewrite app_nil_r. split_and!; try done; auto. }
    set (imgs := List.filter nonempty_bytes (b :: l)) in *.
    set (txts := texts_in_order (parts c)) in *.
    exists imgs, txts,
      (Nat.max (length imgs) (length txts) - length imgs)%nat,
      (Nat.max (length imgs) (length txts) - length txts)%nat.
    unfold pad. split_and!; try done; lia.
Qed.

(** The gateway returns a pair whenever the request raises nothing or an
    exception that derives from [Exception]; an exception that does not
    ([KeyboardInterrupt], [SystemExit]) leaves [_generate_image] as it was
    raised, and [_edit_image] too unless it was given no image.  A
    response with status 200 whose body is not JSON gives the result of a
    failed request. *)
Theorem gateway_catches_every_Exception (json_dumps : ApiResult → string)
    (input : image_input) (post : py Response) :
  let caught :=
    match request_exception post with
    | Some e => is_Exception (exn_cls e)
    | None => true
    end in
  (if caught then ∃ r, _generate_image post = Return r
   else ∃ e, request_exception post = Some e ∧ _generate_image post = Raise e)
  ∧ (if caught || bool_decide (input_list input = [])
     then ∃ r, _edit_image json_dumps input post = Return r
     else ∃ e, request_exception post = Some e
               ∧ _edit_image json_dumps input post = Raise e)
  ∧ (∀ e, _generate_image (Return {| status_code := 200; json := Raise e |})
          = _generate_image (Raise e))
  ∧ (∀ e, _edit_image json_dumps input
            (Return {| status_code := 200; json := Raise e |})
          = _edit_image json_dumps input (Raise e)).
Proof.
  intros caught. split_and!.
  - pose proof (generate_image_cases post) as H. unfold caught.
    destruct (request_exception post) as [e|].
    + destruct (is_Exception (exn_cls e)); rewrite H; [|eauto].
      destruct (generate_except_message e) as (m & -> & _). eauto.
    + destruct H as (response & _ & ->). eauto.
  - destruct (decide (input_list input = [])) as [Hin | Hin].
    + rewrite (bool_decide_true _ Hin), orb_true_r.
      unfold _edit_image. rewrite Hin. eauto.
    + rewrite (bool_decide_false _ Hin), orb_false_r.
      pose proof (edit_image_cases json_dumps input post Hin) as H.
      unfold caught. destruct (request_exception post) as [e|]; [|done].
      destruct (is_Exception (exn_cls e)); rewrite H; [|eauto].
      apply edit_except_returns.
  - done.
  - intros e. unfold _edit_image. by destruct (input_list input).
Qed.

(** A [KeyboardInterrupt] during the request passes through both
    functions of the gateway. *)
Lemma gateway_passes_KeyboardInterrupt :
  let e := Exn KeyboardInterrupt "interrupted" in
  _generate_image (Raise e) = Raise e
  ∧ _edit_image Sample.json_dumps (OneImage Sample.png) (Raise e) = Raise e
  ∧ generate_command Sample.save_dir Sample.uuid String.length PyStr.take
      Sample.writable "u" "cat" (Raise e) 0 init
    = (conversations_getitem "u" init).1.
Proof. split_and!; reflexivity. Qed.

(** ** Translation of the API's messages *)

(** A text that holds none of the phrases is returned as it is. *)
Theorem translate_keeps_plain_text (text : string) :
  forallb (fun p => negb (PyStr.contains p text)) trigger_phrases = true →
  _translate_gemini_message text = text.
Proof.
  intros H. cbn [forallb trigger_phrases] in H.
  repeat (apply andb_prop in H as [?%negb_true_iff H]).
  unfold _translate_gemini_message.
  destruct (PyStr.truthy text) eqn:E; [|by destruct text].
  cbn [negb].
  repeat match goal with
         | Hc : PyStr.contains ?p text = false |- _ => rewrite Hc; clear Hc
         end.
  reflexivity.
Qed.

Lemma translate_keeps_plain_text_witness :
  _translate_gemini_message "Here is your cat." = "Here is your cat.".
Proof.
  apply (translate_keeps_plain_text "Here is your cat.").
  vm_compute. reflexivity.
Defined.

(** The translation of a non-empty text is never empty, and a text that
    names [finishReason] and [IMAGE_SAFETY] becomes the apology for a
    policy rejection, whatever else it holds. *)
Theorem translate_rejections (text : string) :
  (PyStr.truthy text = true →
   PyStr.truthy (_translate_gemini_message text) = true)
  ∧ (PyStr.contains "finishReason" text = true →
     PyStr.contains "IMAGE_SAFETY" text = true →
     _translate_gemini_message text
     = "抱歉，您的请求可能违反了内容安全政策，无法生成或编辑图片。请尝试修改您的描述，提供更为安全、合规的内容。").
Proof.
  split.
  - intros Ht. unfold _translate_gemini_message. rewrite Ht. cbn [negb].
    repeat match goal with
           | |- context [PyStr.contains ?p text] =>
               destruct (PyStr.contains p text)
           end; cbn [andb orb]; first [exact Ht | reflexivity].
  - intros H1 H2. unfold _translate_gemini_message.
    destruct text; [done |]. cbn [PyStr.truthy negb].
    by rewrite H1, H2.
Qed.

(** The dump that [_edit_image] returns for a policy rejection is shown to
    the user as the apology, provided the dump spells the finish reason
    out. *)
Theorem edit_rejection_is_translated
    (json_dumps : ApiResult → string) (input : image_input)
    (c : Candidate) (rest : list Candidate) :
  input_list input ≠ [] →
  finishReason c = "IMAGE_SAFETY" →
  PyStr.contains "finishReason" (json_dumps {| candidates := c :: rest |}) = true →
  PyStr.contains "IMAGE_SAFETY" (json_dumps {| candidates := c :: rest |}) = true →
  ∃ t, _edit_image json_dumps input (ok_response c rest) = Return (None, Some t)
       ∧ _translate_gemini_message t
         = "抱歉，您的请求可能违反了内容安全政策，无法生成或编辑图片。请尝试修改您的描述，提供更为安全、合规的内容。".
Proof.
  intros Hin Hfr H1 H2. exists (json_dumps {| candidates := c :: rest |}).
  split.
  - unfold _edit_image, ok_response.
    destruct (input_list input) as [|b l]; [done |]. simpl.
    unfold edit_result. simpl. by rewrite bool_decide_true.
  - unfold _translate_gemini_message.
    destruct (json_dumps _); [done |]. cbn [PyStr.truthy negb].
    by rewrite H1, H2.
Qed.

Lemma edit_rejection_is_translated_witness :
  ∃ t, _edit_image (fun _ => "{finishReason: IMAGE_SAFETY}")
         (OneImage Sample.png)
         (ok_response {| finishReason := "IMAGE_SAFETY"; parts := [] |} [])
       = Return (None, Some t)
       ∧ _translate_gemini_message t
         = "抱歉，您的请求可能违反了内容安全政策，无法生成或编辑图片。请尝试修改您的描述，提供更为安全、合规的内容。".
Proof.
  apply (edit_rejection_is_translated (fun _ => "{finishReason: IMAGE_SAFETY}")
           (OneImage Sample.png)
           {| finishReason := "IMAGE_SAFETY"; parts := [] |} []).
  - simpl. discriminate.
  - reflexivity.
  - vm_compute. reflexivity.
  - vm_compute. reflexivity.
Defined.

(** ** Strings *)

Lemma split_from_truthy (s : string) :
  ∀ skip cur,
    Forall (fun w => PyStr.truthy w = true) (PyStr.split_from skip cur s).
Proof.
  assert (Hflush : ∀ cur, Forall (fun w => PyStr.truthy w = true)
                                 (PyStr.flush cur)).
  { intros cur. unfold PyStr.flush.
    destruct (PyStr.truthy cur) eqn:E; repeat constructor. done. }
  induction s as [|c s IH]; intros skip cur; cbn [PyStr.split_from].
  - apply Hflush.
  - destruct skip as [|k]; [|apply IH].
    destruct (PyStr.space_len (String c s)); [apply IH |].
    apply Forall_app. split; [apply Hflush | apply IH].
Qed.

(** [prompt.split()] never yields an empty word: every user turn that the
    generate command stores holds a non-empty text. *)
Theorem user_messages_hold_words (prompt : string) :
  Forall (fun t => ∃ word, turn_parts t = [PartText word]
                           ∧ PyStr.truthy word = true
                           ∧ role t = user)
         (user_messages_of prompt).
Proof.
  unfold user_messages_of. apply Forall_fmap.
  eapply Forall_impl; [apply (split_from_truthy prompt 0 "") |].
  intros w Hw. simpl. eauto.
Qed.

Lemma replace_char_length (a : ascii) (s : string) :
  String.length (PyStr.replace_char a s) = String.length s.
Proof. induction s as [|c s IH]; simpl; [done | by rewrite IH]. Qed.

(** A sanitized caption has the length of the caption and holds none of
    the characters [/], [\], [:] and [*]. *)
Theorem sanitize_removes_unsafe_characters (text : string) :
  String.length (sanitize text) = String.length text
  ∧ string_forall (fun c => negb (unsafe_char c)) (sanitize text) = true.
Proof.
  split.
  - unfold sanitize. by rewrite !replace_char_length.
  - induction text as [|c text IH]; [done |].
    unfold sanitize in *. cbn [PyStr.replace_char string_forall].
    rewrite IH, andb_true_r. unfold unsafe_char.
    destruct (Ascii.eqb c "/") eqn:E1; [reflexivity |].
    destruct (Ascii.eqb c "\") eqn:E2; [reflexivity |].
    destruct (Ascii.eqb c ":") eqn:E3; [reflexivity |].
    destruct (Ascii.eqb c "*") eqn:E4; [reflexivity |].
    by rewrite E1, E2, E3, E4.
Qed.

(** ** Request construction *)

Section RequestFacts.

Variable b64encode : bytes → string.
Variable disk : gmap string bytes.

Lemma process_parts_texts (ps : list TurnPart) :
  request_texts (flat_map (process_part b64encode disk) ps) = turn_texts ps.
Proof.
  induction ps as [|[t | u] ps IH]; [done | |].
  - change (t :: request_texts (flat_map (process_part b64encode disk) ps)
            = t :: turn_texts ps).
    by rewrite IH.
  - cbn [flat_map process_part]. destruct (disk !! u); exact IH.
Qed.

Lemma process_parts_length (ps : list TurnPart) :
  (length (flat_map (process_part b64encode disk) ps) ≤ length ps)%nat
  ∧ ((∀ u, u ∈ turn_images ps → is_Some (disk !! u)) →
     length (flat_map (process_part b64encode disk) ps) = length ps).
Proof.
  induction ps as [|[t | u] ps [IH1 IH2]]; simpl; [done | |].
  - split; [lia |]. intros H. rewrite IH2; [done |].
    intros u Hu. apply H. done.
  - split.
    + destruct (disk !! u); simpl; lia.
    + intros H. destruct (H u) as [d Hd]; [unfold turn_images; simpl; by left |].
      rewrite Hd. simpl. rewrite IH2; [done |].
      intros u' Hu'. apply H. unfold turn_images in *. simpl. by right.
Qed.

(** The request of [_generate_image] and of [_edit_image] holds one turn
    for each turn of the history, in order and with its role and its texts,
    then one final turn with the prompt (and, for an edit, the image).  The
    final turn has the role [user] after a history and no role at all
    without one, where it is the only turn.  A history image that cannot be
    read only shortens its own turn; when every image of a turn can be read
    the turn keeps all its parts. *)
Theorem request_keeps_every_turn (prompt : string) (image : bytes)
    (conversation_history : list Turn) :
  let g := generate_contents b64encode disk prompt conversation_history in
  let e := edit_contents b64encode disk prompt image conversation_history in
  let final_role :=
    match conversation_history with
    | [] => None
    | _ :: _ => Some "user"
    end in
  length g = S (length conversation_history)
  ∧ length e = S (length conversation_history)
  ∧ last g = Some {| req_role := final_role; req_parts := [ReqText prompt] |}
  ∧ last e
    = Some {| req_role := final_role;
              req_parts := [ReqText prompt;
                            ReqInlineData "image/png" (b64encode image)] |}
  ∧ (∀ i msg, conversation_history !! i = Some msg →
       ∃ t, g !! i = Some t ∧ e !! i = Some t
            ∧ req_role t = Some (role_name (role msg))
            ∧ request_texts (req_parts t) = turn_texts (turn_parts msg)
            ∧ (length (req_parts t) ≤ length (turn_parts msg))%nat
            ∧ ((∀ u, u ∈ turn_images (turn_parts msg) → is_Some (disk !! u)) →
               length (req_parts t) = length (turn_parts msg))).
Proof.
  intros g e final_role.
  unfold g, e, final_role, generate_contents, edit_contents.
  destruct conversation_history as [|m0 h].
  { simpl. split_and!; eauto. intros i msg Hi. by destruct i. }
  cbv beta iota. set (hist := m0 :: h). clearbody hist.
  rewrite !length_app, !last_snoc. unfold processed_history.
  rewrite length_map. cbn [length].
  split_and!; try lia; eauto.
  intros i msg Hi.
  exists {| req_role := Some (role_name (role msg));
            req_parts := flat_map (process_part b64encode disk)
                                  (turn_parts msg) |}.
  assert (Hlookup :
            map (fun msg =>
                   {| req_role := Some (role_name (role msg));
                      req_parts := flat_map (process_part b64encode disk)
                                            (turn_parts msg) |}) hist !! i
            = Some {| req_role := Some (role_name (role msg));
                      req_parts := flat_map (process_part b64encode disk)
                                            (turn_parts msg) |}).
  { change (map ?f hist) with (f <$> hist). by rewrite list_lookup_fmap, Hi. }
  split_and!.
  - rewrite lookup_app_l; [done |]. by apply lookup_lt_Some in Hlookup.
  - rewrite lookup_app_l; [done |]. by apply lookup_lt_Some in Hlookup.
  - done.
  - apply process_parts_texts.
  - apply process_parts_length.
  - apply process_parts_length.
Qed.

End RequestFacts.

(** ** Exit command *)

(** The exit command removes the history, the time stamp and the last
    image of a key that has a history and leaves every other key alone;
    for a key without a history it does nothing at all. *)
Theorem exit_command_clears_one_key (key : string) (self : GeminiImage) :
  let s' := exit_command key self in
  match conversations self !! key with
  | Some _ =>
      history s' key = None
      ∧ conversation_timestamps s' !! key = None
      ∧ last_images s' !! key = None
      ∧ (∀ k, k ≠ key →
           history s' k = history self k
           ∧ conversation_timestamps s' !! k = conversation_timestamps self !! k
           ∧ last_images s' !! k = last_images self !! k)
  | None => s' = self
  end.
Proof.
  intros s'. unfold s', exit_command.
  destruct (conversations self !! key) as [r|] eqn:E; [|done].
  unfold history. simpl. rewrite !lookup_delete_eq.
  split_and!; try done.
  intros k Hk. by rewrite !lookup_delete_ne.
Qed.

(** ** Commands that obtain no image *)

Section NoImage.

Variable save_dir : string.
Variable uuid : nat → string.
Variable len : string → nat.
Variable str_take : nat → string → string.
Variable writable : string → bool.

Lemma generate_command_no_image (key prompt : string) (post : py Response)
    (now : Z) (self : GeminiImage)
    (image_datas : list (option bytes))
    (text_responses : list (option string)) :
  _generate_image post = Return (image_datas, text_responses) →
  existsb is_not_None image_datas = false →
  generate_command save_dir uuid len str_take writable key prompt post now self
  = (conversations_getitem key self).1.
Proof.
  intros Hgen Hnone. unfold generate_command.
  destruct (conversations_getitem key self) as [s1 r]. rewrite Hgen. simpl.
  destruct image_datas as [|i image_datas]; [done |].
  destruct (save_images save_dir uuid writable (clean_texts_of len str_take text_responses)
              now 0 (i :: image_datas) []) as [[|p ps]|] eqn:E; [done | | done].
  apply save_images_length in E.
  assert (Hf : List.filter is_not_None (i :: image_datas) = []).
  { apply not_true_iff_false in Hnone.
    destruct (List.filter is_not_None (i :: image_datas)) as [|x l] eqn:F;
      [done |].
    exfalso. apply Hnone. apply existsb_exists. exists x.
    apply filter_In. rewrite F. by left. }
  rewrite Hf in E. done.
Qed.

(** A generate command whose result holds no image (a refusal in words, a
    status other than 200, a failed request) appends no turn and writes
    neither the last image nor the time stamp nor the inbox cache. *)
Theorem generate_without_image_changes_nothing (key prompt : string)
    (post : py Response) (now : Z) (self : GeminiImage)
    (image_datas : list (option bytes))
    (text_responses : list (option string)) :
  _generate_image post = Return (image_datas, text_responses) →
  existsb is_not_None image_datas = false →
  let s' := generate_command save_dir uuid len str_take writable key prompt post now self in
  turns s' key = turns self key
  ∧ conversation_timestamps s' = conversation_timestamps self
  ∧ last_images s' = last_images self
  ∧ image_cache s' = image_cache self.
Proof.
  intros Hgen Hnone s'. unfold s'.
  rewrite (generate_command_no_image key prompt post now self
             image_datas text_responses Hgen Hnone).
  apply getitem_turns.
Qed.

(** The first command of a key, when it obtains no image, still leaves an
    empty history under the key; as the key has no time stamp, no expiry
    sweep ever removes that history. *)
Theorem failed_first_command_leaves_unexpiring_history (key prompt : string)
    (post : py Response) (now later : Z) (self : GeminiImage)
    (image_datas : list (option bytes))
    (text_responses : list (option string)) :
  conversations self !! key = None →
  conversation_timestamps self !! key = None →
  _generate_image post = Return (image_datas, text_responses) →
  existsb is_not_None image_datas = false →
  let s' := generate_command save_dir uuid len str_take writable key prompt post now self in
  history s' key = Some []
  ∧ history (_cleanup_expired_conversations later s') key = Some [].
Proof.
  intros Hc Ht Hgen Hnone s'.
  assert (Hs' : s' = (conversations_getitem key self).1)
    by apply (generate_command_no_image key prompt post now self
                image_datas text_responses Hgen Hnone).
  assert (Hhist : history s' key = Some []).
  { rewrite Hs'. unfold conversations_getitem, new_list. rewrite Hc. simpl.
    unfold history, deref. simpl. rewrite lookup_insert_eq. simpl.
    by rewrite lookup_insert_eq. }
  split; [done |].
  pose proof (cleanup_expired_spec later s' key) as Hsweep.
  cbv zeta in Hsweep.
  assert (Hts : conversation_timestamps s' !! key = None).
  { rewrite Hs'.
    destruct (getitem_turns key self) as (_ & -> & _). done. }
  rewrite Hts in Hsweep. destruct Hsweep as (_ & _ & _ & ->). done.
Qed.

End NoImage.

Lemma generate_without_image_changes_nothing_witness :
  let s' := generate_command Sample.save_dir Sample.uuid String.length
              PyStr.take Sample.writable "u" "a cat"
              (ok_response {| finishReason := "STOP";
                              parts := [text_part "I cannot draw this."] |} [])
              5 init in
  turns s' "u" = turns init "u"
  ∧ conversation_timestamps s' = conversation_timestamps init
  ∧ last_images s' = last_images init
  ∧ image_cache s' = image_cache init.
Proof.
  apply (generate_without_image_changes_nothing Sample.save_dir Sample.uuid
           String.length PyStr.take Sample.writable "u" "a cat"
           (ok_response {| finishReason := "STOP";
                           parts := [text_part "I cannot draw this."] |} [])
           5 init [] [Some "I cannot draw this."]).
  - reflexivity.
  - reflexivity.
Defined.

Lemma failed_first_command_leaves_unexpiring_history_witness :
  let s' := generate_command Sample.save_dir Sample.uuid String.length
              PyStr.take Sample.writable "u" "a cat" Sample.timeout 5 init in
  history s' "u" = Some []
  ∧ history (_cleanup_expired_conversations 100000 s') "u" = Some [].
Proof.
  apply (failed_first_command_leaves_unexpiring_history Sample.save_dir
           Sample.uuid String.length PyStr.take Sample.writable "u" "a cat" Sample.timeout
           5 100000 init []
           [Some "图片生成失败: API调用超时，请稍后再试: Read timed out."]).
  - reflexivity.
  - reflexivity.
  - reflexivity.
  - reflexivity.
Defined.

(** ** Image Inbox Cache: sweep and lookup *)

Lemma dict_NoDup_foldl_del {V} (ks : list string) :
  ∀ d : Dict.dict V, NoDup (Dict.keys d) → NoDup (Dict.keys (foldl Dict.del d ks)).
Proof.
  induction ks as [|k ks IH]; intros d Hnd; simpl; [done |].
  apply IH. by apply dict_NoDup_del.
Qed.

(** The sweep of the inbox cache removes the entries older than 300
    seconds and keeps every other entry as it is: afterwards no entry is
    older than 300 seconds, and nothing but the cache has changed. *)
Theorem image_cache_sweep_keeps_fresh_entries (now : Z) (self : GeminiImage) :
  NoDup (Dict.keys (image_cache self)) →
  let s' := _cleanup_image_cache now self in
  (∀ k, Dict.get (image_cache s') k
        = match Dict.get (image_cache self) k with
          | Some e => if bool_decide (now - timestamp e > 300) then None else Some e
          | None => None
          end)
  ∧ (∀ k e, Dict.get (image_cache s') k = Some e → now - timestamp e ≤ 300)
  ∧ NoDup (Dict.keys (image_cache s'))
  ∧ conversations s' = conversations self
  ∧ conversation_timestamps s' = conversation_timestamps self
  ∧ last_images s' = last_images self.
Proof.
  intros Hnd s'.
  assert (Hget : ∀ k, Dict.get (image_cache s') k
        = match Dict.get (image_cache self) k with
          | Some e => if bool_decide (now - timestamp e > 300) then None else Some e
          | None => None
          end) by (intros k; by apply cleanup_image_cache_get).
  split_and!; try done.
  - intros k e. rewrite Hget.
    destruct (Dict.get (image_cache self) k) as [e'|]; [|done].
    case_bool_decide; [done |]. intros [= <-]. lia.
  - unfold s', _cleanup_image_cache. simpl. by apply dict_NoDup_foldl_del.
Qed.

Lemma image_cache_sweep_keeps_fresh_entries_witness :
  let self := _handle_image_message Sample.hash Sample.decodable Sample.direct
                [Sample.photo] 1000 init in
  let s' := _cleanup_image_cache 1200 self in
  (∀ k, Dict.get (image_cache s') k
        = match Dict.get (image_cache self) k with
          | Some e => if bool_decide (1200 - timestamp e > 300) then None else Some e
          | None => None
          end)
  ∧ (∀ k e, Dict.get (image_cache s') k = Some e → 1200 - timestamp e ≤ 300)
  ∧ NoDup (Dict.keys (image_cache s'))
  ∧ conversations s' = conversations self
  ∧ conversation_timestamps s' = conversation_timestamps self
  ∧ last_images s' = last_images self.
Proof.
  apply (image_cache_sweep_keeps_fresh_entries 1200
           (_handle_image_message Sample.hash Sample.decodable Sample.direct
              [Sample.photo] 1000 init)).
  vm_compute. apply NoDup_singleton.
Defined.

Lemma first_fresh_sound (cache : Dict.dict CacheEntry) (now : Z)
    (wanted : string → bool) (ks : list string) (r : option bytes) :
  first_fresh cache now wanted ks = Some r →
  ∃ k, k ∈ ks ∧ wanted k = true
       ∧ cache_fresh (Dict.get cache k) now = true
       ∧ r = first_content (Dict.get cache k).
Proof.
  induction ks as [|k ks IH]; simpl; [done |].
  destruct (wanted k && cache_fresh (Dict.get cache k) now) eqn:E.
  - apply andb_prop in E as [Hw Hf]. intros [= <-].
    exists k. split_and!; try done. by left.
  - intros H. destruct (IH H) as (k' & Hin & ?). exists k'.
    split; [by right | done].
Qed.

Lemma fresh_content_sound (cache : Dict.dict CacheEntry) (now : Z)
    (k : string) (b : bytes) :
  cache_fresh (Dict.get cache k) now = true →
  first_content (Dict.get cache k) = Some b →
  ∃ e, Dict.get cache k = Some e
       ∧ now - timestamp e ≤ 300
       ∧ head (content e) = Some b.
Proof.
  destruct (Dict.get cache k) as [e|]; [|done]. simpl.
  intros Hf%bool_decide_eq_true Hc. unfold image_cache_timeout in Hf. eauto.
Qed.

(** Whatever key is asked for and whichever step of the lookup answers,
    the buffer that [_get_recent_image] returns is the first buffer of an
    entry of the cache that is at most 300 seconds old. *)
Theorem get_recent_image_returns_fresh_data (self : GeminiImage)
    (key : string) (now : Z) (b : bytes) :
  _get_recent_image self key now = Some b →
  ∃ k e, Dict.get (image_cache self) k = Some e
         ∧ now - timestamp e ≤ 300
         ∧ head (content e) = Some b.
Proof.
  unfold _get_recent_image.
  destruct (cache_fresh (Dict.get (image_cache self) key) now) eqn:E.
  { intros H. exists key. by apply fresh_content_sound. }
  assert (Hstep : ∀ wanted ks r,
            first_fresh (image_cache self) now wanted ks = Some r →
            r = Some b →
            ∃ k e, Dict.get (image_cache self) k = Some e
                   ∧ now - timestamp e ≤ 300
                   ∧ head (content e) = Some b).
  { intros wanted ks r Hff ->.
    apply first_fresh_sound in Hff as (k & _ & _ & Hf & Hc).
    exists k. by apply fresh_content_sound. }
  destruct (first_fresh _ now (fun _ => true) _) as [r1|] eqn:F1;
    [intros; by eapply Hstep |].
  destruct (first_fresh _ now _ (Dict.keys _)) as [r2|] eqn:F2;
    [intros; by eapply Hstep |].
  destruct (PyStr.contains "_" key); [|done].
  destruct (first_fresh _ now (fun _ => true) (split_on _ _ _)) as [r3|] eqn:F3;
    [intros; by eapply Hstep | done].
Qed.

Lemma get_recent_image_returns_fresh_data_witness :
  ∃ k e,
    Dict.get (image_cache
                (_handle_image_message Sample.hash Sample.decodable
                   Sample.group_quirk [Sample.photo] 1000 init)) k = Some e
    ∧ 1100 - timestamp e ≤ 300
    ∧ head (content e) = Some Sample.photo.
Proof.
  apply (get_recent_image_returns_fresh_data
           (_handle_image_message Sample.hash Sample.decodable
              Sample.group_quirk [Sample.photo] 1000 init) "g" 1100 Sample.photo).
  vm_compute. reflexivity.
Defined.

(** ** Inbox cache: writes *)

(** A payload that is empty, or holds a buffer of at most 100 bytes or one
    that does not decode as an image, is dropped: the plugin is left as it
    was.  An accepted payload changes the inbox cache only. *)
Theorem image_message_rejects_bad_payloads (hash : string → Z)
    (decodable : bytes → bool) (context : Context)
    (image_datas : list bytes) (now : Z) (self : GeminiImage) :
  let s' := _handle_image_message hash decodable context image_datas now self in
  (image_datas = []
   ∨ (∃ d, d ∈ image_datas ∧ (length d ≤ 100)%nat)
   ∨ (∃ d, d ∈ image_datas ∧ decodable d = false) →
   s' = self)
  ∧ conversations s' = conversations self
  ∧ objects s' = objects self
  ∧ conversation_timestamps s' = conversation_timestamps self
  ∧ last_images s' = last_images self.
Proof.
  intros s'. unfold s', _handle_image_message. split.
  - intros [-> | [(d & Hin & Hd) | (d & Hin & Hd)]]; [done | |].
    + destruct image_datas as [|b l]; [done |].
      destruct (forallb (fun image_data => (100 <? length image_data)%nat)
                        (b :: l)) eqn:E; [|done].
      rewrite forallb_forall in E.
      apply list_elem_of_In, E, Nat.ltb_lt in Hin. lia.
    + destruct image_datas as [|b l]; [done |].
      destruct (forallb (fun image_data => (100 <? length image_data)%nat)
                        (b :: l)); [|done].
      destruct (forallb decodable (b :: l)) eqn:E; [|done].
      rewrite forallb_forall in E.
      apply list_elem_of_In, E in Hin. congruence.
  - destruct image_datas as [|b l]; [done |].
    destruct (forallb (fun image_data => (100 <? length image_data)%nat)
                      (b :: l)); [|done].
    by destruct (forallb decodable (b :: l)).
Qed.

(** ** Identity Resolver *)

Lemma attr_truthy (a : option string) (s : string) :
  attr a = Some s → PyStr.truthy s = true.
Proof.
  unfold attr. destruct a as [x|]; [|done].
  destruct (PyStr.truthy x) eqn:E; [|done]. by intros [= <-].
Qed.

Lemma first_sender_truthy (m : Msg) (s : string) :
  first_sender m = Some s → PyStr.truthy s = true.
Proof.
  unfold first_sender. destruct (attr (actual_user_id m)) eqn:E.
  - intros [= <-]. by eapply attr_truthy.
  - apply attr_truthy.
Qed.

Lemma other_sender_truthy (m : Msg) (sender : option string) (s : string) :
  (∀ x, sender = Some x → PyStr.truthy x = true) →
  other_sender m sender = Some s → PyStr.truthy s = true.
Proof.
  intros Hs. unfold other_sender.
  destruct (attr (sender_id m)) eqn:E1; [intros [= <-]; by eapply attr_truthy |].
  destruct (attr (sender_wxid m)) eqn:E2;
    [intros [= <-]; by eapply attr_truthy |].
  destruct (attr (self_display_name m)) eqn:E3;
    [intros [= <-]; by eapply attr_truthy | apply Hs].
Qed.

(** The key under which an image is cached is never empty, whatever the
    message lacks; in a group it is the session id, an underscore and the
    sender, and without any usable attribute the sender is [user_] and a
    number below 10000. *)
Theorem cache_key_is_never_empty (hash : string → Z) (context : Context) :
  PyStr.truthy (resolve_sender hash context) = true
  ∧ PyStr.truthy (cache_key hash context) = true
  ∧ (isgroup context = true →
     cache_key hash context
     = session_id context +:+ "_" +:+ resolve_sender hash context)
  ∧ (isgroup context = false →
     cache_key hash context = resolve_sender hash context)
  ∧ (msg context = None →
     ∃ n, 0 ≤ n < 10000 ∧ resolve_sender hash context = "user_" +:+ pretty n).
Proof.
  assert (Hs : PyStr.truthy (resolve_sender hash context) = true).
  { unfold resolve_sender.
    destruct (msg context) as [m|]; [|done].
    destruct (isgroup context && bool_decide (first_sender m = _)).
    - destruct (other_sender m (first_sender m)) as [s|] eqn:E; [|done].
      eapply other_sender_truthy; [|exact E].
      apply first_sender_truthy.
    - destruct (first_sender m) as [s|] eqn:E; [|done].
      by eapply first_sender_truthy. }
  split_and!; try done.
  - unfold cache_key. destruct (isgroup context); [|done].
    destruct (session_id context); done.
  - intros Hg. unfold cache_key. by rewrite Hg.
  - intros Hg. unfold cache_key. by rewrite Hg.
  - intros Hm. unfold resolve_sender. rewrite Hm.
    exists (hash (session_id context) `mod` 10000). split; [|done].
    apply Z.mod_pos_bound. lia.
Qed.

(** ** Inbox cache: lookup from a group chat *)

Lemma first_fresh_finds (cache : Dict.dict CacheEntry) (now : Z)
    (wanted : string → bool) (key : string) (ks : list string) :
  key ∈ ks →
  wanted key = true →
  cache_fresh (Dict.get cache key) now = true →
  (∀ k, k ≠ key → cache_fresh (Dict.get cache k) now = false) →
  first_fresh cache now wanted ks = Some (first_content (Dict.get cache key)).
Proof.
  intros Hin Hw Hf Hothers. induction ks as [|k ks IH]; [by inversion Hin |].
  simpl. destruct (decide (k = key)) as [-> | Hne].
  - by rewrite Hw, Hf.
  - rewrite (Hothers k Hne), andb_false_r. apply IH.
    apply elem_of_cons in Hin as [-> | Hin]; done.
Qed.

Lemma append_length (a b : string) :
  String.length (a +:+ b) = (String.length a + String.length b)%nat.
Proof.
  induction a as [|c a IH]; [done |]. rewrite append_cons. simpl. by rewrite IH.
Qed.

(** In a group chat the commands look the inbox up under the session id of
    the group, while an image is cached under the session id and its
    sender.  The lookup by session id finds the image through the scan of
    the keys, whoever in the group sent it: up to 300 seconds after the
    image arrived it returns its first buffer, when no other entry of the
    cache is fresh and the plugin has no [current_context]. *)
Theorem group_lookup_finds_image_of_any_sender (hash : string → Z)
    (decodable : bytes → bool) (context : Context)
    (image_datas : list bytes) (T now : Z) (self : GeminiImage) :
  isgroup context = true →
  image_datas ≠ [] →
  forallb (fun image_data => (100 <? length image_data)%nat) image_datas = true →
  forallb decodable image_datas = true →
  current_context self = None →
  (∀ k, cache_fresh (Dict.get (image_cache self) k) now = false) →
  now ≤ T + 300 →
  let s' := _handle_image_message hash decodable context image_datas T self in
  _get_recent_image s' (session_id context) now = head image_datas.
Proof.
  intros Hg Hne Hsize Hdec Hctx Hstale Hnow s'.
  pose proof (handle_image_message_cached hash decodable context image_datas
                T self Hne Hsize Hdec) as Hcache.
  fold s' in Hcache.
  set (key := cache_key hash context) in *.
  set (entry := {| content := image_datas; timestamp := T |}) in *.
  assert (Hkey : key = session_id context +:+ "_" +:+ resolve_sender hash context).
  { unfold key, cache_key. by rewrite Hg. }
  assert (Hdiff : key ≠ session_id context).
  { intros Heq. apply (f_equal String.length) in Heq.
    rewrite Hkey, !append_length in Heq. simpl in Heq. lia. }
  assert (Hget : Dict.get (image_cache s') key = Some entry)
    by (rewrite Hcache; apply dict_get_set_eq).
  assert (Hfresh : cache_fresh (Dict.get (image_cache s') key) now = true).
  { rewrite Hget. simpl. apply bool_decide_eq_true.
    unfold image_cache_timeout. lia. }
  assert (Hothers : ∀ k, k ≠ key →
            cache_fresh (Dict.get (image_cache s') k) now = false).
  { intros k Hk. rewrite Hcache, dict_get_set_ne by done. apply Hstale. }
  assert (Hcc : current_context s' = None).
  { unfold s', _handle_image_message.
    destruct image_datas; [done |]. by rewrite Hsize, Hdec. }
  unfold _get_recent_image.
  rewrite (Hothers (session_id context)) by done.
  rewrite Hcc. cbn [first_fresh].
  rewrite (first_fresh_finds (image_cache s') now _ key); try done.
  - by rewrite Hget.
  - rewrite Hcache. apply dict_keys_set. by left.
  - apply orb_true_intro. left. rewrite Hkey.
    rewrite <- append_assoc. apply prefix_append.
Qed.

Lemma group_lookup_finds_image_of_any_sender_witness :
  _get_recent_image
    (_handle_image_message Sample.hash Sample.decodable Sample.group_quirk
       [Sample.photo] 1000 init)
    (session_id Sample.group_quirk) 1300
  = head [Sample.photo].
Proof.
  apply (group_lookup_finds_image_of_any_sender Sample.hash Sample.decodable
           Sample.group_quirk [Sample.photo] 1000 1300 init).
  - reflexivity.
  - discriminate.
  - reflexivity.
  - reflexivity.
  - reflexivity.
  - intros k. reflexivity.
  - lia.
Defined.

(** ** Retention Sweeper: what is never deleted *)

(** The sweep only ever removes entries: what it leaves was in the
    directory.  It never removes a directory, nor an entry whose age is at
    most the threshold (the age of exactly [max_age_hours] hours
    included), whatever its name and whether a last image names it or
    not. *)
Theorem sweep_spares_directories_and_recent_files (save_dir : string)
    (self : GeminiImage) (now max_age_hours : Z) (listing : list DirEntry) :
  let left_there := _cleanup_temp_files save_dir self now max_age_hours listing in
  (∀ e, In e left_there → In e listing)
  ∧ (∀ e, In e listing →
          is_dir e = true ∨ now - mtime e ≤ max_age_hours * 3600 →
          In e left_there).
Proof.
  intros left_there. unfold left_there, _cleanup_temp_files. split.
  - intros e [Hin _]%filter_In. done.
  - intros e Hin Hcase. apply filter_In. split; [done |].
    unfold removes. destruct Hcase as [-> | Hage]; [done |].
    destruct (is_dir e); [done |].
    destruct (PyStr.startswith_any _ (filename e)); [|done].
    by rewrite bool_decide_false by lia.
Qed.

(** For a last image that is a single path, the test of the sweep is a
    substring test: an old file is spared as soon as its path occurs
    inside the last image of some key, also when it is another file. *)
Theorem sweep_spares_path_inside_single_last_image (save_dir : string)
    (self : GeminiImage) (now max_age_hours : Z) (listing : list DirEntry)
    (e : DirEntry) (key p : string) :
  In e listing →
  last_images self !! key = Some (OnePath p) →
  PyStr.contains (PyStr.join_path save_dir (filename e)) p = true →
  In e (_cleanup_temp_files save_dir self now max_age_hours listing).
Proof.
  intros Hin Hkey Hsub. unfold _cleanup_temp_files.
  apply filter_In. split; [done |]. unfold removes.
  destruct (is_dir e); [done |].
  destruct (PyStr.startswith_any _ (filename e)); [|done].
  destruct (bool_decide _); [|done].
  rewrite negb_involutive. apply in_use_spec.
  exists key, (OnePath p). done.
Qed.

Lemma sweep_spares_path_inside_single_last_image_witness :
  In {| filename := "gemini_1"; is_dir := false; mtime := 0 |}
     (_cleanup_temp_files "temp"
        (with_last_images (insert "u" (OnePath "temp/gemini_1_ab_cat.png")) init)
        360000 24
        [{| filename := "gemini_1"; is_dir := false; mtime := 0 |}]).
Proof.
  apply (sweep_spares_path_inside_single_last_image "temp"
           (with_last_images (insert "u" (OnePath "temp/gemini_1_ab_cat.png"))
                             init)
           360000 24
           [{| filename := "gemini_1"; is_dir := false; mtime := 0 |}]
           {| filename := "gemini_1"; is_dir := false; mtime := 0 |}
           "u" "temp/gemini_1_ab_cat.png").
  - simpl. left. reflexivity.
  - reflexivity.
  - vm_compute. reflexivity.
Defined.

(** ** Successful commands *)

Section Success.

Variable save_dir : string.
Variable exit_commands : list string.
Variable json_dumps : ApiResult → string.
Variable uuid : nat → string.
Variable len : string → nat.
Variable str_take : nat → string → string.
Variable writable : string → bool.

Lemma save_images_named (clean_texts : list string) (now : Z)
    (image_datas : list (option bytes)) :
  ∀ (i : nat) (image_paths saved : list string),
    Forall (fun p => ∃ name, p = PyStr.join_path save_dir name
                             ∧ String.prefix "gemini_" name = true)
           image_paths →
    save_images save_dir uuid writable clean_texts now i image_datas
      image_paths = Some saved →
    Forall (fun p => ∃ name, p = PyStr.join_path save_dir name
                             ∧ String.prefix "gemini_" name = true)
           saved.
Proof.
  induction image_datas as [|[d|] image_datas IH];
    intros i image_paths saved Hacc; simpl;
    [by intros [= <-] | | by apply IH].
  destruct (writable _); [|done].
  apply IH. apply Forall_app. split; [done |].
  constructor; [|constructor]. unfold image_file. eexists.
  split; [reflexivity |]. exact (prefix_append "gemini_" _).
Qed.

Lemma turn_images_app (a b : list TurnPart) :
  turn_images (a ++ b) = turn_images a ++ turn_images b.
Proof. unfold turn_images. apply omap_app. Qed.

Lemma user_messages_images (prompt : string) :
  turn_images (flat_map turn_parts (user_messages_of prompt)) = [].
Proof.
  unfold user_messages_of. induction (PyStr.split prompt) as [|w ws IH]; done.
Qed.

Lemma assistant_messages_images (image_paths : list string)
    (text_responses : list (option string)) :
  turn_images (flat_map turn_parts
                 (assistant_messages_of image_paths text_responses))
  = image_paths.
Proof.
  unfold assistant_messages_of.
  assert (Hgen : ∀ (g : nat → string) (paths : list string),
            turn_images
              (flat_map turn_parts
                 (imap (fun i image_path =>
                          {| role := model;
                             turn_parts := [PartText (g i);
                                            PartImageUrl image_path] |})
                       paths))
            = paths).
  { intros g paths. revert g.
    induction paths as [|q qs IH]; intros g; [done |].
    cbn [imap flat_map turn_parts app]. unfold turn_images in *.
    simpl. f_equal. exact (IH (g ∘ S)). }
  apply (Hgen (fun i => text_or "我已生成了图片" (mjoin (text_responses !! i)))).
Qed.

(** A generate command that obtains images and writes every one of them
    saves one file for each image that is not [None], named [gemini_...]
    in the save directory, records the list of these files as the last
    image of the key, appends one model turn for each of them after the
    user turns, and stamps the key with the time of the command.  When
    one of the writes raises, nothing is recorded: no turn, no last image,
    no time stamp. *)
Theorem generate_records_every_image (key prompt : string) (post : py Response)
    (now : Z) (self : GeminiImage)
    (image_datas : list (option bytes))
    (text_responses : list (option string)) :
  _generate_image post = Return (image_datas, text_responses) →
  existsb is_not_None image_datas = true →
  let s' :=
    generate_command save_dir uuid len str_take writable key prompt post now
      self in
  match save_images save_dir uuid writable
          (clean_texts_of len str_take text_responses) now 0 image_datas []
  with
  | Some image_paths =>
      last_images s' !! key = Some (PathList image_paths)
      ∧ length image_paths = length (List.filter is_not_None image_datas)
      ∧ Forall (fun p => ∃ name, p = PyStr.join_path save_dir name
                                 ∧ String.prefix "gemini_" name = true)
               image_paths
      ∧ length (turns s' key)
        = (length (turns self key) + length (PyStr.split prompt)
           + length image_paths)%nat
      ∧ turn_images (flat_map turn_parts
                       (drop (length (turns self key)) (turns s' key)))
        = image_paths
      ∧ conversation_timestamps s' !! key = Some now
  | None =>
      turns s' key = turns self key
      ∧ last_images s' = last_images self
      ∧ conversation_timestamps s' = conversation_timestamps self
  end.
Proof.
  intros Hgen Hsome s'.
  destruct (save_images _ _ _ _ _ _ _ _) as [image_paths|] eqn:Hsave.
  - destruct (save_images_some save_dir uuid writable _ _ _ _ Hsome Hsave)
      as (p & ps & ->).
    destruct (generate_command_success save_dir uuid len str_take writable key
                prompt post now self image_datas text_responses p ps Hgen
                Hsave) as (Hturns & Hli & Hts & _).
    fold s' in Hturns, Hli, Hts. split_and!.
    + rewrite Hli. apply lookup_insert_eq.
    + by rewrite (save_images_length _ _ _ _ _ _ _ _ _ Hsave).
    + eapply save_images_named; [|exact Hsave]. constructor.
    + rewrite Hturns, !length_app.
      unfold user_messages_of, assistant_messages_of.
      rewrite length_map, length_imap. lia.
    + rewrite Hturns, drop_app_length, flat_map_app, turn_images_app.
      by rewrite user_messages_images, assistant_messages_images.
    + rewrite Hts. apply lookup_insert_eq.
  - unfold s'.
    rewrite (generate_command_unsaved save_dir uuid len str_take writable key
               prompt post now self image_datas text_responses Hgen Hsave).
    destruct (getitem_turns key self) as (? & ? & ? & _). done.
Qed.

End Success.

Lemma generate_records_every_image_witness :
  let s' := generate_command Sample.save_dir Sample.uuid String.length
              PyStr.take Sample.writable "u" "a cat" Sample.text_image_text 7
              init in
  let failed := generate_command Sample.save_dir Sample.uuid String.length
                  PyStr.take (fun _ => false) "u" "a cat"
                  Sample.text_image_text 7 init in
  (last_images s' !! "u"
   = Some (PathList ["temp/gemini_7_00000000_A.png"])
   ∧ length (turns s' "u") = 3%nat
   ∧ conversation_timestamps s' !! "u" = Some 7)
  ∧ (turns failed "u" = []
     ∧ last_images failed = ∅
     ∧ conversation_timestamps failed = ∅).
Proof.
  pose proof (generate_records_every_image Sample.save_dir Sample.uuid
                String.length PyStr.take Sample.writable "u" "a cat"
                Sample.text_image_text 7 init
                [Some Sample.png; None] [Some "A"; Some "B"]
                eq_refl eq_refl) as H.
  pose proof (generate_records_every_image Sample.save_dir Sample.uuid
                String.length PyStr.take (fun _ => false) "u" "a cat"
                Sample.text_image_text 7 init
                [Some Sample.png; None] [Some "A"; Some "B"]
                eq_refl eq_refl) as F.
  split.
  - destruct H as (H1 & _ & _ & H4 & _ & H6). split_and!; assumption.
  - exact F.
Defined.

(** ** Edit command *)

Section EditFacts.

Variable save_dir : string.
Variable exit_commands : list string.
Variable json_dumps : ApiResult → string.
Variable uuid : nat → string.
Variable len : string → nat.
Variable str_take : nat → string → string.
Variable writable : string → bool.

Lemma edit_command_unwritten (key prompt : string) (post : py Response)
    (now : Z) (self : GeminiImage) (image_data : bytes)
    (result_image : option bytes) (text_response : option string)
    (reply_text : string) :
  _get_recent_image self key now = Some image_data →
  image_data ≠ [] →
  _edit_image json_dumps (OneImage image_data) post
  = Return (result_image, text_response) →
  truthy_bytes result_image = true →
  edit_reply_text exit_commands text_response
    (length (turns self key) <=? 2)%nat
  = Some reply_text →
  writable (image_file save_dir uuid "edited" now 1
              ("_" +:+ shorten len str_take (sanitize reply_text)))
  = false →
  edit_command save_dir exit_commands json_dumps uuid len str_take writable
    key prompt post now self
  = (conversations_getitem key
       (with_last_images
          (insert key (OnePath (image_file save_dir uuid "temp" now 0 "")))
          self)).1.
Proof.
  intros Hinbox Hne Hedit Hres Hreply Hw. unfold edit_command.
  rewrite Hinbox. destruct image_data as [|b bs]; [done |].
  set (s0 := with_last_images _ self).
  destruct (conversations_getitem key s0) as [s1 r] eqn:Hget.
  apply getitem_spec in Hget as (Hr & Hd & _).
  change (turns s0 key) with (turns self key) in Hd.
  by rewrite Hedit, Hres, Hd, Hreply, Hw.
Qed.

(** An edit command that finds an image in the inbox cache, obtains an
    edited image and can build its reply text (a history of at most two
    turns needs a first exit command for it) appends, when the edited file
    is written, exactly two turns to the history of the key: the user turn
    with the prompt and the saved copy of the inbox image, and the model
    turn with the text of the answer and the edited file.  The edited
    file, named [edited_...] in the save directory, becomes the last image
    of the key, the key is stamped with the time of the command, and the
    inbox cache is left as it was.  When the write of the edited file
    raises, no turn is appended, no time stamp is written, and the last
    image stays the saved copy of the inbox image. *)
Theorem edit_appends_two_turns (key prompt : string) (post : py Response)
    (now : Z) (self : GeminiImage) (image_data : bytes)
    (result_image : option bytes) (text_response : option string)
    (reply_text : string) :
  _get_recent_image self key now = Some image_data →
  image_data ≠ [] →
  _edit_image json_dumps (OneImage image_data) post
  = Return (result_image, text_response) →
  truthy_bytes result_image = true →
  edit_reply_text exit_commands text_response
    (length (turns self key) <=? 2)%nat
  = Some reply_text →
  let temp := image_file save_dir uuid "temp" now 0 "" in
  let edited :=
    image_file save_dir uuid "edited" now 1
      ("_" +:+ shorten len str_take (sanitize reply_text)) in
  let s' := edit_command save_dir exit_commands json_dumps uuid len str_take
              writable key prompt post now self in
  (∃ name, edited = PyStr.join_path save_dir name
           ∧ String.prefix "edited_" name = true)
  ∧ if writable edited then
      turns s' key
      = turns self key
        ++ [{| role := user;
               turn_parts := [PartText prompt; PartImageUrl temp] |};
            {| role := model;
               turn_parts := [PartText (text_or "我已编辑了图片" text_response);
                              PartImageUrl edited] |}]
      ∧ last_images s' !! key = Some (OnePath edited)
      ∧ conversation_timestamps s' !! key = Some now
      ∧ image_cache s' = image_cache self
    else
      turns s' key = turns self key
      ∧ conversation_timestamps s' = conversation_timestamps self
      ∧ last_images s' !! key = Some (OnePath temp)
      ∧ image_cache s' = image_cache self.
Proof.
  intros Hinbox Hne Hedit Hres Hreply temp edited s'. split.
  { eexists. split; [reflexivity |]. exact (prefix_append "edited_" _). }
  destruct (writable edited) eqn:Hw.
  - destruct (edit_command_success save_dir exit_commands json_dumps uuid len
                str_take writable key prompt post now self image_data
                result_image text_response reply_text Hinbox Hne Hedit Hres
                Hreply Hw) as (Ht & Hl & Hs & Hi).
    fold s' in Ht, Hl, Hs, Hi. split_and!; [done | | | done].
    + rewrite Hl. apply lookup_insert_eq.
    + rewrite Hs. apply lookup_insert_eq.
  - unfold s'.
    rewrite (edit_command_unwritten key prompt post now self image_data
               result_image text_response reply_text Hinbox Hne Hedit Hres
               Hreply Hw).
    set (s0 := with_last_images _ self).
    destruct (getitem_turns key s0) as (Ht & Hts & Hli & Hic).
    rewrite Ht, Hts, Hli, Hic. split_and!; try done.
    simpl. apply lookup_insert_eq.
Qed.

(** With an empty list of exit commands the first edits of a key record
    nothing: reading [self.exit_commands[0]] raises before the edited
    image is saved, so no turn is appended and no time stamp is written,
    and the last image stays the saved copy of the inbox image. *)
Theorem edit_without_exit_commands_records_nothing (key prompt : string)
    (post : py Response) (now : Z) (self : GeminiImage) (b x : byte)
    (bs xs : bytes) (text_response : option string) :
  exit_commands = [] →
  (length (turns self key) ≤ 2)%nat →
  _get_recent_image self key now = Some (b :: bs) →
  _edit_image json_dumps (OneImage (b :: bs)) post
  = Return (Some (x :: xs), text_response) →
  let s' := edit_command save_dir exit_commands json_dumps uuid len str_take writable
              key prompt post now self in
  turns s' key = turns self key
  ∧ conversation_timestamps s' = conversation_timestamps self
  ∧ last_images s'
    = <[key := OnePath (image_file save_dir uuid "temp" now 0 "")]>
        (last_images self).
Proof.
  intros Hexit Hlen Hinbox Hedit s'. unfold s', edit_command.
  rewrite Hinbox.
  set (s0 := with_last_images _ self).
  destruct (conversations_getitem key s0) as [s1 r] eqn:Hget.
  pose proof (getitem_turns key s0) as Hturns. rewrite Hget in Hturns.
  apply getitem_spec in Hget as (Hr & Hd & Hts & Hli & Hic).
  rewrite Hedit. cbn [truthy_bytes].
  change (turns s0 key) with (turns self key) in Hd.
  rewrite Hd. apply Nat.leb_le in Hlen. rewrite Hlen.
  unfold edit_reply_text. rewrite Hexit.
  destruct Hturns as (Ht & Hts' & Hli' & _). simpl in Ht, Hts', Hli'.
  done.
Qed.

(** Without a fresh image in the inbox cache the edit command changes
    nothing, whatever the API would answer and whether or not the key
    has a last image from an earlier command. *)
Theorem edit_needs_inbox_image (key prompt : string) (post : py Response)
    (now : Z) (self : GeminiImage) :
  (∀ k, cache_fresh (Dict.get (image_cache self) k) now = false) →
  edit_command save_dir exit_commands json_dumps uuid len str_take writable
    key prompt post now self
  = self.
Proof.
  intros Hstale. unfold edit_command.
  by rewrite (get_recent_image_stale self key now Hstale).
Qed.

Lemma edit_command_no_result (key prompt : string) (post : py Response)
    (now : Z) (self : GeminiImage) (b : byte) (bs : bytes)
    (result_image : option bytes) (text_response : option string) :
  _get_recent_image self key now = Some (b :: bs) →
  _edit_image json_dumps (OneImage (b :: bs)) post
  = Return (result_image, text_response) →
  truthy_bytes result_image = false →
  edit_command save_dir exit_commands json_dumps uuid len str_take writable
    key prompt post now self
  = (conversations_getitem key
       (with_last_images
          (insert key (OnePath (image_file save_dir uuid "temp" now 0 "")))
          self)).1.
Proof.
  intros Hinbox Hedit Hres. unfold edit_command. rewrite Hinbox.
  destruct (conversations_getitem key _) as [s1 r]. by rewrite Hedit, Hres.
Qed.

(** The copy of the inbox image that an edit command saves stays for good
    when the edit obtains no image and the key has no time stamp: no
    expiry sweep removes the last image of the key, so the retention sweep
    never deletes the file, however old it gets. *)
Theorem failed_edit_pins_its_temporary_file (key prompt : string)
    (post : py Response) (now later sweep_time max_age_hours : Z)
    (self : GeminiImage) (b : byte) (bs : bytes)
    (result_image : option bytes) (text_response : option string)
    (listing : list DirEntry) (file : DirEntry) :
  conversation_timestamps self !! key = None →
  _get_recent_image self key now = Some (b :: bs) →
  _edit_image json_dumps (OneImage (b :: bs)) post
  = Return (result_image, text_response) →
  truthy_bytes result_image = false →
  In file listing →
  PyStr.join_path save_dir (filename file)
  = image_file save_dir uuid "temp" now 0 "" →
  let s' := edit_command save_dir exit_commands json_dumps uuid len str_take writable
              key prompt post now self in
  let swept := _cleanup_expired_conversations later s' in
  last_images swept !! key
  = Some (OnePath (image_file save_dir uuid "temp" now 0 ""))
  ∧ In file (_cleanup_temp_files save_dir swept sweep_time max_age_hours listing).
Proof.
  intros Hts Hinbox Hedit Hres Hin Hname s' swept.
  assert (Hs' : s' = (conversations_getitem key
                        (with_last_images
                           (insert key (OnePath (image_file save_dir uuid
                                                   "temp" now 0 "")))
                           self)).1)
    by (by eapply edit_command_no_result).
  set (s0 := with_last_images _ self) in Hs'.
  destruct (getitem_turns key s0) as (_ & Hts0 & Hli0 & _).
  rewrite <- Hs' in Hts0, Hli0. simpl in Hts0, Hli0.
  pose proof (cleanup_expired_spec later s' key) as Hsweep.
  cbv zeta in Hsweep. fold swept in Hsweep.
  rewrite Hts0, Hts in Hsweep. destruct Hsweep as (_ & _ & Hli & _).
  assert (Hlast : last_images swept !! key
                  = Some (OnePath (image_file save_dir uuid "temp" now 0 ""))).
  { rewrite Hli, Hli0. apply lookup_insert_eq. }
  split; [done |].
  unfold _cleanup_temp_files. apply filter_In. split; [done |].
  unfold removes.
  destruct (is_dir file); [done |].
  destruct (PyStr.startswith_any _ (filename file)); [|done].
  destruct (bool_decide _); [|done].
  rewrite negb_involutive. apply referenced_in_use.
  exists key. left. by rewrite Hname.
Qed.

End EditFacts.

Lemma edit_appends_two_turns_witness :
  let self := _handle_image_message Sample.hash Sample.decodable Sample.direct
                [Sample.photo] 100 init in
  let s' := edit_command Sample.save_dir Sample.exit_commands Sample.json_dumps
              Sample.uuid String.length PyStr.take Sample.writable "u"
              "make it blue" Sample.one_image 110 self in
  let failed := edit_command Sample.save_dir Sample.exit_commands
                  Sample.json_dumps Sample.uuid String.length PyStr.take
                  (fun _ => false) "u" "make it blue" Sample.one_image 110
                  self in
  (length (turns s' "u") = 2%nat
   ∧ (∃ edited, last_images s' !! "u" = Some (OnePath edited)
                ∧ String.prefix "temp/edited_110_" edited = true)
   ∧ conversation_timestamps s' !! "u" = Some 110)
  ∧ (turns failed "u" = []
     ∧ conversation_timestamps failed = ∅
     ∧ last_images failed !! "u"
       = Some (OnePath "temp/temp_110_00000000.png")).
Proof.
  pose proof (edit_appends_two_turns Sample.save_dir Sample.exit_commands
                Sample.json_dumps Sample.uuid String.length PyStr.take
                Sample.writable "u" "make it blue" Sample.one_image 110
                (_handle_image_message Sample.hash Sample.decodable
                   Sample.direct [Sample.photo] 100 init)
                Sample.photo (Some Sample.png) None
                (default EmptyString
                   (edit_reply_text Sample.exit_commands None true)))
    as H.
  pose proof (edit_appends_two_turns Sample.save_dir Sample.exit_commands
                Sample.json_dumps Sample.uuid String.length PyStr.take
                (fun _ => false) "u" "make it blue" Sample.one_image 110
                (_handle_image_message Sample.hash Sample.decodable
                   Sample.direct [Sample.photo] 100 init)
                Sample.photo (Some Sample.png) None
                (default EmptyString
                   (edit_reply_text Sample.exit_commands None true)))
    as F.
  split.
  - destruct H as (_ & H);
      [vm_compute; reflexivity | discriminate | vm_compute; reflexivity
      | reflexivity | vm_compute; reflexivity |].
    cbv beta zeta in H. change (Sample.writable _) with true in H.
    cbv iota in H. destruct H as (Ht & Hl & Hs & _). split_and!.
    + rewrite Ht. reflexivity.
    + eexists. split; [exact Hl |]. vm_compute. reflexivity.
    + exact Hs.
  - destruct F as (_ & F);
      [vm_compute; reflexivity | discriminate | vm_compute; reflexivity
      | reflexivity | vm_compute; reflexivity |].
    cbv beta zeta iota in F. destruct F as (Ht & Hs & Hl & _).
    split_and!; [exact Ht | exact Hs | exact Hl].
Defined.

Lemma edit_without_exit_commands_records_nothing_witness :
  let self := _handle_image_message Sample.hash Sample.decodable Sample.direct
                [Sample.photo] 100 init in
  let s' := edit_command Sample.save_dir [] Sample.json_dumps
              Sample.uuid String.length PyStr.take Sample.writable "u" "make it blue"
              Sample.one_image 110 self in
  turns s' "u" = turns self "u"
  ∧ conversation_timestamps s' = conversation_timestamps self
  ∧ last_images s'
    = <["u" := OnePath (image_file Sample.save_dir Sample.uuid "temp" 110 0 "")]>
        (last_images self).
Proof.
  apply (edit_without_exit_commands_records_nothing Sample.save_dir []
           Sample.json_dumps Sample.uuid String.length PyStr.take Sample.writable
           "u" "make it blue" Sample.one_image 110
           (_handle_image_message Sample.hash Sample.decodable Sample.direct
              [Sample.photo] 100 init)
           "255"%byte "137"%byte (replicate 100 "255"%byte)
           ["P"; "N"; "G"]%byte None).
  - reflexivity.
  - vm_compute. lia.
  - vm_compute. reflexivity.
  - vm_compute. reflexivity.
Defined.

Lemma edit_needs_inbox_image_witness :
  let self := generate_command Sample.save_dir Sample.uuid String.length
                PyStr.take Sample.writable "u" "a cat" Sample.one_image 7 init in
  edit_command Sample.save_dir Sample.exit_commands Sample.json_dumps
    Sample.uuid String.length PyStr.take Sample.writable "u" "make it blue"
    Sample.one_image 8 self
  = self.
Proof.
  apply (edit_needs_inbox_image Sample.save_dir Sample.exit_commands
           Sample.json_dumps Sample.uuid String.length PyStr.take Sample.writable
           "u" "make it blue" Sample.one_image 8
           (generate_command Sample.save_dir Sample.uuid String.length
              PyStr.take Sample.writable "u" "a cat" Sample.one_image 7 init)).
  intros k. reflexivity.
Defined.

Lemma failed_edit_pins_its_temporary_file_witness :
  let self := _handle_image_message Sample.hash Sample.decodable Sample.direct
                [Sample.photo] 100 init in
  let file := {| filename := "temp_110_00000000.png"; is_dir := false;
                 mtime := 110 |} in
  let s' := edit_command Sample.save_dir Sample.exit_commands Sample.json_dumps
              Sample.uuid String.length PyStr.take Sample.writable "u" "make it blue"
              Sample.timeout 110 self in
  let swept := _cleanup_expired_conversations 1000000 s' in
  last_images swept !! "u"
  = Some (OnePath (image_file Sample.save_dir Sample.uuid "temp" 110 0 ""))
  ∧ In file (_cleanup_temp_files Sample.save_dir swept 2000000 24 [file]).
Proof.
  apply (failed_edit_pins_its_temporary_file Sample.save_dir
           Sample.exit_commands Sample.json_dumps Sample.uuid String.length
           PyStr.take Sample.writable "u" "make it blue" Sample.timeout 110 1000000 2000000 24
           (_handle_image_message Sample.hash Sample.decodable Sample.direct
              [Sample.photo] 100 init)
           "255"%byte (replicate 100 "255"%byte) None
           (Some "图片编辑失败: API调用超时，请稍后再试: Read timed out.")
           [{| filename := "temp_110_00000000.png"; is_dir := false;
               mtime := 110 |}]
           {| filename := "temp_110_00000000.png"; is_dir := false;
              mtime := 110 |}).
  - reflexivity.
  - vm_compute. reflexivity.
  - vm_compute. reflexivity.
  - reflexivity.
  - simpl. left. reflexivity.
  - vm_compute. reflexivity.
Defined.

(** ** What the commands leave alone *)

Section Frame.

Variable save_dir : string.
Variable exit_commands : list string.
Variable json_dumps : ApiResult → string.
Variable hash : string → Z.
Variable uuid : nat → string.
Variable len : string → nat.
Variable str_take : nat → string → string.
Variable writable : string → bool.
Variable decodable : bytes → bool.

Lemma getitem_frame (key : string) (self : GeminiImage) :
  let s' := (conversations_getitem key self).1 in
  image_cache s' = image_cache self
  ∧ auto_edit s' = auto_edit self
  ∧ current_context s' = current_context self.
Proof.
  unfold conversations_getitem, new_list.
  by destruct (conversations self !! key).
Qed.

Lemma limit_history_frame (r : ref) (self : GeminiImage) :
  let s' := (limit_history r self).1 in
  image_cache s' = image_cache self
  ∧ auto_edit s' = auto_edit self
  ∧ current_context s' = current_context self.
Proof.
  unfold limit_history, list_slice_last, new_list.
  by destruct (10 <? length (deref self r))%nat.
Qed.

Lemma record_edit_frame (key prompt : string) (r : ref)
    (image_path new_image_path : string) (text_response : option string)
    (now : Z) (self : GeminiImage) :
  let s' := record_edit key prompt r image_path new_image_path text_response
              now self in
  image_cache s' = image_cache self
  ∧ auto_edit s' = auto_edit self
  ∧ current_context s' = current_context self.
Proof.
  unfold record_edit.
  match goal with
  | |- context [limit_history r ?s] =>
      pose proof (limit_history_frame r s) as H;
      destruct (limit_history r s) as [s4 r']
  end.
  simpl in *. done.
Qed.

Lemma generate_command_frame (key prompt : string) (post : py Response)
    (now : Z) (self : GeminiImage) :
  let s' := generate_command save_dir uuid len str_take writable key prompt post now self in
  image_cache s' = image_cache self
  ∧ auto_edit s' = auto_edit self
  ∧ current_context s' = current_context self.
Proof.
  unfold generate_command.
  pose proof (getitem_frame key self) as Hget.
  destruct (conversations_getitem key self) as [s1 r]. simpl in Hget.
  destruct (_generate_image post) as [[image_datas text_responses] | e];
    [|done].
  destruct image_datas as [|i image_datas]; [done |].
  destruct (save_images _ _ _ _ _ _ _ _) as [[|p ps]|]; [done | | done].
  match goal with
  | |- context [limit_history r ?s] =>
      pose proof (limit_history_frame r s) as H;
      destruct (limit_history r s) as [s4 r']
  end.
  simpl in *. destruct H as (-> & -> & ->). done.
Qed.

Lemma edit_command_frame (key prompt : string) (post : py Response)
    (now : Z) (self : GeminiImage) :
  let s' := edit_command save_dir exit_commands json_dumps uuid len str_take writable
              key prompt post now self in
  image_cache s' = image_cache self
  ∧ auto_edit s' = auto_edit self
  ∧ current_context s' = current_context self.
Proof.
  unfold edit_command.
  destruct (_get_recent_image self key now) as [[|b bs]|]; try done.
  match goal with
  | |- context [conversations_getitem key ?s] =>
      pose proof (getitem_frame key s) as Hget;
      destruct (conversations_getitem key s) as [s1 r]
  end.
  simpl in Hget.
  destruct (_edit_image _ _ _) as [[result_image text_response] | e]; [|done].
  destruct (truthy_bytes result_image); [|done].
  destruct (edit_reply_text _ _ _) as [reply_text|]; [|done].
  destruct (writable _); [|done].
  match goal with
  | |- context [record_edit key prompt r ?a ?b ?c now s1] =>
      destruct (record_edit_frame key prompt r a b c now s1) as (-> & -> & ->)
  end.
  done.
Qed.

Lemma continue_command_frame (key content : string) (post : py Response)
    (now : Z) (disk : gmap string bytes) (self : GeminiImage) :
  let s' := continue_command save_dir json_dumps uuid len str_take writable
              key content post now disk self in
  image_cache s' = image_cache self
  ∧ auto_edit s' = auto_edit self
  ∧ current_context s' = current_context self.
Proof.
  unfold continue_command.
  destruct (last_image_path_of disk _) as [p|]; [|done].
  destruct (if PyStr.truthy p then disk !! p else None) as [image_data|];
    [|done].
  pose proof (getitem_frame key self) as Hget.
  destruct (conversations_getitem key self) as [s1 r]. simpl in Hget.
  destruct (_edit_image _ _ _) as [[result_image text_response] | e]; [|done].
  destruct (truthy_bytes result_image); [|done].
  destruct (writable _); [|done].
  match goal with
  | |- context [record_edit key content r ?a ?b ?c now s1] =>
      destruct (record_edit_frame key content r a b c now s1) as (-> & -> & ->)
  end.
  done.
Qed.

(** The four commands never write the inbox cache: an image that a user
    sent stays available to the following edit commands until it is 300
    seconds old. *)
Theorem commands_leave_the_inbox_cache (key prompt : string)
    (post : py Response) (now : Z) (disk : gmap string bytes)
    (self : GeminiImage) :
  image_cache (generate_command save_dir uuid len str_take writable key prompt post
                 now self) = image_cache self
  ∧ image_cache (edit_command save_dir exit_commands json_dumps uuid len
                   str_take writable key prompt post now self) = image_cache self
  ∧ image_cache (continue_command save_dir json_dumps uuid len str_take writable
                   key prompt post now disk self) = image_cache self
  ∧ image_cache (exit_command key self) = image_cache self.
Proof.
  split_and!.
  - apply generate_command_frame.
  - apply edit_command_frame.
  - apply continue_command_frame.
  - unfold exit_command. by destruct (conversations self !! key).
Qed.

Lemma forget_keys_frame (ks : list string) :
  ∀ self : GeminiImage,
    auto_edit
      (foldl
         (fun self key =>
            with_last_images (delete key)
              (with_conversation_timestamps (delete key)
                 (with_conversations (delete key) self)))
         self ks)
    = auto_edit self.
Proof.
  induction ks as [|k ks IH]; intros self; [done |].
  cbn [foldl]. by rewrite IH.
Qed.

Lemma on_handle_context_auto_edit (context : Context) (event : Event)
    (post : py Response) (now : Z) (disk : gmap string bytes)
    (self : GeminiImage) :
  auto_edit (on_handle_context save_dir exit_commands json_dumps hash uuid len
               str_take decodable writable context event post now disk self)
  = auto_edit self.
Proof.
  unfold on_handle_context.
  set (s1 := _cleanup_image_cache now (_cleanup_expired_conversations now self)).
  assert (H1 : auto_edit s1 = auto_edit self).
  { unfold s1, _cleanup_image_cache, _cleanup_expired_conversations. simpl.
    apply forget_keys_frame. }
  rewrite <- H1. destruct event.
  - unfold _handle_image_message.
    destruct image_datas; [done |].
    destruct (forallb _ _); [|done]. by destruct (forallb decodable _).
  - unfold exit_command. by destruct (conversations s1 !! _).
  - apply generate_command_frame.
  - apply edit_command_frame.
  - destruct (auto_edit s1 && _); [|done]. apply continue_command_frame.
  - done.
Qed.

(** [__init__] sets [auto_edit] to [False] and nothing sets it again: after
    any sequence of events from the start, a text that is no command only
    runs the two sweeps, and the implicit continuation is never taken. *)
Theorem implicit_continuation_is_never_taken
    (events : list (Context * Event * py Response * Z * gmap string bytes))
    (context : Context) (content : string) (post : py Response) (now : Z)
    (disk : gmap string bytes) :
  let step := fun self '(context, event, post, now, disk) =>
    on_handle_context save_dir exit_commands json_dumps hash uuid len
      str_take decodable writable context event post now disk self in
  let self := foldl step init events in
  auto_edit self = false
  ∧ on_handle_context save_dir exit_commands json_dumps hash uuid len
      str_take decodable writable context (OtherText content) post now disk self
    = _cleanup_image_cache now (_cleanup_expired_conversations now self).
Proof.
  intros step self.
  assert (Hoff : auto_edit self = false).
  { assert (Hall : ∀ s, auto_edit s = false →
                        auto_edit (foldl step s events) = false).
    { induction events as [|[[[[c ev] p] n] d] events IH]; intros s Hs;
        [done |].
      cbn [foldl]. apply IH. unfold step.
      by rewrite on_handle_context_auto_edit. }
    by apply Hall. }
  split; [done |].
  unfold on_handle_context.
  set (s1 := _cleanup_image_cache now (_cleanup_expired_conversations now self)).
  assert (H1 : auto_edit s1 = false).
  { unfold s1, _cleanup_image_cache, _cleanup_expired_conversations. simpl.
    by rewrite forget_keys_frame. }
  by rewrite H1.
Qed.

(** A conversation that has expired is forgotten before the next command
    runs: a generate command that arrives more than 600 seconds after the
    last time stamp of its key, obtains an image and writes every file
    starts the history anew, with its own user turns and model turns only;
    when one of its writes raises, the history of the key is left empty. *)
Theorem generate_after_expiry_starts_anew (context : Context) (prompt : string)
    (post : py Response) (T now : Z) (disk : gmap string bytes)
    (self : GeminiImage)
    (image_datas : list (option bytes))
    (text_responses : list (option string)) :
  conversation_timestamps self !! session_id context = Some T →
  T + 600 < now →
  _generate_image post = Return (image_datas, text_responses) →
  existsb is_not_None image_datas = true →
  let s' := on_handle_context save_dir exit_commands json_dumps hash uuid len
              str_take decodable writable context (GenerateCommand prompt)
              post now disk self in
  match save_images save_dir uuid writable
          (clean_texts_of len str_take text_responses) now 0 image_datas []
  with
  | Some image_paths =>
      turns s' (session_id context)
      = user_messages_of prompt
        ++ assistant_messages_of image_paths text_responses
      ∧ Forall (fun t => role t = model)
               (assistant_messages_of image_paths text_responses)
      ∧ length (assistant_messages_of image_paths text_responses)
        = length (List.filter is_not_None image_datas)
      ∧ image_paths ≠ []
  | None => turns s' (session_id context) = []
  end.
Proof.
  intros HT Hnow Hgen Hsome s'. unfold s', on_handle_context.
  set (key := session_id context) in *.
  set (s1 := _cleanup_image_cache now (_cleanup_expired_conversations now self)).
  assert (Hempty : turns s1 key = []).
  { pose proof (cleanup_expired_spec now self key) as Hsweep.
    cbv zeta in Hsweep. rewrite HT in Hsweep.
    rewrite bool_decide_true in Hsweep by (unfold conversation_expiry; lia).
    destruct Hsweep as (Hc & _).
    unfold turns, history, s1, _cleanup_image_cache. simpl. by rewrite Hc. }
  destruct (save_images _ _ _ _ _ _ _ _) as [image_paths|] eqn:Hsave.
  - destruct (save_images_some save_dir uuid writable _ _ _ _ Hsome Hsave)
      as (p & ps & ->).
    destruct (generate_command_success save_dir uuid len str_take writable key
                prompt post now s1 image_datas text_responses p ps Hgen Hsave)
      as (Hturns & _).
    split_and!.
    + by rewrite Hturns, Hempty.
    + apply assistant_messages_model.
    + unfold assistant_messages_of. rewrite length_imap.
      by rewrite (save_images_length _ _ _ _ _ _ _ _ _ Hsave).
    + done.
  - rewrite (generate_command_unsaved save_dir uuid len str_take writable key
               prompt post now s1 image_datas text_responses Hgen Hsave).
    destruct (getitem_turns key s1) as (Ht & _). by rewrite Ht.
Qed.

End Frame.

Lemma generate_after_expiry_starts_anew_witness :
  let self := generate_command Sample.save_dir Sample.uuid String.length
                PyStr.take Sample.writable "u" "a cat" Sample.one_image 0
                init in
  let s' := Sample.handle Sample.direct (GenerateCommand "a dog")
              Sample.one_image 601 self in
  length (turns self "u") = 3%nat
  ∧ turns s' "u"
    = [ {| role := user; turn_parts := [PartText "a"] |};
        {| role := user; turn_parts := [PartText "dog"] |};
        {| role := model;
           turn_parts :=
             [PartText "我已生成了图片";
              PartImageUrl "temp/gemini_601_00000000_generated_image.png"] |} ].
Proof.
  split; [reflexivity |].
  pose proof (generate_after_expiry_starts_anew Sample.save_dir
                Sample.exit_commands Sample.json_dumps Sample.hash Sample.uuid
                String.length PyStr.take Sample.writable Sample.decodable
                Sample.direct "a dog" Sample.one_image 0 601 ∅
                (generate_command Sample.save_dir Sample.uuid String.length
                   PyStr.take Sample.writable "u" "a cat" Sample.one_image 0
                   init)
                [Some Sample.png] [None]) as H.
  destruct H as (H & _); [vm_compute; reflexivity | lia | reflexivity
                         | reflexivity |].
  exact H.
Defined.

(** ** The three stores stay together *)

Section Invariant.

Variable save_dir : string.
Variable exit_commands : list string.
Variable json_dumps : ApiResult → string.
Variable hash : string → Z.
Variable uuid : nat → string.
Variable len : string → nat.
Variable str_take : nat → string → string.
Variable writable : string → bool.
Variable decodable : bytes → bool.

Lemma command_effect_refl (key : string) (now : Z) (self : GeminiImage) :
  command_effect key now self self.
Proof. unfold command_effect. auto. Qed.

Lemma command_effect_keeps_invariant (key : string) (now : Z)
    (self s' : GeminiImage) :
  command_effect key now self s' →
  stamped_keys_complete self → stamped_keys_complete s'.
Proof.
  intros (Hc & Hl & Ht) Hinv k Hk.
  destruct Ht as [Ht | (Ht & Hck & Hlk)].
  - rewrite Ht in Hk. destruct (Hinv k Hk). auto.
  - destruct (decide (key = k)) as [<- | Hne]; [done |].
    rewrite Ht, lookup_insert_ne in Hk by done.
    destruct (Hinv k Hk). auto.
Qed.

Lemma getitem_effect (key : string) (self s1 : GeminiImage) (r : ref) :
  conversations_getitem key self = (s1, r) →
  (∀ k, is_Some (conversations self !! k) → is_Some (conversations s1 !! k))
  ∧ conversations s1 !! key = Some r
  ∧ last_images s1 = last_images self
  ∧ conversation_timestamps s1 = conversation_timestamps self.
Proof.
  unfold conversations_getitem, new_list.
  destruct (conversations self !! key) as [r0|] eqn:E.
  - by intros [= <- <-].
  - intros [= <- <-]. simpl. split_and!; try done.
    + intros k Hk. apply lookup_insert_is_Some'. by right.
    + apply lookup_insert_eq.
Qed.

Lemma limit_history_stores (r : ref) (self : GeminiImage) :
  let s' := (limit_history r self).1 in
  conversations s' = conversations self
  ∧ last_images s' = last_images self
  ∧ conversation_timestamps s' = conversation_timestamps self.
Proof.
  unfold limit_history, list_slice_last, new_list.
  by destruct (10 <? length (deref self r))%nat.
Qed.

Lemma record_edit_effect (key prompt : string) (r : ref)
    (image_path new_image_path : string) (text_response : option string)
    (now : Z) (self : GeminiImage) :
  conversations self !! key = Some r →
  command_effect key now self
    (record_edit key prompt r image_path new_image_path text_response now self).
Proof.
  intros Hr. unfold record_edit.
  match goal with
  | |- context [limit_history r ?s] =>
      pose proof (limit_history_stores r s) as H;
      destruct (limit_history r s) as [s4 r']
  end.
  simpl in H. destruct H as (Hc & Hl & Ht).
  unfold command_effect. simpl. rewrite Hc, Hl, Ht.
  split_and!.
  - done.
  - intros k Hk. apply lookup_insert_is_Some'. by right.
  - right. rewrite Hr, lookup_insert_eq. eauto.
Qed.

Lemma generate_command_effect (key prompt : string) (post : py Response)
    (now : Z) (self : GeminiImage) :
  command_effect key now self
    (generate_command save_dir uuid len str_take writable key prompt post now self).
Proof.
  unfold generate_command.
  destruct (conversations_getitem key self) as [s1 r] eqn:Hget.
  apply getitem_effect in Hget as (Hc1 & Hr & Hl1 & Ht1).
  assert (H1 : command_effect key now self s1).
  { unfold command_effect. rewrite Hl1, Ht1. auto. }
  destruct (_generate_image post) as [[image_datas text_responses] | e];
    [|done].
  destruct image_datas as [|i image_datas]; [done |].
  destruct (save_images _ _ _ _ _ _ _ _) as [[|p ps]|]; [done | | done].
  match goal with
  | |- context [limit_history r ?s] =>
      pose proof (limit_history_stores r s) as H;
      destruct (limit_history r s) as [s4 r']
  end.
  simpl in H. destruct H as (Hc & Hl & Ht).
  unfold command_effect. simpl. rewrite Hc, Hl, Ht, Hl1, Ht1.
  split_and!.
  - done.
  - intros k Hk. apply lookup_insert_is_Some'. by right.
  - right. rewrite Hr, lookup_insert_eq. eauto.
Qed.

Lemma command_effect_trans (key : string) (now : Z) (a b c : GeminiImage) :
  (∀ k, is_Some (conversations a !! k) → is_Some (conversations b !! k)) →
  (∀ k, is_Some (last_images a !! k) → is_Some (last_images b !! k)) →
  conversation_timestamps b = conversation_timestamps a →
  command_effect key now b c →
  command_effect key now a c.
Proof.
  intros Hc Hl Ht (Hc' & Hl' & Ht'). unfold command_effect.
  rewrite <- Ht. auto.
Qed.

Lemma edit_command_effect (key prompt : string) (post : py Response)
    (now : Z) (self : GeminiImage) :
  command_effect key now self
    (edit_command save_dir exit_commands json_dumps uuid len str_take writable
       key prompt post now self).
Proof.
  unfold edit_command.
  destruct (_get_recent_image self key now) as [[|b bs]|];
    try apply command_effect_refl.
  set (s0 := with_last_images _ self).
  destruct (conversations_getitem key s0) as [s1 r] eqn:Hget.
  apply getitem_effect in Hget as (Hc1 & Hr & Hl1 & Ht1).
  assert (Hc : ∀ k, is_Some (conversations self !! k) →
                    is_Some (conversations s1 !! k)) by exact Hc1.
  assert (Hl : ∀ k, is_Some (last_images self !! k) →
                    is_Some (last_images s1 !! k)).
  { intros k Hk. rewrite Hl1. unfold s0. simpl.
    apply lookup_insert_is_Some'. by right. }
  assert (Ht : conversation_timestamps s1 = conversation_timestamps self)
    by exact Ht1.
  assert (H1 : command_effect key now self s1).
  { unfold command_effect. auto. }
  destruct (_edit_image _ _ _) as [[result_image text_response] | e]; [|done].
  destruct (truthy_bytes result_image); [|done].
  destruct (edit_reply_text _ _ _) as [reply_text|]; [|done].
  destruct (writable _); [|done].
  eapply command_effect_trans; [exact Hc | exact Hl | exact Ht |].
  by apply record_edit_effect.
Qed.

Lemma continue_command_effect (key content : string) (post : py Response)
    (now : Z) (disk : gmap string bytes) (self : GeminiImage) :
  command_effect key now self
    (continue_command save_dir json_dumps uuid len str_take writable
       key content post now disk self).
Proof.
  unfold continue_command.
  destruct (last_image_path_of disk _) as [p|];
    [|apply command_effect_refl].
  destruct (if PyStr.truthy p then disk !! p else None) as [image_data|];
    [|apply command_effect_refl].
  destruct (conversations_getitem key self) as [s1 r] eqn:Hget.
  apply getitem_effect in Hget as (Hc1 & Hr & Hl1 & Ht1).
  assert (H1 : command_effect key now self s1).
  { unfold command_effect. rewrite Hl1, Ht1. auto. }
  destruct (_edit_image _ _ _) as [[result_image text_response] | e]; [|done].
  destruct (truthy_bytes result_image); [|done].
  destruct (writable _); [|done].
  eapply command_effect_trans; [exact Hc1 | by rewrite Hl1 | exact Ht1 |].
  by apply record_edit_effect.
Qed.

Lemma sweep_keeps_invariant (now : Z) (self : GeminiImage) :
  stamped_keys_complete self →
  stamped_keys_complete (_cleanup_expired_conversations now self).
Proof.
  intros Hinv k Hk.
  pose proof (cleanup_expired_spec now self k) as Hsweep. cbv zeta in Hsweep.
  destruct (conversation_timestamps self !! k) as [t|] eqn:E.
  - destruct (bool_decide (now - t > conversation_expiry)).
    + destruct Hsweep as (_ & Ht & _). rewrite Ht in Hk. by destruct Hk.
    + destruct Hsweep as (Hc & _ & Hl & _). rewrite Hc, Hl.
      apply Hinv. rewrite E. eauto.
  - destruct Hsweep as (_ & Ht & _). rewrite Ht in Hk. by destruct Hk.
Qed.

(** From the start and through every sequence of events, a key that has a
    time stamp also has a history and a last image: the expiry sweep,
    which walks the time stamps, always removes the three together. *)
Theorem stamped_keys_have_history_and_last_image
    (events : list (Context * Event * py Response * Z * gmap string bytes)) :
  let step := fun self '(context, event, post, now, disk) =>
    on_handle_context save_dir exit_commands json_dumps hash uuid len
      str_take decodable writable context event post now disk self in
  stamped_keys_complete (foldl step init events).
Proof.
  intros step.
  assert (Hstep : ∀ self context event post now disk,
            stamped_keys_complete self →
            stamped_keys_complete
              (on_handle_context save_dir exit_commands json_dumps hash uuid
                 len str_take decodable writable context event post now disk self)).
  { intros self context event post now disk Hinv. unfold on_handle_context.
    set (s1 := _cleanup_image_cache now (_cleanup_expired_conversations now self)).
    assert (H1 : stamped_keys_complete s1)
      by (apply (sweep_keeps_invariant now self Hinv)).
    destruct event.
    - unfold _handle_image_message.
      destruct image_datas; [done |].
      destruct (forallb _ _); [|done]. by destruct (forallb decodable _).
    - unfold exit_command.
      destruct (conversations s1 !! session_id context) eqn:E; [|done].
      intros k Hk. simpl in *.
      destruct (decide (session_id context = k)) as [<- | Hne].
      + rewrite lookup_delete_eq in Hk. by destruct Hk.
      + rewrite lookup_delete_ne in Hk by done.
        rewrite !lookup_delete_ne by done. by apply H1.
    - eapply command_effect_keeps_invariant; [|exact H1].
      apply generate_command_effect.
    - eapply command_effect_keeps_invariant; [|exact H1].
      apply edit_command_effect.
    - destruct (auto_edit s1 && _); [|done].
      eapply command_effect_keeps_invariant; [|exact H1].
      apply continue_command_effect.
    - done. }
  assert (Hall : ∀ s, stamped_keys_complete s →
                      stamped_keys_complete (foldl step s events)).
  { induction events as [|[[[[c ev] p] n] d] events IH]; intros s Hs; [done |].
    cbn [foldl]. apply IH. unfold step. by apply Hstep. }
  apply Hall. intros k Hk. simpl in Hk. rewrite lookup_empty in Hk.
  by destruct Hk.
Qed.

End Invariant.
